(** * Policy compliance checker: segmentation and extraction pipeline

    A shallow embedding of [agents/chunker.py] (class [ChunkerAgent]) and of
    [agents/requirement_extractor.py] (class [RequirementExtractorAgent]),
    with the properties of the specification stated over it.

    Text.  A Python [str] is a sequence of code points.  Here a character is
    an [ascii], read as a code point below 256 (Latin-1), and a text is a
    [list ascii]; [len] is Python's [len], an integer.  Indices are [Z],
    because the splitter computes [best_break - overlap], which Python
    accepts when negative (an index counted from the end).  A Python
    [float] is a primitive float (both are IEEE 754 binary64).

    What the two classes call from outside the repository -- the language
    model, the LangChain text splitter, the [re], [json] and [hashlib]
    modules -- is not modelled: the extractor takes these as operations of
    the class [Externals], and what is proved of it holds whatever they
    do, unless the statement says what it assumes of them.  The three
    regular expressions of [_assess_content_quality] are simple enough
    to be written out ([Module Re]).

    The steps of [workflows/compliance_workflow.py] that call the two
    classes -- the making of the chunks and the extraction loop -- are
    embedded as well ([Module Workflow]); the file system they write to
    is the class [Files]. *)

From Stdlib Require Import String Ascii List NArith ZArith Bool Lia.
From Stdlib Require Import DecimalString PrimFloat Uint63.
From Stdlib Require Import Sorted.
Import ListNotations.

Set Implicit Arguments.

(** ** Python strings *)

Module Py.

Definition str := list ascii.

(** A literal. *)
Definition L (s : string) : str := list_ascii_of_string s.

Definition nl : ascii := "010"%char.

Definition len (s : str) : Z := Z.of_nat (length s).

(** [str.isspace] on one code point below 256: the ASCII controls 9-13 and
    28-31, the space, NEL (133) and the no-break space (160). *)
Definition isspace (c : ascii) : bool :=
  let n := N_of_ascii c in
  ((9 <=? n) && (n <=? 13) || (28 <=? n) && (n <=? 32)
   || (n =? 133) || (n =? 160))%N.

Fixpoint dropWhile (f : ascii -> bool) (s : str) : str :=
  match s with
  | [] => []
  | c :: s' => if f c then dropWhile f s' else s
  end.

(** [s.lstrip()]. *)
Definition lstrip (s : str) : str := dropWhile isspace s.

(** [s.rstrip()]: a character is kept when a character that is not
    whitespace follows it, or when it is not whitespace itself. *)
Fixpoint rstrip (s : str) : str :=
  match s with
  | [] => []
  | c :: s' =>
      match rstrip s' with
      | [] => if isspace c then [] else [c]
      | kept => c :: kept
      end
  end.

(** [s.strip()]. *)
Definition strip (s : str) : str := rstrip (lstrip s).

(** [s.lstrip(chars)]. *)
Definition lstrip_chars (chars s : str) : str :=
  dropWhile (fun c => existsb (Ascii.eqb c) chars) s.

(** Truthiness of a string: [bool(s)]. *)
Definition truthy (s : str) : bool :=
  match s with [] => false | _ :: _ => true end.

(** [s.startswith(p)]. *)
Fixpoint startswith (s p : str) : bool :=
  match p, s with
  | [], _ => true
  | _ :: _, [] => false
  | a :: p', b :: s' => Ascii.eqb a b && startswith s' p'
  end.

(** [sub in s]. *)
Fixpoint contains (s sub : str) : bool :=
  startswith s sub
  || match s with [] => false | _ :: s' => contains s' sub end.

(** [s.split(sep)] for a non-empty [sep]: a left-to-right scan for
    non-overlapping occurrences.  [skip] counts the characters of a matched
    separator still to be passed, [cur] is the current part, reversed.
    (Python raises [ValueError] on an empty separator; every separator of
    the chunker is a non-empty constant.) *)
Fixpoint split_go (sep s : str) (skip : nat) (cur : str) : list str :=
  match s with
  | [] => [rev cur]
  | c :: s' =>
      match skip with
      | S k => split_go sep s' k cur
      | O =>
          if startswith s sep
          then rev cur :: split_go sep s' (length sep - 1) []
          else split_go sep s' 0 (c :: cur)
      end
  end.

Definition split (s sep : str) : list str := split_go sep s 0 [].

(** [sep.join(parts)]. *)
Fixpoint join (sep : str) (parts : list str) : str :=
  match parts with
  | [] => []
  | [p] => p
  | p :: rest => p ++ sep ++ join sep rest
  end.

(** [s.rfind(sub)]: the highest index at which [sub] occurs, or [-1]. *)
Fixpoint rfind_from (sub s : str) (i best : Z) : Z :=
  match s with
  | [] => if startswith [] sub then i else best
  | _ :: s' => rfind_from sub s' (i + 1) (if startswith s sub then i else best)
  end.

Definition rfind (s sub : str) : Z := rfind_from sub s 0 (-1).

(** Slice bounds: a negative index counts from the end, and both ends are
    clamped to [0 .. len s]. *)
Definition clamp_index (n i : Z) : Z :=
  if (i <? 0)%Z then Z.max 0 (i + n) else Z.min i n.

(** [s[i:j]] and [s[i:]]. *)
Definition slice (s : str) (i j : Z) : str :=
  let a := clamp_index (len s) i in
  let b := clamp_index (len s) j in
  firstn (Z.to_nat (b - a)) (skipn (Z.to_nat a) s).

Definition slice_from (s : str) (i : Z) : str :=
  skipn (Z.to_nat (clamp_index (len s) i)) s.

(** [enumerate(l)]. *)
Fixpoint enumerate_from (A : Type) (i : Z) (l : list A) : list (Z * A) :=
  match l with
  | [] => []
  | x :: l' => (i, x) :: enumerate_from (i + 1) l'
  end.

Definition enumerate (A : Type) (l : list A) : list (Z * A) :=
  enumerate_from 0 l.

Definition dq : ascii := "034"%char.

(** A double quote, as a one-character string. *)
Definition q : str := [dq].

Fixpoint str_eqb (s t : str) : bool :=
  match s, t with
  | [], [] => true
  | a :: s', b :: t' => Ascii.eqb a b && str_eqb s' t'
  | _, _ => false
  end.

(** [s.find(sub)]: the lowest index at which [sub] occurs, or [-1]. *)
Fixpoint find_from (sub s : str) (i : Z) : Z :=
  if startswith s sub then i
  else match s with [] => (-1)%Z | _ :: s' => find_from sub s' (i + 1) end.

Definition find (s sub : str) : Z := find_from sub s 0.

(** [str.isalnum] on one code point below 256. *)
Definition isalnum (c : ascii) : bool :=
  let n := N_of_ascii c in
  ((48 <=? n) && (n <=? 57) || (65 <=? n) && (n <=? 90)
   || (97 <=? n) && (n <=? 122)
   || (n =? 170) || (n =? 178) || (n =? 179) || (n =? 181)
   || (n =? 185) || (n =? 186) || (188 <=? n) && (n <=? 190)
   || (192 <=? n) && (n <=? 214) || (216 <=? n) && (n <=? 246)
   || (248 <=? n))%N.

(** [str.lower] on one code point below 256, and on a string. *)
Definition lower_char (c : ascii) : ascii :=
  let n := N_of_ascii c in
  if ((65 <=? n) && (n <=? 90)
      || (192 <=? n) && (n <=? 222) && negb (n =? 215))%N
  then ascii_of_N (n + 32) else c.

Definition lower (s : str) : str := map lower_char s.

(** [s.split()]: the maximal runs of characters that are not whitespace. *)
Fixpoint split_whitespace_go (s cur : str) : list str :=
  match s with
  | [] => if truthy cur then [rev cur] else []
  | c :: s' =>
      if isspace c
      then (if truthy cur then rev cur :: split_whitespace_go s' []
            else split_whitespace_go s' [])
      else split_whitespace_go s' (c :: cur)
  end.

Definition split_whitespace (s : str) : list str := split_whitespace_go s [].

(** [str(n)] for an integer. *)
Definition str_of_int (n : Z) : str :=
  list_ascii_of_string (NilZero.string_of_int (Z.to_int n)).

(** [format(n, '03d')]: at least three characters, the sign first, zeros
    after it. *)
Definition format_03d (n : Z) : str :=
  if (n <? 0)%Z
  then let s := str_of_int (- n) in
       "-"%char :: repeat "0"%char (2 - length s) ++ s
  else let s := str_of_int n in repeat "0"%char (3 - length s) ++ s.

(** [float(n)] for an integer below [2^63], as every length and count
    here is; the conversion is exact below [2^53]. *)
Definition float_of_int (n : Z) : float := PrimFloat.of_uint63 (Uint63.of_Z n).

(** [a / b] on two integers: Python's true division.  Correctly rounded,
    like the quotient of the two floats, when both are below [2^53]. *)
Definition true_div (a b : Z) : float :=
  PrimFloat.div (float_of_int a) (float_of_int b).

(** [min(a, x)] returns its first argument unless the second is smaller. *)
Definition float_min (a x : float) : float :=
  if PrimFloat.ltb x a then x else a.

End Py.

Import Py.

(** ** [agents/chunker.py] *)

Module Chunker.

(** [ChunkerAgent.__init__]: the two attributes of the agent. *)
Record ChunkerAgent : Type := mkChunkerAgent {
  chunk_size : Z;
  overlap : Z
}.

(** The constructor's defaults. *)
Definition default_agent : ChunkerAgent := mkChunkerAgent 30000 200.

(** One dictionary of the list [chunk_document] returns. *)
Record Chunk : Type := mkChunk {
  chunk_id : Z;
  content : str;
  doc_type : str;
  char_count : Z;
  estimated_tokens : Z
}.

Definition break_points : list str :=
  [L ". "; [ "."%char; nl ]; [ "!"%char; nl ]; [ "?"%char; nl ]; [ nl; nl ]].

(** The [for point in break_points] loop of [_split_large_section]: the
    first terminator whose right-most occurrence lies in the last 200
    characters of the window decides the cut, otherwise [best_break] keeps
    its initial value [end]. *)
Fixpoint find_break (points : list str) (chunk : str) (start end_ : Z) : Z :=
  match points with
  | [] => end_
  | point :: rest =>
      let last_occurrence := rfind chunk point in
      if (last_occurrence >? len chunk - 200)%Z
      then (start + last_occurrence + len point)%Z
      else find_break rest chunk start end_
  end.

(** The [while start < len(section)] loop of [_split_large_section], from
    the value [start] has at the top of an iteration; the result lists the
    chunks appended from there on.  [fuel] bounds the number of iterations:
    [None] means the loop has not finished within the bound. *)
Fixpoint split_loop (self : ChunkerAgent) (fuel : nat) (section : str)
    (start : Z) : option (list str) :=
  if negb (start <? len section)%Z then Some []
  else
    match fuel with
    | O => None
    | S fuel' =>
        let end_ := (start + chunk_size self)%Z in
        if (end_ >=? len section)%Z then Some [slice_from section start]
        else
          let chunk := slice section start end_ in
          let best_break := find_break break_points chunk start end_ in
          option_map (cons (slice section start best_break))
            (split_loop self fuel' section (best_break - overlap self)%Z)
    end.

(** [_split_large_section].  When [0 <= overlap <= chunk_size - 200] every
    iteration moves [start] forward, so [length section + 1] iterations are
    enough ([split_large_section_returns] below). *)
Definition _split_large_section (self : ChunkerAgent) (section : str)
    : option (list str) :=
  split_loop self (S (length section)) section 0.

Definition section_markers : list str :=
  [ [nl; nl; nl];
    nl :: L "Section ";
    nl :: L "Article ";
    nl :: L "Chapter ";
    nl :: L "### ";
    nl :: L "## ";
    nl :: L "# " ].

(** The body of [for i, part in enumerate(parts)]: the marker, without its
    leading newlines, goes back in front of every part but the first, and a
    part that strips to nothing is dropped. *)
Definition reattach_marker (marker : str) (ip : Z * str) : list str :=
  let (i, part) := ip in
  let part :=
    if (i >? 0)%Z then lstrip_chars [nl] marker ++ part else part in
  if truthy (strip part) then [part] else [].

(** The body of [for section in sections] for one marker. *)
Definition split_on_marker (marker section : str) : list str :=
  if contains section marker
  then flat_map (reattach_marker marker) (enumerate (split section marker))
  else [section].

(** The [for marker in section_markers] loop: [sections] after it. *)
Definition split_sections (content : str) : list str :=
  fold_left
    (fun sections marker => flat_map (split_on_marker marker) sections)
    section_markers [content].

(** The body of the [for section in sections] loop that fills
    [final_chunks]: what one section contributes. *)
Definition section_pieces (self : ChunkerAgent) (section : str)
    : option (list str) :=
  if (len section <=? chunk_size self)%Z then Some [section]
  else _split_large_section self section.

Fixpoint enforce_size (self : ChunkerAgent) (sections : list str)
    : option (list str) :=
  match sections with
  | [] => Some []
  | section :: rest =>
      match section_pieces self section, enforce_size self rest with
      | Some pieces, Some final_chunks => Some (pieces ++ final_chunks)
      | _, _ => None
      end
  end.

Definition intelligent_chunk (self : ChunkerAgent) (content : str)
    : option (list str) :=
  enforce_size self (split_sections content).

Definition _smart_chunk (self : ChunkerAgent) (content : str)
    : option (list str) :=
  intelligent_chunk self content.

(** The body of [for i, chunk in enumerate(chunks)] in [chunk_document]. *)
Definition result_entry (doc_type : str) (ic : Z * str) : list Chunk :=
  let (i, chunk) := ic in
  if truthy (strip chunk)
  then [ {| chunk_id := (i + 1)%Z;
            content := strip chunk;
            doc_type := doc_type;
            char_count := len chunk;
            estimated_tokens := (len chunk / 4)%Z |} ]
  else [].

Definition build_result (doc_type : str) (chunks : list str) : list Chunk :=
  flat_map (result_entry doc_type) (enumerate chunks).

(** [chunk_document].  No operation of its body raises on a [str], so the
    [except Exception] handler (which returns the empty list) has nothing to
    catch as long as the splitter's loop ends; [None] is that loop not
    finishing (the program then runs until memory is exhausted, which the
    handler catches). *)
Definition chunk_document (self : ChunkerAgent) (content : str)
    (doc_type : str) : option (list Chunk) :=
  if negb (truthy content) || (len (strip content) <? 10)%Z then Some []
  else
    let content := strip content in
    match _smart_chunk self content with
    | None => None
    | Some chunks => Some (build_result doc_type chunks)
    end.

End Chunker.

(** ** The regular expressions of [_assess_content_quality], written out *)

Module Re.

(** [\w] on a code point below 256: [str.isalnum] or the underscore. *)
Definition is_word (c : ascii) : bool := isalnum c || Ascii.eqb c "_"%char.

(** [[^\w\s.,!?;:-]]: one character outside the class. *)
Definition is_special (c : ascii) : bool :=
  negb (is_word c || isspace c
        || existsb (Ascii.eqb c) (L ".,!?;:-")).

(** [re.findall(r'[^\w\s.,!?;:-]', content)]. *)
Definition findall_special (content : str) : list ascii :=
  filter is_special content.

(** A literal matched at the head of [s] under [re.IGNORECASE]; the result
    is what follows the match. *)
Fixpoint match_literal (literal s : str) : option str :=
  match literal, s with
  | [], _ => Some s
  | _ :: _, [] => None
  | a :: literal', c :: s' =>
      if Ascii.eqb (lower_char c) (lower_char a)
      then match_literal literal' s' else None
  end.

(** [\bkeyword\b] matched at the head of [s], for a keyword that begins and
    ends with a letter (all of them do): the character before is not a
    word character, nor is the character after. *)
Definition match_word (keyword s : str) (after_word : bool) : bool :=
  negb after_word
  && match match_literal keyword s with
     | Some [] => true
     | Some (c :: _) => negb (is_word c)
     | None => false
     end.

(** The number of matches [re.findall(rf'\b{keyword}\b', content,
    re.IGNORECASE)] returns: a scan from the left, a match is passed over
    before the next one is looked for.  [after_word] tells whether the
    previous character is a word character, [skip] counts the characters of
    a match still to be passed. *)
Fixpoint count_word_go (keyword s : str) (after_word : bool) (skip : nat)
    : Z :=
  match s with
  | [] => 0
  | c :: s' =>
      match skip with
      | S k => count_word_go keyword s' (is_word c) k
      | O =>
          if match_word keyword s after_word
          then (1 + count_word_go keyword s' (is_word c)
                      (length keyword - 1))%Z
          else count_word_go keyword s' (is_word c) 0
      end
  end.

Definition count_word (keyword content : str) : Z :=
  count_word_go keyword content false 0.

Definition is_terminator (c : ascii) : bool :=
  existsb (Ascii.eqb c) (L ".!?").

(** [re.split(r'[.!?]+', content)]: the parts between the maximal runs of
    terminators, the empty parts at the two ends included. *)
Fixpoint split_terminators_go (s cur : str) (in_run : bool) : list str :=
  match s with
  | [] => [rev cur]
  | c :: s' =>
      if is_terminator c
      then (if in_run then split_terminators_go s' [] true
            else rev cur :: split_terminators_go s' [] true)
      else split_terminators_go s' (c :: cur) false
  end.

Definition split_terminators (content : str) : list str :=
  split_terminators_go content [] false.

End Re.

(** ** [agents/requirement_extractor.py] *)

Module Extractor.

Import Re.

(** A Python value, as [json.loads] produces it and as a record holds it. *)
#[warnings="-register-all"]
Inductive value : Type :=
| VNone
| VBool (b : bool)
| VInt (n : Z)
| VFloat (literal : str)
| VStr (s : str)
| VList (items : list value)
| VDict (items : list (str * value)).

(** [type(v).__name__]. *)
Definition type_name (v : value) : str :=
  match v with
  | VNone => L "NoneType"
  | VBool _ => L "bool"
  | VInt _ => L "int"
  | VFloat _ => L "float"
  | VStr _ => L "str"
  | VList _ => L "list"
  | VDict _ => L "dict"
  end.

(** The exceptions the code tells apart: [json.JSONDecodeError], the
    [AttributeError] of a method call on a value that has no such method,
    and any other [Exception]; each with its message, [str(e)]. *)
Inductive exn : Type :=
| JSONDecodeError (msg : str)
| AttributeError (msg : str)
| OtherException (msg : str).

Definition str_of_exn (e : exn) : str :=
  match e with
  | JSONDecodeError msg | AttributeError msg | OtherException msg => msg
  end.

(** A computation that returns or raises. *)
Inductive result (A : Type) : Type :=
| Ok (a : A)
| Raise (e : exn).

Arguments Ok {A} a.
Arguments Raise {A} e.

Inductive flag : Type := IGNORECASE | MULTILINE | DOTALL.

(** What the class calls from outside the repository.

    - [llm_invoke n system human]: [self.llm.invoke] on the two messages,
      as the call that [n] calls have come before; it returns
      [response.content] or raises.
    - [split_text]: [self.text_splitter.split_text], LangChain's
      [RecursiveCharacterTextSplitter(chunk_size=3000, chunk_overlap=200)].
    - [re_sub pattern repl flags s]: [re.sub(pattern, repl, s, flags)].
    - [re_findall pattern flags s]: [re.findall(pattern, s, flags)], the
      whole matches, or group 1 when the pattern has a group.
    - [re_finditer pattern flags s]: [match.group(1)] for every match of
      [re.finditer(pattern, s, flags)].
    - [json_loads]: [json.loads], which raises [JSONDecodeError].
    - [md5_hexdigest s]: [hashlib.md5(s.encode()).hexdigest()].
    - [set_list l]: [list(keywords)] for the set that received the
      elements of [l] in this order (Python fixes no iteration order). *)
Class Externals : Type := {
  llm_invoke : nat -> str -> str -> result str;
  split_text : str -> list str;
  re_sub : str -> str -> list flag -> str -> str;
  re_findall : str -> list flag -> str -> list str;
  re_finditer : str -> list flag -> str -> list str;
  json_loads : str -> result value;
  md5_hexdigest : str -> str;
  set_list : list str -> list str
}.

(** A chunk id: the integer [chunk_document] numbers a chunk with, or the
    string a sub-chunk gets. *)
Inductive chunk_ref : Type :=
| IdInt (n : Z)
| IdStr (s : str).

(** [f'{chunk_id}']. *)
Definition format_id (c : chunk_ref) : str :=
  match c with
  | IdInt n => str_of_int n
  | IdStr s => s
  end.

(** The dictionary [extract_requirements] receives; a key may be absent. *)
Record ChunkDict : Type := mkChunkDict {
  chunk_content : option str;
  chunk_chunk_id : option chunk_ref
}.

(** [chunk.get('content', '')] and [chunk.get('chunk_id', 'unknown')]. *)
Definition get_content (chunk : ChunkDict) : str :=
  match chunk_content chunk with Some s => s | None => [] end.

Definition get_chunk_id (chunk : ChunkDict) : chunk_ref :=
  match chunk_chunk_id chunk with Some c => c | None => IdStr (L "unknown") end.

(** A requirement record: the keys of the dictionary; [None] is an absent
    key. *)
Record Requirement : Type := mkRequirement {
  req_id : value;
  requirement : str;
  category : value;
  priority : value;
  reference : value;
  keywords : value;
  requirement_type : option value;
  deadline : option value;
  applies_to : option value;
  chunk_id : chunk_ref;
  extraction_method : str;
  content_hash : option str;
  error : option str;
  requires_manual_review : option bool;
  parent_chunk_id : option chunk_ref;
  sub_chunk_index : option Z
}.

(** [d.get(key)] and [d[key] = v] on the items of a dictionary. *)
Fixpoint dict_get (d : list (str * value)) (key : str) : option value :=
  match d with
  | [] => None
  | (k, v) :: d' => if str_eqb k key then Some v else dict_get d' key
  end.

Fixpoint dict_set (d : list (str * value)) (key : str) (v : value)
    : list (str * value) :=
  match d with
  | [] => [(key, v)]
  | (k, w) :: d' =>
      if str_eqb k key then (k, v) :: d' else (k, w) :: dict_set d' key v
  end.

Definition get_default (d : list (str * value)) (key : str) (default : value)
    : value :=
  match dict_get d key with Some v => v | None => default end.

(** The quality assessment [_assess_content_quality] returns. *)
Record Quality : Type := mkQuality {
  word_count : Z;
  regulatory_indicators : Z;
  coherent_sentences : Z;
  quality_score : float;
  needs_splitting : bool;
  likely_corrupted : bool
}.

(** [self.regulatory_keywords], category by category. *)
Definition regulatory_keywords : list (str * list str) :=
  [ (L "mandatory",
     [L "must"; L "shall"; L "required"; L "mandatory"; L "obligated";
      L "necessary"]);
    (L "prohibitive",
     [L "prohibited"; L "forbidden"; L "not permitted"; L "shall not";
      L "must not"]);
    (L "conditional",
     [L "should"; L "may"; L "could"; L "recommended"; L "advisable"]);
    (L "temporal",
     [L "immediately"; L "within"; L "by"; L "before"; L "after";
      L "during"]);
    (L "quantitative",
     [L "minimum"; L "maximum"; L "at least"; L "no more than"; L "exceeds";
      L "below"]) ].

Definition sum (l : list Z) : Z := fold_left Z.add l 0%Z.

(** [special_char_ratio] and [avg_word_length] of
    [_assess_content_quality]. *)
Definition special_char_ratio (content : str) : float :=
  true_div (Z.of_nat (length (findall_special content)))
           (Z.max (len content) 1).

Definition avg_word_length (content : str) : float :=
  let words := split_whitespace content in
  true_div (sum (map len words)) (Z.max (Z.of_nat (length words)) 1).

Definition regulatory_count (content : str) : Z :=
  sum (map (fun keyword => count_word keyword content)
           (flat_map snd regulatory_keywords)).

Definition coherent_sentence_count (content : str) : Z :=
  Z.of_nat
    (length (filter (fun s => (3 <? Z.of_nat (length (split_whitespace s)))%Z)
                    (split_terminators content))).

Definition _assess_content_quality (content : str) : Quality :=
  let words := split_whitespace content in
  let word_count := Z.of_nat (length words) in
  let avg_word_length := avg_word_length content in
  let regulatory_count := regulatory_count content in
  let coherent_sentences := coherent_sentence_count content in
  let special_char_ratio := special_char_ratio content in
  let quality_score :=
    float_min 100
      (PrimFloat.sub
         (float_of_int
            (regulatory_count * 10 + coherent_sentences * 5
             + (if (50 <? word_count)%Z && (word_count <? 1000)%Z
                then 50 else 20)
             + (if PrimFloat.ltb 3 avg_word_length then 20 else 10)))
         (PrimFloat.mul special_char_ratio 100)) in
  {| word_count := word_count;
     regulatory_indicators := regulatory_count;
     coherent_sentences := coherent_sentences;
     quality_score := quality_score;
     needs_splitting := (2500 <? word_count)%Z;
     likely_corrupted :=
       PrimFloat.ltb 0x1.3333333333333p-2 special_char_ratio
       || PrimFloat.ltb quality_score 20 |}.

Section WithExternals.

Context {ext : Externals}.

(** [self.noise_patterns]. *)
Definition noise_patterns : list str :=
  [ L "\b(page \d+|pg\. \d+)\b";
    L "\b\d{1,2}[/-]\d{1,2}[/-]\d{2,4}\b";
    L "^\s*[\d\.\-\(\)]+\s*$";
    L "\b(figure|table|chart|appendix)\s+\d+\b";
    L "\s{3,}";
    L "_{3,}" ].

Definition _preprocess_content (content : str) : str :=
  if negb (truthy (strip content)) then content
  else
    let content :=
      fold_left
        (fun content pattern => re_sub pattern (L " ") [IGNORECASE] content)
        noise_patterns content in
    let content := re_sub (L "\s+") (L " ") [] content in
    let content := re_sub (L "([a-z])([A-Z])") (L "\1 \2") [] content in
    let content := re_sub (L "(\d)([A-Za-z])") (L "\1 \2") [] content in
    let content := re_sub (L "([A-Za-z])(\d)") (L "\1 \2") [] content in
    let content := re_sub (L "\.(?=[A-Z])") (L ". ") [] content in
    strip content.

(** [_get_enhanced_system_prompt]: the text, line by line. *)
Definition _get_enhanced_system_prompt : str :=
  join [nl]
  [ (L "You are an expert regulatory compliance analyst "
     ++ L "specializing in financial regulations. ");
    [];
    (L "Your task is to extract specific, actionable compliance "
     ++ L "requirements from regulatory documents. ");
    [];
    L "EXPERTISE AREAS:";
    L "- Banking regulations (Basel III, CRD IV, etc.)";
    L "- Risk management frameworks";
    L "- Capital adequacy requirements";
    L "- Reporting and disclosure obligations";
    L "- Governance and operational requirements";
    [];
    L "EXTRACTION PRINCIPLES:";
    (L "1. Focus ONLY on explicit obligations (must, shall, "
     ++ L "required, etc.)");
    (L "2. Distinguish between mandatory requirements and "
     ++ L "recommendations");
    L "3. Preserve exact regulatory language when possible";
    (L "4. Identify specific compliance actions, not general "
     ++ L "descriptions");
    (L "5. Extract quantitative thresholds, deadlines, and specific "
     ++ L "criteria");
    [];
    (L "Always respond with valid JSON only. Be precise and "
     ++ L "comprehensive.") ].

(** The template of [_create_enhanced_extraction_prompt] between the
    focus sentence and the content. *)
Definition prompt_before_content : str :=
  join [nl]
  [ [];
    [];
    L "REGULATORY TEXT:";
    [] ].

(** The template between the content and the chunk id. *)
Definition prompt_before_chunk_id : str :=
  join [nl]
  [ [];
    [];
    L "EXTRACTION TASK:";
    (L "Extract all specific compliance requirements that financial "
     ++ L "institutions must follow.");
    [];
    L "MANDATORY INDICATORS TO LOOK FOR:";
    (L "- " ++ q ++ L "must" ++ q ++ L ", " ++ q ++ L "shall" ++ q ++ L ", "
     ++ q ++ L "required to" ++ q ++ L ", " ++ q ++ L "obligated to" ++ q
     ++ L ", " ++ q ++ L "mandatory" ++ q);
    (L "- " ++ q ++ L "prohibited from" ++ q ++ L ", " ++ q ++ L "shall not"
     ++ q ++ L ", " ++ q ++ L "must not" ++ q ++ L ", " ++ q
     ++ L "forbidden" ++ q);
    (L "- Specific deadlines, thresholds, or quantitative "
     ++ L "requirements");
    L "- Reporting obligations and submission requirements";
    L "- Risk management and control requirements";
    [];
    L "JSON RESPONSE FORMAT:";
    L "{";
    (L "    " ++ q ++ L "chunk_id" ++ q ++ L ": " ++ q) ].

(** The template after the chunk id. *)
Definition prompt_after_chunk_id : str :=
  join [nl]
  [ (q ++ L ",");
    (L "    " ++ q ++ L "requirements" ++ q ++ L ": [");
    L "        {";
    (L "            " ++ q ++ L "id" ++ q ++ L ": " ++ q ++ L "REQ001" ++ q
     ++ L ",");
    (L "            " ++ q ++ L "requirement" ++ q ++ L ": " ++ q
     ++ L "Complete exact requirement text with all details" ++ q ++ L ",");
    (L "            " ++ q ++ L "category" ++ q ++ L ": " ++ q
     ++ L "risk_management|capital_adequacy|reporting|governance|operat"
     ++ L "ional|liquidity|credit_risk|market_risk|compliance" ++ q ++ L ",");
    (L "            " ++ q ++ L "priority" ++ q ++ L ": " ++ q
     ++ L "high|medium|low" ++ q ++ L ",");
    (L "            " ++ q ++ L "reference" ++ q ++ L ": " ++ q
     ++ L "Specific section/paragraph/article reference" ++ q ++ L ",");
    (L "            " ++ q ++ L "keywords" ++ q ++ L ": [" ++ q
     ++ L "relevant" ++ q ++ L ", " ++ q ++ L "keywords" ++ q ++ L ", " ++ q
     ++ L "extracted" ++ q ++ L "],");
    (L "            " ++ q ++ L "requirement_type" ++ q ++ L ": " ++ q
     ++ L "mandatory|prohibitive|conditional|quantitative|procedural" ++ q
     ++ L ",");
    (L "            " ++ q ++ L "deadline" ++ q ++ L ": " ++ q
     ++ L "If any deadline mentioned" ++ q ++ L ",");
    (L "            " ++ q ++ L "applies_to" ++ q ++ L ": " ++ q
     ++ L "Who this requirement applies to" ++ q);
    L "        }";
    L "    ]";
    L "}";
    [];
    L "CRITICAL INSTRUCTIONS:";
    L "- Respond with ONLY the JSON object";
    L "- No markdown, no explanations, no additional text";
    L "- Include ALL explicit requirements found";
    L "- If no requirements found, return empty requirements array";
    L "- Ensure all JSON is properly escaped and formatted";
    [] ].

Definition _create_enhanced_extraction_prompt (content : str)
    (chunk_id : chunk_ref) (quality_assessment : Quality) : str :=
  let extraction_focus :=
    if (regulatory_indicators quality_assessment >? 10)%Z then
      L "This appears to be regulatory-dense content. "
      ++ L "Pay special attention to compliance obligations."
    else if (word_count quality_assessment <? 100)%Z then
      L "This is a short text segment. "
      ++ L "Extract any explicit requirements, even brief ones."
    else
      L "Analyze this content thoroughly for any compliance requirements." in
  [nl] ++ extraction_focus ++ prompt_before_content ++ content
  ++ prompt_before_chunk_id ++ format_id chunk_id ++ prompt_after_chunk_id.

Definition _clean_json_response (response_text : str) : str :=
  let cleaned :=
    re_sub (L "```(?:json)?\s*|\s*```") [] [] (strip response_text) in
  let first_brace := find cleaned (L "{") in
  let cleaned :=
    if (first_brace >? 0)%Z then slice_from cleaned first_brace
    else cleaned in
  let last_brace := rfind cleaned (L "}") in
  let cleaned :=
    if (last_brace >? 0)%Z then slice cleaned 0 (last_brace + 1)
    else cleaned in
  let cleaned := re_sub (L ",(\s*[}\]])") (L "\1") [] cleaned in
  let cleaned :=
    re_sub (L "([" ++ q ++ L "\'])\s*\n\s*([" ++ q ++ L "\'])")
           (L "\1 \2") [] cleaned in
  cleaned.

(** The body of the loop of [_validate_enhanced_requirements] for the
    entry [req] at index [i]: nothing, a record, or the [AttributeError] of
    [.strip()] on a ['requirement'] that is not a string. *)
Definition validate_one (chunk_id : chunk_ref) (i : Z) (req : value)
    : result (list Requirement) :=
  match req with
  | VDict d =>
      match get_default d (L "requirement") (VStr []) with
      | VStr text =>
          let requirement_text := strip text in
          if negb (truthy requirement_text) || (len requirement_text <? 10)%Z
          then Ok []
          else
            Ok [ {| req_id :=
                      get_default d (L "id")
                        (VStr (format_id chunk_id ++ L "_REQ"
                               ++ format_03d (i + 1)));
                    requirement := requirement_text;
                    category :=
                      get_default d (L "category") (VStr (L "general"));
                    priority :=
                      get_default d (L "priority") (VStr (L "medium"));
                    reference :=
                      get_default d (L "reference")
                        (VStr (L "Chunk " ++ format_id chunk_id));
                    keywords := get_default d (L "keywords") (VList []);
                    requirement_type :=
                      Some (get_default d (L "requirement_type")
                              (VStr (L "mandatory")));
                    deadline := Some (get_default d (L "deadline") (VStr []));
                    applies_to :=
                      Some (get_default d (L "applies_to") (VStr []));
                    chunk_id := chunk_id;
                    extraction_method := L "enhanced_llm";
                    content_hash :=
                      Some (slice (md5_hexdigest requirement_text) 0 8);
                    error := None;
                    requires_manual_review := None;
                    parent_chunk_id := None;
                    sub_chunk_index := None |} ]
      | v =>
          Raise (AttributeError
                   (L "'" ++ type_name v
                    ++ L "' object has no attribute 'strip'"))
      end
  | _ => Ok []
  end.

Fixpoint validate_loop (chunk_id : chunk_ref) (reqs : list (Z * value))
    : result (list Requirement) :=
  match reqs with
  | [] => Ok []
  | (i, req) :: rest =>
      match validate_one chunk_id i req with
      | Raise e => Raise e
      | Ok one =>
          match validate_loop chunk_id rest with
          | Raise e => Raise e
          | Ok validated => Ok (one ++ validated)
          end
      end
  end.

Definition _validate_enhanced_requirements (requirements : list value)
    (chunk_id : chunk_ref) : result (list Requirement) :=
  validate_loop chunk_id (enumerate requirements).

Definition _classify_requirement_category (text : str) : str :=
  let text_lower := lower text in
  let category_keywords :=
    [ (L "capital_adequacy",
       [L "capital"; L "tier 1"; L "tier 2"; L "capital ratio"; L "adequacy";
        L "buffer"]);
      (L "risk_management",
       [L "risk"; L "risk management"; L "risk assessment"; L "risk control";
        L "exposure"]);
      (L "reporting",
       [L "report"; L "reporting"; L "disclosure"; L "submit"; L "filing";
        L "notification"]);
      (L "liquidity",
       [L "liquidity"; L "liquid assets"; L "funding"; L "cash";
        L "liquidity ratio"]);
      (L "governance",
       [L "governance"; L "board"; L "management"; L "oversight";
        L "supervision"]);
      (L "operational",
       [L "operational"; L "procedures"; L "controls"; L "processes";
        L "systems"]);
      (L "credit_risk",
       [L "credit risk"; L "lending"; L "loan"; L "default";
        L "credit assessment"]);
      (L "market_risk",
       [L "market risk"; L "trading"; L "market exposure"; L "position"]);
      (L "compliance",
       [L "compliance"; L "regulatory"; L "regulation"; L "authorized";
        L "license"]) ] in
  match
    List.find (fun entry => existsb (contains text_lower) (snd entry))
              category_keywords
  with
  | Some entry => fst entry
  | None => L "general"
  end.

Definition _extract_enhanced_keywords (text : str) : list str :=
  let text_lower := lower text in
  let action_keywords :=
    [L "assess"; L "monitor"; L "report"; L "maintain"; L "establish";
     L "ensure"; L "implement"; L "comply"] in
  let financial_terms :=
    [L "capital"; L "risk"; L "liquidity"; L "exposure"; L "ratio";
     L "threshold"; L "limit"; L "buffer"] in
  let entities :=
    [L "bank"; L "institution"; L "entity"; L "firm"; L "organization"] in
  let time_patterns :=
    re_findall
      (L "\b(annual|quarterly|monthly|daily|immediate|within \d+)\b") []
      text_lower in
  let keywords :=
    filter (contains text_lower) action_keywords
    ++ filter (contains text_lower) financial_terms
    ++ filter (contains text_lower) entities
    ++ time_patterns in
  firstn 10 (set_list keywords).

(** The requirement patterns of [_extract_fallback_requirements]. *)
Definition aggressive_patterns : list str :=
  [ L "([^.]*(?:must|shall|required to|obligated to|mandatory)[^.]*\.)";
    L "([^.]*(?:prohibited|forbidden|not permitted|shall not|must not)"
    ++ L "[^.]*\.)";
    L "([^.]*(?:minimum|maximum|at least|no more than)[^.]*\.)";
    L "([^.]*(?:within \d+|by [A-Za-z]+ \d+|before [A-Za-z]+)[^.]*\.)" ].

Definition standard_patterns : list str :=
  [ L "((?:Banks|Institutions|Entities)[^.]*(?:must|shall|required)[^.]*\.)";
    L "((?:The|A|An)[^.]*(?:requirement|obligation)[^.]*\.)";
    L "([^.]*(?:compliance with|adherence to)[^.]*\.)" ].

(** The body of [for match in matches] for one [match.group(1)]; [acc] is
    [requirements] and the next [req_id]. *)
Definition fallback_match (chunk_id : chunk_ref)
    (acc : list Requirement * Z) (group1 : str) : list Requirement * Z :=
  let (requirements, next_id) := acc in
  let requirement_text := strip group1 in
  if (len requirement_text >? 20)%Z && (len requirement_text <? 500)%Z then
    let priority :=
      if existsb (contains (lower requirement_text))
                 [L "must"; L "shall"; L "mandatory"; L "required"]
      then L "high" else L "medium" in
    let category := _classify_requirement_category requirement_text in
    (requirements ++
       [ {| req_id :=
              VStr (format_id chunk_id ++ L "_FALLBACK" ++ format_03d next_id);
            requirement := requirement_text;
            category := VStr category;
            priority := VStr priority;
            reference := VStr (L "Chunk " ++ format_id chunk_id);
            keywords :=
              VList (map VStr (_extract_enhanced_keywords requirement_text));
            requirement_type := None;
            deadline := None;
            applies_to := None;
            chunk_id := chunk_id;
            extraction_method := L "enhanced_fallback";
            content_hash := Some (slice (md5_hexdigest requirement_text) 0 8);
            error := None;
            requires_manual_review := None;
            parent_chunk_id := None;
            sub_chunk_index := None |} ],
     (next_id + 1)%Z)
  else acc.

(** The [for pattern in requirement_patterns] loop: the records of every
    pattern's matches. *)
Definition fallback_scan (patterns : list str) (response_text : str)
    (chunk_id : chunk_ref) : list Requirement :=
  fst (fold_left
         (fun acc pattern =>
            fold_left (fallback_match chunk_id)
              (re_finditer pattern [IGNORECASE; MULTILINE; DOTALL]
                 response_text)
              acc)
         patterns ([], 1%Z)).

(** The record of the last resort. *)
Definition summary_record (response_text : str) (chunk_id : chunk_ref)
    : Requirement :=
  let content_summary :=
    if (len response_text >? 300)%Z
    then slice response_text 0 300 ++ L "..."
    else response_text in
  {| req_id := VStr (format_id chunk_id ++ L "_SUMMARY001");
     requirement :=
       L "Manual review required - potential regulatory content: "
       ++ content_summary;
     category := VStr (L "review_required");
     priority := VStr (L "low");
     reference := VStr (L "Chunk " ++ format_id chunk_id);
     keywords := VList [VStr (L "manual_review")];
     requirement_type := None;
     deadline := None;
     applies_to := None;
     chunk_id := chunk_id;
     extraction_method := L "summary_fallback";
     content_hash := None;
     error := None;
     requires_manual_review := None;
     parent_chunk_id := None;
     sub_chunk_index := None |}.

(** The body of [_extract_fallback_requirements]; [retry] is what its call
    of itself with [aggressive=True] returns. *)
Definition fallback_body (aggressive : bool) (retry : list Requirement)
    (response_text : str) (chunk_id : chunk_ref) : list Requirement :=
  let requirement_patterns :=
    if aggressive then aggressive_patterns else standard_patterns in
  let requirements :=
    fallback_scan requirement_patterns response_text chunk_id in
  match requirements with
  | [] =>
      if negb aggressive then retry
      else [summary_record response_text chunk_id]
  | _ :: _ => requirements
  end.

(** [_extract_fallback_requirements].  It calls itself only when
    [aggressive] is false, and then with [aggressive=True], so one nested
    call is all there is. *)
Definition _extract_fallback_requirements (response_text : str)
    (chunk_id : chunk_ref) (aggressive : bool) : list Requirement :=
  fallback_body aggressive
    (fallback_body true [] response_text chunk_id)
    response_text chunk_id.

(** The [for i, match in enumerate(json_matches)] loop of
    [_alternative_json_parsing]; a match that does not parse is passed
    over. *)
Definition alternative_candidates (chunk_id : chunk_ref)
    (json_matches : list str) : list value :=
  flat_map
    (fun im : Z * str =>
       let (i, match_) := im in
       match json_loads match_ with
       | Ok (VDict req_data) =>
           match dict_get req_data (L "requirement") with
           | Some _ =>
               [ VDict
                   (dict_set req_data (L "id")
                      (get_default req_data (L "id")
                         (VStr (format_id chunk_id ++ L "_ALT"
                                ++ format_03d (i + 1))))) ]
           | None => []
           end
       | _ => []
       end)
    (enumerate json_matches).

Definition _alternative_json_parsing (response_text : str)
    (chunk_id : chunk_ref) : list Requirement :=
  let json_matches :=
    re_findall (L "\{[^{}]*" ++ q ++ L "requirement" ++ q ++ L "[^{}]*\}")
      [DOTALL] response_text in
  let requirements := alternative_candidates chunk_id json_matches in
  match requirements with
  | _ :: _ =>
      match _validate_enhanced_requirements requirements chunk_id with
      | Ok validated => validated
      | Raise _ => _extract_fallback_requirements response_text chunk_id false
      end
  | [] => _extract_fallback_requirements response_text chunk_id false
  end.

Definition _parse_enhanced_json_response (response_text : str)
    (chunk_id : chunk_ref) : result (list Requirement) :=
  match json_loads (_clean_json_response response_text) with
  | Ok parsed_data =>
      match parsed_data with
      | VDict d =>
          match dict_get d (L "requirements") with
          | Some (VList requirements) =>
              _validate_enhanced_requirements requirements chunk_id
          | _ => Ok (_alternative_json_parsing response_text chunk_id)
          end
      | _ => Ok (_alternative_json_parsing response_text chunk_id)
      end
  | Raise (JSONDecodeError _) =>
      Ok (_alternative_json_parsing response_text chunk_id)
  | Raise e => Raise e
  end.

Definition _create_error_fallback (chunk : ChunkDict) (error_msg : str)
    : list Requirement :=
  let chunk_id := get_chunk_id chunk in
  [ {| req_id := VStr (format_id chunk_id ++ L "_ERROR001");
       requirement :=
         L "EXTRACTION ERROR - Manual review required: " ++ error_msg
         ++ L ". Content preview: " ++ slice (get_content chunk) 0 200
         ++ L "...";
       category := VStr (L "error");
       priority := VStr (L "high");
       reference := VStr (L "Chunk " ++ format_id chunk_id);
       keywords :=
         VList [VStr (L "manual_review"); VStr (L "extraction_error");
                VStr (L "system_failure")];
       requirement_type := None;
       deadline := None;
       applies_to := None;
       chunk_id := chunk_id;
       extraction_method := L "error_fallback";
       content_hash := None;
       error := Some error_msg;
       requires_manual_review := Some true;
       parent_chunk_id := None;
       sub_chunk_index := None |} ].

(** The [for attempt in range(2)] loop of [extract_requirements], from the
    attempts still to make; [calls] counts the calls of the model so far.
    The result is what the loop returns or raises, ([Ok []] when it runs
    out), and the new count. *)
Fixpoint attempt_loop (attempts : list Z) (prompt : str)
    (chunk_id : chunk_ref) (calls : nat) : result (list Requirement) * nat :=
  match attempts with
  | [] => (Ok [], calls)
  | attempt :: rest =>
      match llm_invoke calls _get_enhanced_system_prompt prompt with
      | Ok response_content =>
          let response_text := strip response_content in
          match _parse_enhanced_json_response response_text chunk_id with
          | Ok requirements =>
              match requirements with
              | _ :: _ => (Ok requirements, S calls)
              | [] =>
                  if (attempt =? 1)%Z then (Ok requirements, S calls)
                  else attempt_loop rest prompt chunk_id (S calls)
              end
          | Raise e =>
              if (attempt =? 1)%Z then (Raise e, S calls)
              else attempt_loop rest prompt chunk_id (S calls)
          end
      | Raise e =>
          if (attempt =? 1)%Z then (Raise e, S calls)
          else attempt_loop rest prompt chunk_id (S calls)
      end
  end.

(** [req['parent_chunk_id'] = chunk_id; req['sub_chunk_index'] = i + 1]. *)
Definition tag_parent (parent : chunk_ref) (index : Z) (req : Requirement)
    : Requirement :=
  {| req_id := req_id req;
     requirement := requirement req;
     category := category req;
     priority := priority req;
     reference := reference req;
     keywords := keywords req;
     requirement_type := requirement_type req;
     deadline := deadline req;
     applies_to := applies_to req;
     chunk_id := chunk_id req;
     extraction_method := extraction_method req;
     content_hash := content_hash req;
     error := error req;
     requires_manual_review := requires_manual_review req;
     parent_chunk_id := Some parent;
     sub_chunk_index := Some index |}.

(** The [for i, sub_chunk in enumerate(sub_chunks)] loop of
    [_process_large_chunk], over [extract], the function it calls on every
    sub-chunk. *)
Fixpoint sub_chunk_loop
    (extract : ChunkDict -> nat -> option (list Requirement * nat))
    (chunk_id : chunk_ref) (sub_chunks : list (Z * str)) (calls : nat)
    : option (list Requirement * nat) :=
  match sub_chunks with
  | [] => Some ([], calls)
  | (i, sub_chunk) :: rest =>
      let sub_chunk_id :=
        IdStr (format_id chunk_id ++ L "_SUB" ++ str_of_int (i + 1)) in
      let temp_chunk :=
        {| chunk_content := Some sub_chunk;
           chunk_chunk_id := Some sub_chunk_id |} in
      match extract temp_chunk calls with
      | None => None
      | Some (sub_requirements, calls') =>
          match sub_chunk_loop extract chunk_id rest calls' with
          | None => None
          | Some (all_requirements, calls'') =>
              Some (map (tag_parent chunk_id (i + 1)) sub_requirements
                    ++ all_requirements, calls'')
          end
      end
  end.

(** [_process_large_chunk], over the function it calls on every
    sub-chunk. *)
Definition process_large_chunk_with
    (extract : ChunkDict -> nat -> option (list Requirement * nat))
    (content : str) (chunk_id : chunk_ref) (calls : nat)
    : option (list Requirement * nat) :=
  sub_chunk_loop extract chunk_id (enumerate (split_text content)) calls.

(** [extract_requirements].  [depth] bounds the nesting of its calls of
    itself through [_process_large_chunk]: [None] means a chunk to split
    was met with no depth left (the interpreter's own recursion limit is
    not part of the embedding).  [calls] counts the calls of the model made
    before, the result carries the new count.  What the [try] body raises
    is the exception of the last attempt, which the handler turns into the
    error record; nothing is raised to the caller. *)
Fixpoint extract_requirements (depth : nat) (chunk : ChunkDict) (calls : nat)
    : option (list Requirement * nat) :=
  let content := get_content chunk in
  let chunk_id := get_chunk_id chunk in
  if negb (truthy (strip content)) then Some ([], calls)
  else
    let processed_content := _preprocess_content content in
    let quality_assessment := _assess_content_quality processed_content in
    if likely_corrupted quality_assessment then
      Some (_extract_fallback_requirements processed_content chunk_id true,
            calls)
    else if needs_splitting quality_assessment then
      match depth with
      | O => None
      | S depth' =>
          process_large_chunk_with (extract_requirements depth')
            processed_content chunk_id calls
      end
    else
      let prompt :=
        _create_enhanced_extraction_prompt processed_content chunk_id
          quality_assessment in
      match attempt_loop [0%Z; 1%Z] prompt chunk_id calls with
      | (Ok requirements, calls') => Some (requirements, calls')
      | (Raise e, calls') =>
          Some (_create_error_fallback chunk (str_of_exn e), calls')
      end.

Definition _process_large_chunk (depth : nat) (content : str)
    (chunk_id : chunk_ref) (calls : nat) : option (list Requirement * nat) :=
  process_large_chunk_with (extract_requirements depth) content chunk_id calls.

End WithExternals.

End Extractor.

(** ** Stand-ins for the outside world, for the examples *)

Module Doubles.

Import Extractor.

(** The reply of a model that finds no requirement: an object with an
    empty [requirements] array. *)
Definition empty_reply : str :=
  L "{" ++ q ++ L "requirements" ++ q ++ L ": []}".

(** [json.loads] on that reply; any other text is taken not to be JSON. *)
Definition loads_empty_reply (s : str) : result value :=
  if str_eqb s empty_reply
  then Ok (VDict [(L "requirements", VList [])])
  else Raise (JSONDecodeError (L "Expecting value")).

(** An outside world for texts in which no regular expression of the
    extractor matches ([re.sub] changes nothing, [re.findall] and
    [re.finditer] find nothing), with the model's answers [answer], the
    JSON reader [loads] and the text splitter [splitter]. *)
Definition quiet (answer : nat -> result str) (loads : str -> result value)
    (splitter : str -> list str) : Externals :=
  {| llm_invoke := fun n _ _ => answer n;
     split_text := splitter;
     re_sub := fun _ _ _ s => s;
     re_findall := fun _ _ _ => [];
     re_finditer := fun _ _ _ => [];
     json_loads := loads;
     md5_hexdigest := fun _ => L "d41d8cd98f00b204e9800998ecf8427e";
     set_list := fun l => l |}.

(** A model that always answers with the empty reply. *)
Definition finds_nothing : Externals :=
  quiet (fun _ => Ok empty_reply) loads_empty_reply (fun s => [s]).

(** A model whose every call fails. *)
Definition always_failing : Externals :=
  quiet (fun _ => Raise (OtherException (L "503 Service Unavailable")))
        loads_empty_reply (fun s => [s]).

(** A text splitter that cuts a text of two characters or more in two
    halves. *)
Definition halves (s : str) : list str :=
  if (2 <=? length s)%nat
  then [firstn (length s / 2) s; skipn (length s / 2) s]
  else [].

(** A chunk of one plain sentence. *)
Definition paid_dividends : ChunkDict :=
  {| chunk_content := Some (L "Dividends were paid in March.");
     chunk_chunk_id := Some (IdInt 1) |}.

(** 2501 one-letter words, one space apart. *)
Definition many_words : str := L "a" ++ concat (repeat (L " a") 2500).

End Doubles.

(** ** Notions the properties are stated with *)

Module Notions.

(** The characters of a text that are not whitespace, in order. *)
Definition visible (s : str) : str := filter (fun c => negb (isspace c)) s.

(** The last [n] characters of [s] (all of [s] when it is shorter). *)
Definition trailing (n : Z) (s : str) : str :=
  skipn (length s - Z.to_nat n) s.

(** The first [n] characters of [s]. *)
Definition leading (n : Z) (s : str) : str := firstn (Z.to_nat n) s.

(** The pieces of one section put back together with the overlap regions
    ignored: the first piece whole, then every later piece without its
    first [n] characters. *)
Definition unoverlap (n : Z) (pieces : list str) : str :=
  match pieces with
  | [] => []
  | p :: rest => p ++ concat (map (skipn (Z.to_nat n)) rest)
  end.

(** The pieces of the chunker before they are flattened into
    [final_chunks]: one group per section of the structural split. *)
Fixpoint section_groups (self : Chunker.ChunkerAgent) (sections : list str)
    : option (list (list str)) :=
  match sections with
  | [] => Some []
  | section :: rest =>
      match Chunker.section_pieces self section, section_groups self rest with
      | Some pieces, Some groups => Some (pieces :: groups)
      | _, _ => None
      end
  end.

(** The parameters the splitter is meant for: the overlap is not negative
    and leaves at least 200 characters of a window. *)
Definition well_configured (self : Chunker.ChunkerAgent) : Prop :=
  (0 <= Chunker.overlap self)%Z
  /\ (Chunker.overlap self + 200 <= Chunker.chunk_size self)%Z.

(** A piece within the limit. *)
Definition within_limit (self : Chunker.ChunkerAgent) (p : str) : Prop :=
  (len p <= Chunker.chunk_size self)%Z.

(** Two adjacent pieces share the overlap: the last [overlap] characters of
    the first are the first [overlap] characters of the second, which has
    that many. *)
Definition shares_overlap (self : Chunker.ChunkerAgent) (p q : str) : Prop :=
  trailing (Chunker.overlap self) p = leading (Chunker.overlap self) q
  /\ len (leading (Chunker.overlap self) q) = Chunker.overlap self.

(** The three cases of an iteration of the splitter's loop at a
    non-negative [start]: past the end, the last piece, or a piece cut at a
    break point [b] of the window's last 200 characters. *)
Variant iteration (self : Chunker.ChunkerAgent) (section : str) (fuel : nat)
    (start : Z) : option (list str) -> Prop :=
| it_done :
    (len section <= start)%Z -> iteration self section fuel start (Some [])
| it_last :
    (start < len section <= start + Chunker.chunk_size self)%Z ->
    iteration self section fuel start
      (Some [skipn (Z.to_nat start) section])
| it_step (b : Z) :
    (start + Chunker.chunk_size self < len section)%Z ->
    (start + Chunker.chunk_size self - 200 < b
     <= start + Chunker.chunk_size self)%Z ->
    iteration self section fuel start
      (option_map
         (cons (firstn (Z.to_nat (b - start))
                  (skipn (Z.to_nat start) section)))
         (Chunker.split_loop self fuel section (b - Chunker.overlap self))).

(** Consecutive elements of a list are related by [R]. *)
Fixpoint chain (A : Type) (R : A -> A -> Prop) (l : list A) : Prop :=
  match l with
  | x :: ((y :: _) as rest) => R x y /\ chain R rest
  | _ => True
  end.

(** *** The quality assessment as the specification words it *)

(** A special character, in the words of the specification: outside the
    alphanumerics, whitespace and [.,!?;:-]. *)
Definition special_as_specified (c : ascii) : bool :=
  negb (isalnum c || isspace c || existsb (Ascii.eqb c) (L ".,!?;:-")).

(** The score and the two flags of the specification's formula, for a
    given reading [special] of "special character":
    [min(100, 10 r + 5 c + (50 if 50 < w < 1000 else 20)
              + (20 if avg > 3 else 10) - 100 ratio)],
    [w > 2500], and [ratio > 0.3 or score < 20]. *)
Definition specified_assessment (special : ascii -> bool) (content : str)
    : float * bool * bool :=
  let w := Z.of_nat (length (split_whitespace content)) in
  let r := Extractor.regulatory_count content in
  let c := Extractor.coherent_sentence_count content in
  let avg := Extractor.avg_word_length content in
  let ratio :=
    true_div (Z.of_nat (length (filter special content)))
             (Z.max (len content) 1) in
  let score :=
    float_min 100
      (PrimFloat.sub
         (float_of_int
            (10 * r + 5 * c
             + (if (50 <? w)%Z && (w <? 1000)%Z then 50 else 20)
             + (if PrimFloat.ltb 3 avg then 20 else 10)))
         (PrimFloat.mul ratio 100)) in
  (score,
   (2500 <? w)%Z,
   PrimFloat.ltb 0x1.3333333333333p-2 ratio || PrimFloat.ltb score 20).

(** The same three values of what [_assess_content_quality] returns. *)
Definition assessed (content : str) : float * bool * bool :=
  let a := Extractor._assess_content_quality content in
  (Extractor.quality_score a, Extractor.needs_splitting a,
   Extractor.likely_corrupted a).

(** *** The extractor *)

Section ExtractorNotions.

Context {ext : Extractor.Externals}.


(** The reply is structured JSON, and validation keeps none of its
    candidates: the object with a [requirements] list of the first tier,
    or the fragments with a [requirement] key of the second. *)
Definition structured_but_rejected (response_text : str)
    (chunk_id : Extractor.chunk_ref) : Prop :=
  (exists d requirements,
     Extractor.json_loads (Extractor._clean_json_response response_text)
     = Extractor.Ok (Extractor.VDict d)
     /\ Extractor.dict_get d (L "requirements")
        = Some (Extractor.VList requirements)
     /\ Extractor._validate_enhanced_requirements requirements chunk_id
        = Extractor.Ok [])
  \/ (exists candidate candidates,
        Extractor.alternative_candidates chunk_id
          (Extractor.re_findall
             (L "\{[^{}]*" ++ q ++ L "requirement" ++ q ++ L "[^{}]*\}")
             [Extractor.DOTALL] response_text)
        = candidate :: candidates
        /\ Extractor._validate_enhanced_requirements
             (candidate :: candidates) chunk_id
           = Extractor.Ok []).

(** The chunk is one [extract_requirements] sends to the model: its
    content is not blank and, once preprocessed, is neither flagged
    corrupted nor to be split. *)
Definition sent_to_model (chunk : Extractor.ChunkDict) : Prop :=
  let content := Extractor.get_content chunk in
  let quality :=
    Extractor._assess_content_quality (Extractor._preprocess_content content) in
  truthy (strip content) = true
  /\ Extractor.likely_corrupted quality = false
  /\ Extractor.needs_splitting quality = false.

(** The prompt [extract_requirements] builds for the chunk. *)
Definition prompt_of (chunk : Extractor.ChunkDict) : str :=
  let processed :=
    Extractor._preprocess_content (Extractor.get_content chunk) in
  Extractor._create_enhanced_extraction_prompt processed
    (Extractor.get_chunk_id chunk)
    (Extractor._assess_content_quality processed).

End ExtractorNotions.

End Notions.

Import Notions.

(** ** [workflows/compliance_workflow.py]: from the document to the
    requirements *)

Module Workflow.

(** One dictionary of [self.state.chunks]. *)
Record StateChunk : Type := mkStateChunk {
  chunk_id : Z;
  content : str;
  start_position : Z;
  end_position : Z;
  section_info : str
}.

(** What the workflow does to the file system: [os.path.join], and
    [JsonUtils.save_json], which returns nothing or raises. *)
Class Files : Type := {
  path_join : str -> str -> str;
  save_json : list Extractor.Requirement -> str -> option Extractor.exn
}.

(** [_chunk_document]; [self.chunker] is [ChunkerAgent()], the agent with
    the defaults. *)
Definition _chunk_document (regulatory_document : str)
    : option (list StateChunk) :=
  match
    Chunker.chunk_document Chunker.default_agent regulatory_document
      (L "regulatory")
  with
  | None => None
  | Some raw_chunks =>
      Some
        (map
           (fun chunk_data =>
              {| chunk_id := Chunker.chunk_id chunk_data;
                 content := Chunker.content chunk_data;
                 start_position := 0;
                 end_position := len (Chunker.content chunk_data);
                 section_info :=
                   L "Chunk " ++ str_of_int (Chunker.chunk_id chunk_data)
                   ++ L " of "
                   ++ str_of_int (Z.of_nat (length raw_chunks)) |})
           raw_chunks)
  end.

(** [_create_single_chunk]. *)
Definition _create_single_chunk (regulatory_document : str)
    : list StateChunk :=
  [ {| chunk_id := 1;
       content := regulatory_document;
       start_position := 0;
       end_position := len regulatory_document;
       section_info := L "Complete Document" |} ].

(** Step 3 of [run_workflow], from the assessment's [needs_chunking]. *)
Definition chunks_of (needs_chunking : bool) (regulatory_document : str)
    : option (list StateChunk) :=
  if needs_chunking then _chunk_document regulatory_document
  else Some (_create_single_chunk regulatory_document).

Section WithOutside.

Context {ext : Extractor.Externals} {files : Files}.

Variable output_dir : str.

(** The [for i, chunk in enumerate(self.state.chunks)] loop of
    [_extract_requirements]; [requirements] is [self.state.requirements].
    Both makers of a chunk set its ['chunk_id'], so the default of
    [chunk.get('chunk_id', ...)] is never taken.  The result is [None] when
    the extractor has no depth left, and otherwise the list after the
    loop, or the exception of [save_json], which nothing catches; with the
    count of the calls of the model. *)
Fixpoint extract_loop (depth : nat) (chunks : list (Z * StateChunk))
    (requirements : list (list Extractor.Requirement)) (calls : nat)
    : option (Extractor.result (list (list Extractor.Requirement)) * nat) :=
  match chunks with
  | [] => Some (Extractor.Ok requirements, calls)
  | (i, chunk) :: rest =>
      let chunk_dict :=
        {| Extractor.chunk_content := Some (content chunk);
           Extractor.chunk_chunk_id :=
             Some (Extractor.IdInt (chunk_id chunk)) |} in
      match Extractor.extract_requirements depth chunk_dict calls with
      | None => None
      | Some (requirements_result, calls') =>
          let json_path :=
            path_join output_dir
              (L "requirements_chunk_" ++ str_of_int (i + 1) ++ L ".json") in
          match save_json requirements_result json_path with
          | Some e => Some (Extractor.Raise e, calls')
          | None =>
              extract_loop depth rest (requirements ++ [requirements_result])
                calls'
          end
      end
  end.

(** [total_reqs]: every result is a list, so the first branch of the
    count is the one taken. *)
Definition total_reqs (requirements : list (list Extractor.Requirement)) : Z :=
  fold_left (fun total req_result => (total + Z.of_nat (length req_result))%Z)
    requirements 0%Z.

(** [_extract_requirements], from the chunks and the requirements of the
    state. *)
Definition _extract_requirements (depth : nat) (chunks : list StateChunk)
    (requirements : list (list Extractor.Requirement)) (calls : nat)
    : option (Extractor.result (list (list Extractor.Requirement)) * nat) :=
  extract_loop depth (enumerate chunks) requirements calls.

End WithOutside.

End Workflow.

(** ** Further notions *)

Module Shapes.

(** [s.endswith(suffix)], as a proposition. *)
Definition ends_with (s suffix : str) : Prop :=
  exists before, s = before ++ suffix.

(** The characters of all the pieces together. *)
Definition total_length (pieces : list str) : Z :=
  fold_right (fun p n => (len p + n)%Z) 0%Z pieces.

(** A marker that begins with a newline and has none once its leading
    newlines are taken off: all that [marker.lstrip('\n')] puts back in
    front of a part is free of newlines. *)
Definition newline_led (marker : str) : Prop :=
  (exists rest, marker = nl :: rest) /\ ~ In nl (lstrip_chars [nl] marker).

(** A text with no visible character. *)
Definition blank (w : str) : Prop := forallb isspace w = true.

(** [covers ov contents T]: the contents are windows of the text [T], in
    order, that leave nothing but whitespace out.  Read from left to right,
    [T] is whitespace, then the first content, character for character,
    then whitespace, the second content, and so on to the end; only, a
    content may begin up to [ov] characters before the end of the one
    before it ([j] is the number of characters the two share). *)
Inductive covers (ov : Z) : list str -> str -> Prop :=
| covers_end (w : str) : blank w -> covers ov [] w
| covers_next (w c t : str) (j : nat) (rest : list str) :
    blank w -> (j <= length c)%nat -> (Z.of_nat j <= ov)%Z ->
    covers ov rest (skipn (length c - j) c ++ t) ->
    covers ov (c :: rest) (w ++ c ++ t).

(** The contents [chunk_document] makes of the pieces of
    [intelligent_chunk]: the pieces that are not blank, stripped. *)
Definition contents_of (pieces : list str) : list str :=
  map strip (filter (fun p => truthy (strip p)) pieces).

(** A text with no whitespace at its ends, and not empty. *)
Definition trimmed (c : str) : Prop := c <> [] /\ strip c = c.



(** *** Requirement records *)

Section Records.

Context {ext : Extractor.Externals}.

(** The chunk a record goes back to: the parent it was tagged with, or
    else its own chunk. *)
Definition origin (r : Extractor.Requirement) : Extractor.chunk_ref :=
  match Extractor.parent_chunk_id r with
  | Some parent => parent
  | None => Extractor.chunk_id r
  end.

(** A record of a requirement found by the model or by a pattern: its
    text is stripped and at least 10 characters long, and its hash is the
    first 8 characters of the MD5 digest of that text. *)
Definition found (r : Extractor.Requirement) : Prop :=
  (Extractor.extraction_method r = L "enhanced_llm"
   \/ Extractor.extraction_method r = L "enhanced_fallback")
  /\ Extractor.content_hash r
     = Some (slice (Extractor.md5_hexdigest (Extractor.requirement r)) 0 8)
  /\ Extractor.error r = None
  /\ Extractor.requires_manual_review r = None
  /\ strip (Extractor.requirement r) = Extractor.requirement r
  /\ (10 <= len (Extractor.requirement r))%Z.

(** The record of the last resort of the pattern fallback. *)
Definition summary_sentinel (r : Extractor.Requirement) : Prop :=
  Extractor.extraction_method r = L "summary_fallback"
  /\ Extractor.content_hash r = None
  /\ Extractor.error r = None
  /\ Extractor.requires_manual_review r = None
  /\ startswith (Extractor.requirement r)
       (L "Manual review required - potential regulatory content: ") = true.

(** The record that stands for a failed extraction. *)
Definition error_sentinel (r : Extractor.Requirement) : Prop :=
  Extractor.extraction_method r = L "error_fallback"
  /\ Extractor.content_hash r = None
  /\ (exists msg, Extractor.error r = Some msg)
  /\ Extractor.requires_manual_review r = Some true
  /\ startswith (Extractor.requirement r)
       (L "EXTRACTION ERROR - Manual review required: ") = true.

(** A record that does not report a failure. *)
Definition ordinary (r : Extractor.Requirement) : Prop :=
  found r \/ summary_sentinel r.

Definition shaped (r : Extractor.Requirement) : Prop :=
  found r \/ summary_sentinel r \/ error_sentinel r.

(** A chunk that [extract_requirements] does not hand to
    [_process_large_chunk]: it is blank, flagged corrupted, or within the
    2500 words. *)
Definition not_split (chunk : Extractor.ChunkDict) : Prop :=
  let quality :=
    Extractor._assess_content_quality
      (Extractor._preprocess_content (Extractor.get_content chunk)) in
  truthy (strip (Extractor.get_content chunk)) = false
  \/ Extractor.likely_corrupted quality = true
  \/ Extractor.needs_splitting quality = false.

(** A chunk that [extract_requirements] hands to [_process_large_chunk]. *)
Definition to_split (chunk : Extractor.ChunkDict) : Prop :=
  let quality :=
    Extractor._assess_content_quality
      (Extractor._preprocess_content (Extractor.get_content chunk)) in
  truthy (strip (Extractor.get_content chunk)) = true
  /\ Extractor.likely_corrupted quality = false
  /\ Extractor.needs_splitting quality = true.

(** What the extractor is given by the LangChain splitter it configures
    ([chunk_size=3000], with the empty separator last): no sub-chunk is
    longer than 3000 characters. *)
Definition splitter_keeps_its_size : Prop :=
  forall text sub_chunk,
    In sub_chunk (Extractor.split_text text) -> (len sub_chunk <= 3000)%Z.

(** Preprocessing a sub-chunk of a preprocessed text does not lengthen it:
    the passes that insert a space have nothing left to separate, the
    others replace a match by one space. *)
Definition preprocessing_settles : Prop :=
  forall content sub_chunk,
    In sub_chunk
       (Extractor.split_text (Extractor._preprocess_content content)) ->
    (len (Extractor._preprocess_content sub_chunk) <= len sub_chunk)%Z.

(** A record as the chunk [id] first gets it, before any tagging. *)
Definition first_hand (id : Extractor.chunk_ref) (r : Extractor.Requirement)
    : Prop :=
  Extractor.chunk_id r = id
  /\ Extractor.parent_chunk_id r = None
  /\ Extractor.sub_chunk_index r = None
  /\ shaped r.

(** An ordinary record as the chunk [id] first gets it. *)
Definition plain (id : Extractor.chunk_ref) (r : Extractor.Requirement)
    : Prop :=
  Extractor.chunk_id r = id
  /\ Extractor.parent_chunk_id r = None
  /\ Extractor.sub_chunk_index r = None
  /\ ordinary r.

(** The ids of the first [n] records of the pattern fallback. *)
Definition fallback_ids (id : Extractor.chunk_ref) (n : nat)
    : list Extractor.value :=
  map (fun k =>
         Extractor.VStr (Extractor.format_id id ++ L "_FALLBACK"
                         ++ format_03d (Z.of_nat k)))
      (seq 1 n).

(** What a record of the pattern fallback holds besides its id. *)
Definition pattern_record (r : Extractor.Requirement) : Prop :=
  (20 < len (Extractor.requirement r) < 500)%Z
  /\ Extractor.category r
     = Extractor.VStr
         (Extractor._classify_requirement_category (Extractor.requirement r))
  /\ Extractor.priority r
     = Extractor.VStr
         (if existsb (contains (lower (Extractor.requirement r)))
               [L "must"; L "shall"; L "mandatory"; L "required"]
          then L "high" else L "medium")
  /\ (exists found_keywords,
        Extractor.keywords r
        = Extractor.VList (map Extractor.VStr found_keywords)
        /\ (length found_keywords <= 10)%nat)
  /\ Extractor.requirement_type r = None
  /\ Extractor.deadline r = None
  /\ Extractor.applies_to r = None.

End Records.

(** A candidate on which [_validate_enhanced_requirements] raises: a
    dictionary whose ['requirement'] is not a string. *)
Definition malformed (candidate : Extractor.value) : bool :=
  match candidate with
  | Extractor.VDict d =>
      match Extractor.dict_get d (L "requirement") with
      | Some (Extractor.VStr _) | None => false
      | Some _ => true
      end
  | _ => false
  end.

End Shapes.

(** ** Further stand-ins for the outside world *)

Module Scenarios.

Import Extractor Doubles.

(** A model that is down, and a splitter that halves its text. *)
Definition down_and_halving : Externals :=
  quiet (fun _ => Raise (OtherException (L "503 Service Unavailable")))
        loads_empty_reply halves.

(** The reply of a model that finds one requirement. *)
Definition one_requirement_reply : str :=
  L "{" ++ q ++ L "requirements" ++ q ++ L ": [{" ++ q ++ L "requirement" ++ q
  ++ L ": " ++ q ++ L "Banks must hold capital." ++ q ++ L "}]}".

(** [json.loads] on that reply; any other text is taken not to be JSON. *)
Definition loads_one_requirement (s : str) : result value :=
  if str_eqb s one_requirement_reply
  then Ok (VDict [(L "requirements",
                   VList [VDict [(L "requirement",
                                  VStr (L "Banks must hold capital."))]])])
  else Raise (JSONDecodeError (L "Expecting value")).

(** A model that always answers with that reply. *)
Definition finds_one : Externals :=
  quiet (fun _ => Ok one_requirement_reply) loads_one_requirement
        (fun s => [s]).

(** A text cut into consecutive windows of [n] characters, the last one
    shorter; [fuel] bounds the number of windows. *)
Fixpoint windows_go (fuel n : nat) (s : str) : list str :=
  match fuel with
  | O => []
  | S fuel' =>
      match s with
      | [] => []
      | _ :: _ => firstn n s :: windows_go fuel' n (skipn n s)
      end
  end.

(** A text splitter that honours the size it is configured with: windows
    of 3000 characters. *)
Definition windows (s : str) : list str := windows_go (length s) 3000 s.

(** A model that finds no requirement, that splitter, and texts in which
    no regular expression matches. *)
Definition windowed : Externals :=
  quiet (fun _ => Ok empty_reply) loads_empty_reply windows.

(** A chunk of 2501 words. *)
Definition long_chunk : ChunkDict :=
  {| chunk_content := Some many_words; chunk_chunk_id := Some (IdInt 1) |}.

(** A chunk whose content is blank. *)
Definition blank_chunk : ChunkDict :=
  {| chunk_content := Some (L "   "); chunk_chunk_id := Some (IdInt 1) |}.

(** A file system on which every write succeeds. *)
Definition writable : Workflow.Files :=
  {| Workflow.path_join := fun directory name => directory ++ L "/" ++ name;
     Workflow.save_json := fun _ _ => None |}.

End Scenarios.

(** ** Facts about the string operations *)

Section StringFacts.

Lemma len_nonneg (s : str) : (0 <= len s)%Z.
Proof. unfold len; lia. Qed.

Lemma visible_app (s t : str) : visible (s ++ t) = visible s ++ visible t.
Proof. apply filter_app. Qed.

Lemma visible_cons (c : ascii) (s : str) :
  visible (c :: s) = if isspace c then visible s else c :: visible s.
Proof. unfold visible; simpl; now destruct (isspace c). Qed.

Lemma visible_nil_iff (s : str) : visible s = [] <-> forallb isspace s = true.
Proof.
  induction s as [|c s IH]; [simpl; tauto|].
  rewrite visible_cons; simpl.
  destruct (isspace c); simpl; [exact IH|].
  split; discriminate.
Qed.

Lemma dropWhile_nil_iff (f : ascii -> bool) (s : str) :
  dropWhile f s = [] <-> forallb f s = true.
Proof.
  induction s as [|c s IH]; simpl; [tauto|].
  destruct (f c); simpl; [exact IH|].
  split; discriminate.
Qed.

Lemma visible_dropWhile (s : str) : visible (dropWhile isspace s) = visible s.
Proof.
  induction s as [|c s IH]; [reflexivity|].
  rewrite visible_cons; simpl.
  destruct (isspace c) eqn:E; [exact IH|].
  now rewrite visible_cons, E.
Qed.

Lemma visible_lstrip (s : str) : visible (lstrip s) = visible s.
Proof. apply visible_dropWhile. Qed.

Lemma visible_rstrip (s : str) : visible (rstrip s) = visible s.
Proof.
  induction s as [|c s IH]; [reflexivity|].
  cbn [rstrip]; rewrite (visible_cons c s), <- IH.
  destruct (rstrip s) as [|k kept].
  - destruct (isspace c) eqn:E; [reflexivity|].
    now rewrite visible_cons, E.
  - now rewrite visible_cons.
Qed.

(** Stripping removes whitespace only. *)
Lemma visible_strip (s : str) : visible (strip s) = visible s.
Proof. unfold strip; now rewrite visible_rstrip, visible_lstrip. Qed.

Lemma dropWhile_length (f : ascii -> bool) (s : str) :
  (length (dropWhile f s) <= length s)%nat.
Proof.
  induction s as [|c s IH]; simpl; [lia|].
  destruct (f c); simpl; lia.
Qed.

Lemma rstrip_length (s : str) : (length (rstrip s) <= length s)%nat.
Proof.
  induction s as [|c s IH]; [simpl; lia|].
  cbn [rstrip].
  destruct (rstrip s) as [|k kept].
  - destruct (isspace c); simpl; lia.
  - simpl in *; lia.
Qed.

Lemma strip_length (s : str) : (length (strip s) <= length s)%nat.
Proof.
  unfold strip, lstrip.
  etransitivity; [apply rstrip_length|apply dropWhile_length].
Qed.

Lemma len_strip (s : str) : (len (strip s) <= len s)%Z.
Proof. unfold len; pose proof (strip_length s); lia. Qed.

(** A text strips to the empty string exactly when it has no visible
    character. *)
Lemma strip_blank_iff (s : str) : truthy (strip s) = false <-> visible s = [].
Proof.
  split.
  - intros H. destruct (strip s) eqn:E; [|discriminate].
    rewrite <- (visible_strip s), E; reflexivity.
  - intros H. apply visible_nil_iff in H.
    assert (E : lstrip s = []) by (apply dropWhile_nil_iff; exact H).
    unfold strip; rewrite E; reflexivity.
Qed.

Lemma strip_truthy_iff (s : str) : truthy (strip s) = true <-> visible s <> [].
Proof.
  pose proof (strip_blank_iff s) as H.
  destruct (truthy (strip s)); split; intros; try congruence.
  - intros E; apply H in E; discriminate.
  - exfalso; apply H0, H; reflexivity.
Qed.

Lemma visible_lstrip_nl (m : str) : visible (lstrip_chars [nl] m) = visible m.
Proof.
  unfold lstrip_chars.
  induction m as [|c m IH]; [reflexivity|].
  cbn [dropWhile].
  destruct (existsb (Ascii.eqb c) [nl]) eqn:E; [|reflexivity].
  simpl in E; rewrite orb_false_r in E.
  apply Ascii.eqb_eq in E; subst c.
  rewrite IH, visible_cons; reflexivity.
Qed.

Lemma startswith_app (s p : str) :
  startswith s p = true -> s = p ++ skipn (length p) s.
Proof.
  revert s; induction p as [|a p IH]; intros s H; simpl in *; [reflexivity|].
  destruct s as [|b s]; [discriminate|].
  apply andb_true_iff in H as [E H].
  apply Ascii.eqb_eq in E; subst b.
  simpl; f_equal; now apply IH.
Qed.

Lemma startswith_length (s p : str) :
  startswith s p = true -> (length p <= length s)%nat.
Proof.
  intros H; apply startswith_app in H.
  apply (f_equal (@length ascii)) in H.
  rewrite length_app in H; lia.
Qed.

End StringFacts.

(** ** The chunker *)

Section ChunkerProofs.

Import Chunker.

Section SplitFacts.

Lemma split_go_nonempty (sep s : str) (k : nat) (cur : str) :
  split_go sep s k cur <> [].
Proof.
  revert k cur; induction s as [|c s IH]; intros k cur; cbn [split_go];
    [discriminate|].
  destruct k as [|k]; [|apply IH].
  destruct (startswith (c :: s) sep); [discriminate|apply IH].
Qed.

Lemma split_go_skip (sep s : str) (k : nat) (cur : str) :
  (k <= length s)%nat ->
  split_go sep s k cur = split_go sep (skipn k s) 0 cur.
Proof.
  revert k; induction s as [|c s IH]; intros [|k] H; simpl in *;
    try reflexivity; try lia.
  apply IH; lia.
Qed.

Lemma join_cons (sep p : str) (rest : list str) :
  rest <> [] -> join sep (p :: rest) = p ++ sep ++ join sep rest.
Proof. destruct rest; [congruence|reflexivity]. Qed.

Lemma join_split_go (n : nat) (sep s cur : str) :
  (length s <= n)%nat -> sep <> [] ->
  join sep (split_go sep s 0 cur) = rev cur ++ s.
Proof.
  revert s cur; induction n as [|n IH]; intros s cur Hn Hsep.
  - destruct s; [simpl; now rewrite app_nil_r|simpl in Hn; lia].
  - destruct s as [|c s]; [simpl; now rewrite app_nil_r|].
    cbn [split_go].
    destruct (startswith (c :: s) sep) eqn:E.
    + pose proof (startswith_length _ _ E) as Hl.
      pose proof (startswith_app _ _ E) as Hs.
      destruct sep as [|a sep']; [congruence|].
      simpl in Hl.
      rewrite join_cons by apply split_go_nonempty.
      rewrite split_go_skip by (simpl; lia).
      rewrite IH; [|rewrite length_skipn; simpl in *; lia|assumption].
      simpl length. replace (S (length sep') - 1)%nat with (length sep') by lia.
      simpl in Hs. injection Hs as -> Hs.
      simpl. f_equal. f_equal. symmetry; exact Hs.
    + rewrite IH; [|simpl in Hn; lia|assumption].
      simpl. now rewrite <- app_assoc.
Qed.

(** Splitting on a separator loses nothing but the separators. *)
Lemma join_split (s sep : str) : sep <> [] -> join sep (split s sep) = s.
Proof. intros H; unfold split; now rewrite (join_split_go (n:=length s)). Qed.

End SplitFacts.

Section MarkerFacts.

Variable marker : str.

Lemma visible_keep_later (parts : list str) (i : Z) :
  (0 < i)%Z ->
  visible (concat (flat_map (reattach_marker marker) (enumerate_from i parts)))
  = concat (map (fun p => visible marker ++ visible p) parts).
Proof.
  revert i; induction parts as [|p parts IH]; intros i Hi; [reflexivity|].
  cbn [enumerate_from flat_map map concat].
  rewrite concat_app, visible_app, IH by lia.
  f_equal.
  unfold reattach_marker.
  replace (i >? 0)%Z with true by (symmetry; apply Z.gtb_lt; lia).
  destruct (truthy (strip (lstrip_chars [nl] marker ++ p))) eqn:E.
  - simpl; rewrite app_nil_r, visible_app, visible_lstrip_nl; reflexivity.
  - apply strip_blank_iff in E.
    rewrite visible_app, visible_lstrip_nl in E.
    rewrite E; reflexivity.
Qed.

Lemma visible_join (p : str) (rest : list str) :
  visible (join marker (p :: rest))
  = visible p ++ concat (map (fun q => visible marker ++ visible q) rest).
Proof.
  revert p; induction rest as [|q rest IH]; intros p.
  - simpl; now rewrite app_nil_r.
  - rewrite join_cons by discriminate.
    rewrite !visible_app, IH; simpl.
    now rewrite <- app_assoc.
Qed.

Lemma visible_keep_all (parts : list str) :
  parts <> [] ->
  visible (concat (flat_map (reattach_marker marker) (enumerate parts)))
  = visible (join marker parts).
Proof.
  destruct parts as [|p rest]; [congruence|intros _].
  rewrite visible_join.
  unfold enumerate; cbn [enumerate_from flat_map].
  rewrite concat_app, visible_app, visible_keep_later by lia.
  f_equal.
  unfold reattach_marker; simpl.
  destruct (truthy (strip p)) eqn:E.
  - simpl; now rewrite app_nil_r.
  - apply strip_blank_iff in E; now rewrite E.
Qed.

(** Splitting a section on a marker keeps its visible characters: what is
    dropped is the marker's leading newlines and whitespace-only parts. *)
Lemma visible_split_on_marker (section : str) :
  marker <> [] ->
  visible (concat (split_on_marker marker section)) = visible section.
Proof.
  intros Hm; unfold split_on_marker.
  destruct (contains section marker).
  - rewrite visible_keep_all by (unfold split; apply split_go_nonempty).
    now rewrite join_split.
  - simpl; now rewrite app_nil_r.
Qed.

End MarkerFacts.

Lemma visible_flat_map_split (marker : str) (sections : list str) :
  marker <> [] ->
  visible (concat (flat_map (split_on_marker marker) sections))
  = visible (concat sections).
Proof.
  intros Hm; induction sections as [|s sections IH]; [reflexivity|].
  simpl; rewrite concat_app, !visible_app, IH.
  now rewrite visible_split_on_marker.
Qed.

Lemma visible_fold_markers (markers : list str) (sections : list str) :
  Forall (fun m => m <> []) markers ->
  visible (concat (fold_left
    (fun sections marker => flat_map (split_on_marker marker) sections)
    markers sections))
  = visible (concat sections).
Proof.
  intros H; revert sections; induction H as [|m markers Hm _ IH];
    intros sections; [reflexivity|].
  simpl; rewrite IH; now apply visible_flat_map_split.
Qed.

(** The structural split keeps every visible character of the content, in
    order. *)
Lemma visible_split_sections (content : str) :
  visible (concat (split_sections content)) = visible content.
Proof.
  unfold split_sections.
  rewrite visible_fold_markers.
  - simpl; now rewrite app_nil_r.
  - unfold section_markers; repeat constructor; discriminate.
Qed.

Section SliceFacts.

Lemma clamp_index_id (n i : Z) : (0 <= i <= n)%Z -> clamp_index n i = i.
Proof.
  intros H; unfold clamp_index.
  destruct (Z.ltb_spec i 0); lia.
Qed.

Lemma slice_in_range (s : str) (i j : Z) :
  (0 <= i <= j)%Z -> (j <= len s)%Z ->
  slice s i j = firstn (Z.to_nat (j - i)) (skipn (Z.to_nat i) s).
Proof.
  intros H1 H2; unfold slice.
  now rewrite !clamp_index_id by lia.
Qed.

Lemma slice_from_in_range (s : str) (i : Z) :
  (0 <= i <= len s)%Z -> slice_from s i = skipn (Z.to_nat i) s.
Proof. intros H; unfold slice_from; now rewrite clamp_index_id. Qed.

Lemma len_firstn_skipn (s : str) (a n : nat) :
  (a + n <= length s)%nat -> length (firstn n (skipn a s)) = n.
Proof. intros H; rewrite length_firstn, length_skipn; lia. Qed.

Lemma rfind_from_range (sub s : str) (i best : Z) :
  rfind_from sub s i best = best
  \/ (i <= rfind_from sub s i best
      /\ rfind_from sub s i best + len sub <= i + len s)%Z.
Proof.
  revert i best; induction s as [|c s IH]; intros i best.
  - cbn [rfind_from].
    destruct (startswith [] sub) eqn:E; [right|now left].
    apply startswith_length in E; unfold len; simpl in *; lia.
  - cbn [rfind_from].
    destruct (IH (i + 1)%Z (if startswith (c :: s) sub then i else best))
      as [H|H].
    + rewrite H.
      destruct (startswith (c :: s) sub) eqn:E; [right|now left].
      apply startswith_length in E; unfold len; lia.
    + right; unfold len in *; simpl length; lia.
Qed.

Lemma rfind_range (s sub : str) :
  rfind s sub = (-1)%Z
  \/ (0 <= rfind s sub /\ rfind s sub + len sub <= len s)%Z.
Proof. unfold rfind; apply rfind_from_range. Qed.

(** With a window of at least 200 characters the cut lies in its last 200
    characters, or at its hard edge. *)
Lemma find_break_range (points : list str) (chunk : str) (start : Z) :
  (200 <= len chunk)%Z ->
  (start + len chunk - 200
   < find_break points chunk start (start + len chunk)
   <= start + len chunk)%Z.
Proof.
  intros H; induction points as [|point points IH]; cbn [find_break]; [lia|].
  destruct (Z.gtb_spec (rfind chunk point) (len chunk - 200)) as [G|G];
    [|exact IH].
  pose proof (len_nonneg point).
  destruct (rfind_range chunk point); lia.
Qed.

End SliceFacts.

Section SplitLoop.

Variable self : ChunkerAgent.
Hypothesis overlap_nonneg : (0 <= overlap self)%Z.
Hypothesis overlap_fits : (overlap self + 200 <= chunk_size self)%Z.

Variable section : str.

(** One iteration that is not the last: the piece cut runs from [start] to a
    break point [b] in the last 200 characters of the window, and the loop
    goes on from [b - overlap]. *)
Lemma split_loop_step (fuel : nat) (start : Z) :
  (0 <= start)%Z -> (start + chunk_size self < len section)%Z ->
  exists b : Z,
    (start + chunk_size self - 200 < b <= start + chunk_size self)%Z
    /\ split_loop self (S fuel) section start
       = option_map
           (cons (firstn (Z.to_nat (b - start))
                    (skipn (Z.to_nat start) section)))
           (split_loop self fuel section (b - overlap self)).
Proof.
  intros H0 H1.
  set (chunk := slice section start (start + chunk_size self)).
  assert (Hc : len chunk = chunk_size self).
  { unfold chunk; rewrite slice_in_range by lia.
    unfold len in *; rewrite len_firstn_skipn; lia. }
  exists (find_break break_points chunk start (start + chunk_size self)).
  pose proof (@find_break_range break_points chunk start) as R.
  rewrite Hc in R; specialize (R ltac:(lia)).
  split; [exact R|].
  cbn [split_loop].
  replace (start <? len section)%Z with true by (symmetry; apply Z.ltb_lt; lia).
  replace (start + chunk_size self >=? len section)%Z with false
    by (symmetry; rewrite Z.geb_leb; apply Z.leb_gt; lia).
  cbn [negb]; fold chunk.
  now rewrite slice_in_range by lia.
Qed.

Lemma split_loop_done (fuel : nat) (start : Z) :
  (len section <= start)%Z -> split_loop self fuel section start = Some [].
Proof.
  intros H; destruct fuel; cbn [split_loop];
    replace (start <? len section)%Z with false
      by (symmetry; apply Z.ltb_ge; lia);
    reflexivity.
Qed.

Lemma split_loop_last (fuel : nat) (start : Z) :
  (0 <= start < len section)%Z -> (len section <= start + chunk_size self)%Z ->
  split_loop self (S fuel) section start
  = Some [skipn (Z.to_nat start) section].
Proof.
  intros H0 H1; cbn [split_loop].
  replace (start <? len section)%Z with true by (symmetry; apply Z.ltb_lt; lia).
  replace (start + chunk_size self >=? len section)%Z with true
    by (symmetry; rewrite Z.geb_leb; apply Z.leb_le; lia).
  cbn [negb]; now rewrite slice_from_in_range by lia.
Qed.

Lemma split_loop_cases (fuel : nat) (start : Z) :
  (0 <= start)%Z ->
  iteration self section fuel start (split_loop self (S fuel) section start).
Proof.
  intros H0.
  destruct (Z.le_gt_cases (len section) start) as [H|H].
  - rewrite split_loop_done by lia; now constructor.
  - destruct (Z.le_gt_cases (len section) (start + chunk_size self)) as [G|G].
    + rewrite split_loop_last by lia; constructor; lia.
    + destruct (@split_loop_step fuel start H0 ltac:(lia)) as (b & Hb & ->).
      now constructor.
Qed.

(** Enough iterations: the loop returns. *)
Lemma split_loop_returns (fuel : nat) (start : Z) :
  (0 <= start)%Z -> (len section < start + Z.of_nat fuel)%Z ->
  exists pieces, split_loop self fuel section start = Some pieces.
Proof.
  revert start; induction fuel as [|fuel IH]; intros start H0 H1.
  - rewrite split_loop_done by lia; eauto.
  - destruct (split_loop_cases fuel H0) as [H|H|b H Hb]; eauto.
    destruct (IH (b - overlap self)%Z) as (pieces & ->); [lia|lia|].
    simpl; eauto.
Qed.

(** Every piece is at most [chunk_size] long. *)
Lemma split_loop_bounded (fuel : nat) (start : Z) (pieces : list str) :
  (0 <= start)%Z ->
  split_loop self fuel section start = Some pieces ->
  Forall (fun p => (len p <= chunk_size self)%Z) pieces.
Proof.
  revert start pieces; induction fuel as [|fuel IH]; intros start pieces H0 E.
  - cbn [split_loop] in E.
    destruct (negb (start <? len section)%Z); [|discriminate].
    injection E as <-; constructor.
  - destruct (split_loop_cases fuel H0) as [H|H|b H Hb].
    + injection E as <-; constructor.
    + injection E as <-; repeat constructor.
      unfold len in *; rewrite length_skipn; lia.
    + destruct (split_loop self fuel section (b - overlap self))
        as [rest|] eqn:R; [|discriminate].
      injection E as <-; constructor;
        [|apply (IH (b - overlap self)%Z); [lia|exact R]].
      unfold len in *; rewrite length_firstn; lia.
Qed.

(** Dropping the first [overlap] characters of every piece gives back the
    section from [start + overlap] on. *)
Lemma split_loop_tails (fuel : nat) (start : Z) (pieces : list str) :
  (0 <= start)%Z ->
  split_loop self fuel section start = Some pieces ->
  concat (map (skipn (Z.to_nat (overlap self))) pieces)
  = skipn (Z.to_nat (start + overlap self)) section.
Proof.
  revert start pieces; induction fuel as [|fuel IH]; intros start pieces H0 E.
  - cbn [split_loop] in E.
    destruct (Z.ltb_spec start (len section)); [discriminate|].
    injection E as <-; simpl.
    symmetry; apply skipn_all2; unfold len in *; lia.
  - destruct (split_loop_cases fuel H0) as [H|H|b H Hb].
    + injection E as <-; simpl.
      symmetry; apply skipn_all2; unfold len in *; lia.
    + injection E as <-; simpl.
      rewrite app_nil_r, skipn_skipn; f_equal; lia.
    + destruct (split_loop self fuel section (b - overlap self))
        as [rest|] eqn:R; [|discriminate].
      injection E as <-.
      cbn [map concat].
      rewrite (IH (b - overlap self)%Z rest) by (lia || exact R).
      replace (b - overlap self + overlap self)%Z with b by lia.
      rewrite skipn_firstn_comm, skipn_skipn.
      replace (Z.to_nat b)
        with ((Z.to_nat (b - start) - Z.to_nat (overlap self))
              + (Z.to_nat (overlap self) + Z.to_nat start))%nat by lia.
      rewrite <- (skipn_skipn (Z.to_nat (b - start) - Z.to_nat (overlap self))).
      replace (Z.to_nat (start + overlap self))
        with (Z.to_nat (overlap self) + Z.to_nat start)%nat by lia.
      apply firstn_skipn.
Qed.

(** The pieces, overlaps ignored, are the section from [start] on. *)
Lemma split_loop_unoverlap (fuel : nat) (start : Z) (pieces : list str) :
  (0 <= start)%Z ->
  split_loop self fuel section start = Some pieces ->
  unoverlap (overlap self) pieces = skipn (Z.to_nat start) section.
Proof.
  intros H0 E; destruct fuel as [|fuel].
  - cbn [split_loop] in E.
    destruct (Z.ltb_spec start (len section)); [discriminate|].
    injection E as <-; simpl.
    symmetry; apply skipn_all2; unfold len in *; lia.
  - destruct (split_loop_cases fuel H0) as [H|H|b H Hb].
    + injection E as <-; simpl.
      symmetry; apply skipn_all2; unfold len in *; lia.
    + injection E as <-; simpl; apply app_nil_r.
    + destruct (split_loop self fuel section (b - overlap self))
        as [rest|] eqn:R; [|discriminate].
      injection E as <-.
      cbn [unoverlap].
      rewrite (@split_loop_tails fuel (b - overlap self)%Z rest)
        by (lia || exact R).
      replace (b - overlap self + overlap self)%Z with b by lia.
      replace (Z.to_nat b)
        with (Z.to_nat (b - start) + Z.to_nat start)%nat by lia.
      rewrite <- skipn_skipn.
      apply firstn_skipn.
Qed.

(** A piece that is not the first starts with the [overlap] characters of
    the section before its break point. *)
Lemma split_loop_head (fuel : nat) (start : Z) (q : str) (rest : list str) :
  (0 <= start)%Z -> (start + overlap self <= len section)%Z ->
  split_loop self fuel section start = Some (q :: rest) ->
  leading (overlap self) q
  = firstn (Z.to_nat (overlap self)) (skipn (Z.to_nat start) section).
Proof.
  intros H0 H1 E; destruct fuel as [|fuel].
  - cbn [split_loop] in E.
    destruct (negb (start <? len section)%Z); discriminate.
  - destruct (split_loop_cases fuel H0)
      as [H|H|b H Hb].
    + discriminate.
    + injection E as <- _; reflexivity.
    + destruct (split_loop self fuel section (b - overlap self));
        [|discriminate].
      injection E as <- _.
      unfold leading; rewrite firstn_firstn.
      f_equal; lia.
Qed.

Lemma split_loop_chain (fuel : nat) (start : Z) (pieces : list str) :
  (0 <= start)%Z ->
  split_loop self fuel section start = Some pieces ->
  chain (shares_overlap self) pieces.
Proof.
  revert start pieces; induction fuel as [|fuel IH]; intros start pieces H0 E.
  - cbn [split_loop] in E.
    destruct (negb (start <? len section)%Z); [|discriminate].
    injection E as <-; exact I.
  - destruct (split_loop_cases fuel H0)
      as [H|H|b H Hb].
    + injection E as <-; exact I.
    + injection E as <-; exact I.
    + destruct (split_loop self fuel section (b - overlap self))
        as [rest|] eqn:R; [|discriminate].
      injection E as <-.
      pose proof (IH (b - overlap self)%Z rest ltac:(lia) R) as C.
      destruct rest as [|q rest]; [exact I|].
      split; [|exact C].
      pose proof (@split_loop_head fuel (b - overlap self)%Z q rest
                    ltac:(lia) ltac:(lia) R) as Hq.
      unfold shares_overlap; rewrite Hq; split.
      * unfold trailing.
        rewrite length_firstn, length_skipn.
        rewrite skipn_firstn_comm, skipn_skipn.
        unfold len in *.
        f_equal; [lia|f_equal; lia].
      * unfold len in *; rewrite length_firstn, length_skipn; lia.
Qed.

(** The last piece runs to the end of the section. *)
Lemma split_loop_suffix (fuel : nat) (start : Z) (pieces : list str) :
  (0 <= start)%Z ->
  split_loop self fuel section start = Some pieces ->
  pieces <> [] -> exists k : nat, last pieces [] = skipn k section.
Proof.
  revert start pieces; induction fuel as [|fuel IH]; intros start pieces H0 E N.
  - cbn [split_loop] in E.
    destruct (negb (start <? len section)%Z); [|discriminate].
    injection E as <-; congruence.
  - destruct (split_loop_cases fuel H0)
      as [H|H|b H Hb].
    + injection E as <-; congruence.
    + injection E as <-; simpl; eauto.
    + destruct (split_loop self fuel section (b - overlap self))
        as [rest|] eqn:R; [|discriminate].
      injection E as <-.
      destruct rest as [|q rest].
      * (* the loop always ends on a piece cut by [section[start:]] *)
        exfalso.
        destruct fuel as [|fuel'].
        -- cbn [split_loop] in R.
           destruct (Z.ltb_spec (b - overlap self) (len section));
             [discriminate|lia].
        -- destruct (@split_loop_cases fuel' (b - overlap self)%Z ltac:(lia))
             as [G|G|b' G Hb'].
           ++ lia.
           ++ discriminate.
           ++ destruct (split_loop self fuel' section (b' - overlap self));
                discriminate.
      * destruct (IH (b - overlap self)%Z (q :: rest) ltac:(lia) R
                    ltac:(discriminate)) as (k & Hk).
        exists k; rewrite <- Hk; reflexivity.
Qed.

End SplitLoop.

Lemma chain_nth_error (A : Type) (R : A -> A -> Prop) (l : list A)
    (i : nat) (x y : A) :
  chain R l -> nth_error l i = Some x -> nth_error l (S i) = Some y -> R x y.
Proof.
  revert i; induction l as [|a l IH]; intros i C Hx Hy.
  - destruct i; discriminate.
  - destruct l as [|b l]; [destruct i; discriminate|].
    destruct C as [Rab C].
    destruct i as [|i].
    + simpl in Hx, Hy; injection Hx as <-; injection Hy as <-; exact Rab.
    + apply (IH i C); assumption.
Qed.

Section ChunkFacts.

Variable self : ChunkerAgent.
Hypothesis configured : well_configured self.

Lemma split_large_section_returns (section : str) :
  exists pieces, _split_large_section self section = Some pieces.
Proof.
  destruct configured; unfold _split_large_section.
  apply split_loop_returns; unfold len; try lia.
Qed.

Lemma section_pieces_spec (section : str) :
  exists pieces,
    section_pieces self section = Some pieces
    /\ unoverlap (overlap self) pieces = section
    /\ Forall (within_limit self) pieces.
Proof.
  destruct configured as [Hov Hcs]; unfold section_pieces.
  destruct (Z.leb_spec (len section) (chunk_size self)) as [H|H].
  - exists [section]; repeat split.
    + simpl; apply app_nil_r.
    + repeat constructor; exact H.
  - destruct (split_large_section_returns section) as (pieces & E).
    exists pieces; rewrite E; repeat split.
    + unfold _split_large_section in E.
      now rewrite (split_loop_unoverlap self Hov Hcs section _ (Z.le_refl 0) E).
    + unfold _split_large_section in E.
      exact (split_loop_bounded self Hov Hcs section _ (Z.le_refl 0) E).
Qed.

Lemma section_groups_spec (sections : list str) :
  exists groups,
    section_groups self sections = Some groups
    /\ enforce_size self sections = Some (concat groups)
    /\ map (unoverlap (overlap self)) groups = sections
    /\ Forall (Forall (within_limit self)) groups.
Proof.
  induction sections as [|s sections (groups & E1 & E2 & E3 & E4)].
  - exists []; repeat split; constructor.
  - destruct (section_pieces_spec s) as (pieces & P1 & P2 & P3).
    exists (pieces :: groups); cbn [section_groups enforce_size].
    rewrite P1, E1, E2; repeat split.
    + simpl; now rewrite P2, E3.
    + now constructor.
Qed.

End ChunkFacts.

Section BuildResult.

Variable dt : str.

Lemma build_result_from (i : Z) (chunks : list str) :
  map content (flat_map (result_entry dt) (enumerate_from i chunks))
  = map strip (filter (fun p => truthy (strip p)) chunks).
Proof.
  revert i; induction chunks as [|p chunks IH]; intros i; [reflexivity|].
  cbn [enumerate_from flat_map filter].
  rewrite map_app, IH.
  unfold result_entry; destruct (truthy (strip p)); reflexivity.
Qed.

(** The contents of the result: the pieces that do not strip to nothing,
    stripped, in order. *)
Lemma build_result_contents (chunks : list str) :
  map content (build_result dt chunks)
  = map strip (filter (fun p => truthy (strip p)) chunks).
Proof. apply build_result_from. Qed.

Lemma build_result_origin_from (i : Z) (chunks : list str) (c : Chunk) :
  In c (flat_map (result_entry dt) (enumerate_from i chunks)) ->
  exists p, In p chunks /\ truthy (strip p) = true
            /\ content c = strip p /\ char_count c = len p.
Proof.
  revert i; induction chunks as [|p chunks IH]; intros i H; [destruct H|].
  cbn [enumerate_from flat_map] in H.
  apply in_app_or in H as [H|H].
  - unfold result_entry in H.
    destruct (truthy (strip p)) eqn:E; [|destruct H].
    destruct H as [<-|[]].
    exists p; simpl; auto.
  - destruct (IH _ H) as (q & Hq & Hrest).
    exists q; simpl; auto.
Qed.

(** Every chunk of the result comes from a piece [p]: its content is
    [p.strip()], its [char_count] is [len(p)]. *)
Lemma build_result_origin (chunks : list str) (c : Chunk) :
  In c (build_result dt chunks) ->
  exists p, In p chunks /\ truthy (strip p) = true
            /\ content c = strip p /\ char_count c = len p.
Proof. apply build_result_origin_from. Qed.

End BuildResult.

Lemma chunk_document_long (self : ChunkerAgent) (T dt : str) :
  (10 <= len (strip T))%Z ->
  chunk_document self T dt
  = option_map (build_result dt) (intelligent_chunk self (strip T)).
Proof.
  intros H; unfold chunk_document, _smart_chunk.
  replace (len (strip T) <? 10)%Z with false
    by (symmetry; apply Z.ltb_ge; exact H).
  destruct T as [|c T]; [change (len (strip [])) with 0%Z in H; lia|].
  cbn [truthy negb orb].
  now destruct (intelligent_chunk self (strip (c :: T))).
Qed.

Lemma chunk_document_short (self : ChunkerAgent) (T dt : str) :
  T = [] \/ (len (strip T) < 10)%Z -> chunk_document self T dt = Some [].
Proof.
  intros [->|H]; [reflexivity|]; unfold chunk_document.
  replace (len (strip T) <? 10)%Z with true
    by (symmetry; apply Z.ltb_lt; exact H).
  now rewrite orb_true_r.
Qed.

Lemma visible_skipn_nonempty (n : nat) (s : str) :
  visible (skipn n s) <> [] -> visible s <> [].
Proof.
  intros H E; apply H.
  rewrite <- (firstn_skipn n s), visible_app in E.
  now apply app_eq_nil in E.
Qed.

Lemma visible_unoverlap_nonempty (n : Z) (pieces : list str) :
  visible (unoverlap n pieces) <> [] ->
  Exists (fun p => truthy (strip p) = true) pieces.
Proof.
  destruct pieces as [|p rest]; [intros H; now elim H|].
  cbn [unoverlap]; rewrite visible_app; intros H.
  destruct (visible p) eqn:E.
  - apply Exists_cons_tl.
    simpl in H; clear E.
    induction rest as [|q rest IH]; [now elim H|].
    cbn [map concat] in H; rewrite visible_app in H.
    destruct (visible (skipn (Z.to_nat n) q)) eqn:Eq.
    + apply Exists_cons_tl, IH; exact H.
    + apply Exists_cons_hd, strip_truthy_iff.
      apply (@visible_skipn_nonempty (Z.to_nat n)); now rewrite Eq.
  - apply Exists_cons_hd, strip_truthy_iff; now rewrite E.
Qed.

Lemma visible_concat_nonempty (l : list str) :
  visible (concat l) <> [] -> Exists (fun s => visible s <> []) l.
Proof.
  induction l as [|s l IH]; [intros H; now elim H|].
  cbn [concat]; rewrite visible_app; intros H.
  destruct (visible s) eqn:E.
  - apply Exists_cons_tl, IH; exact H.
  - apply Exists_cons_hd; now rewrite E.
Qed.

Lemma build_result_nonempty (dt : str) (chunks : list str) :
  Exists (fun p => truthy (strip p) = true) chunks ->
  build_result dt chunks <> [].
Proof.
  intros H E.
  apply (f_equal (map content)) in E.
  rewrite build_result_contents in E; simpl in E.
  apply map_eq_nil in E.
  apply Exists_exists in H as (p & Hp & Ht).
  assert (In p (filter (fun p => truthy (strip p)) chunks))
    by (apply filter_In; auto).
  rewrite E in H; destruct H.
Qed.

(** ** The properties of the chunker *)

(** C4 (as stated, refuted).  One sentence of 351 characters, with no
    terminator inside it, for a limit of 300: no chunk equals the sentence,
    it is cut at the hard edge of the window. *)
Lemma long_sentence_is_cut :
  let self := mkChunkerAgent 300 50 in
  let sentence := repeat "a"%char 350 ++ L "." in
  (chunk_size self < len sentence)%Z
  /\ (forall point, In point break_points -> contains sentence point = false)
  /\ exists chunks,
       chunk_document self sentence (L "policy") = Some chunks
       /\ map content chunks
          = [repeat "a"%char 300; repeat "a"%char 100 ++ L "."]
       /\ ~ In sentence (map content chunks).
Proof.
  split; [vm_compute; reflexivity|].
  split.
  - intros point H; repeat (destruct H as [<-|H]; [vm_compute; reflexivity|]).
    destruct H.
  - eexists; split; [vm_compute; reflexivity|].
    split; [vm_compute; reflexivity|].
    intros [H|[H|[]]]; apply (f_equal (@length ascii)) in H;
      vm_compute in H; discriminate.
Qed.

(** C4 (amended).  With a well-configured agent every chunk of
    [chunk_document] has a content of at most [chunk_size] characters, with
    no exception for long sentences: a section within the limit passes
    through unchanged, and every piece of [_split_large_section] respects
    the limit. *)
Theorem chunks_within_limit (self : ChunkerAgent) (T dt : str) :
  well_configured self ->
  exists chunks,
    chunk_document self T dt = Some chunks
    /\ Forall (fun c => (len (content c) <= chunk_size self)%Z) chunks
    /\ (forall section,
          (len section <= chunk_size self)%Z ->
          section_pieces self section = Some [section])
    /\ (forall section,
          exists pieces,
            _split_large_section self section = Some pieces
            /\ Forall (fun p => (len p <= chunk_size self)%Z) pieces).
Proof.
  intros C.
  assert (P3 : forall section,
             (len section <= chunk_size self)%Z ->
             section_pieces self section = Some [section]).
  { intros section H; unfold section_pieces.
    now replace (len section <=? chunk_size self)%Z with true
      by (symmetry; apply Z.leb_le; exact H). }
  assert (P4 : forall section,
             exists pieces,
               _split_large_section self section = Some pieces
               /\ Forall (fun p => (len p <= chunk_size self)%Z) pieces).
  { intros section.
    destruct (split_large_section_returns C section) as (pieces & E).
    exists pieces; split; [exact E|].
    destruct C as [Hov Hcs].
    exact (split_loop_bounded self Hov Hcs section _ (Z.le_refl 0) E). }
  destruct (Z.lt_ge_cases (len (strip T)) 10) as [H|H].
  - exists []; rewrite chunk_document_short by auto.
    repeat split; auto.
  - destruct (section_groups_spec C (split_sections (strip T)))
      as (groups & _ & G2 & _ & G4).
    exists (build_result dt (concat groups)); repeat split; auto.
    + rewrite chunk_document_long by exact H.
      unfold intelligent_chunk; now rewrite G2.
    + apply Forall_forall; intros c Hc.
      apply build_result_origin in Hc as (p & Hp & _ & -> & _).
      apply in_concat in Hp as (g & Hg & Hp).
      rewrite Forall_forall in G4; specialize (G4 g Hg).
      rewrite Forall_forall in G4; specialize (G4 p Hp).
      unfold within_limit in G4; pose proof (len_strip p); lia.
Qed.

(** The amended C4 at the sentence of the counterexample. *)
Lemma chunks_within_limit_witness :
  let self := mkChunkerAgent 300 50 in
  let T := repeat "a"%char 350 ++ L "." in
  exists chunks,
    chunk_document self T (L "policy") = Some chunks
    /\ Forall (fun c => (len (content c) <= chunk_size self)%Z) chunks
    /\ (forall section,
          (len section <= chunk_size self)%Z ->
          section_pieces self section = Some [section])
    /\ (forall section,
          exists pieces,
            _split_large_section self section = Some pieces
            /\ Forall (fun p => (len p <= chunk_size self)%Z) pieces).
Proof.
  apply (@chunks_within_limit (mkChunkerAgent 300 50)).
  unfold well_configured; simpl; lia.
Defined.

(** C5.  With [0 <= overlap <= chunk_size - 200], [_split_large_section]
    returns, and for every two adjacent pieces the last [overlap]
    characters of the first are the first [overlap] characters of the
    second ([overlap] characters exactly); the last piece runs to the end
    of the section. *)
Theorem adjacent_pieces_share_overlap (self : ChunkerAgent) (section : str) :
  (0 <= overlap self <= chunk_size self - 200)%Z ->
  exists pieces,
    _split_large_section self section = Some pieces
    /\ (forall i p q,
          nth_error pieces i = Some p -> nth_error pieces (S i) = Some q ->
          trailing (overlap self) p = leading (overlap self) q
          /\ len (leading (overlap self) q) = overlap self)
    /\ (pieces <> [] -> exists k : nat, last pieces [] = skipn k section).
Proof.
  intros H.
  assert (Hov : (0 <= overlap self)%Z) by lia.
  assert (Hcs : (overlap self + 200 <= chunk_size self)%Z) by lia.
  destruct (@split_large_section_returns self (conj Hov Hcs) section)
    as (pieces & E).
  exists pieces; split; [exact E|].
  unfold _split_large_section in E; split.
  - intros i p q Hp Hq.
    pose proof (split_loop_chain self Hov Hcs section _ (Z.le_refl 0) E) as C.
    change (shares_overlap self p q).
    eapply chain_nth_error; eassumption.
  - exact (split_loop_suffix self Hov Hcs section _ (Z.le_refl 0) E).
Qed.

(** C5 at a section of 602 characters, cut after its one sentence end and
    then at the hard edge. *)
Lemma adjacent_pieces_share_overlap_witness :
  let self := mkChunkerAgent 300 50 in
  let section := repeat "a"%char 250 ++ L ". " ++ repeat "b"%char 350 in
  exists pieces,
    _split_large_section self section = Some pieces
    /\ (forall i p q,
          nth_error pieces i = Some p -> nth_error pieces (S i) = Some q ->
          trailing (overlap self) p = leading (overlap self) q
          /\ len (leading (overlap self) q) = overlap self)
    /\ (pieces <> [] -> exists k : nat, last pieces [] = skipn k section).
Proof.
  apply (@adjacent_pieces_share_overlap (mkChunkerAgent 300 50)).
  simpl; lia.
Defined.

Lemma find_break_without_terminator (n : nat) (start end_ : Z) :
  (199 <= n)%nat ->
  find_break break_points (repeat "a"%char n) start end_ = end_.
Proof.
  intros Hn.
  assert (R : forall point,
            In point break_points ->
            rfind (repeat "a"%char n) point = (-1)%Z).
  { intros point H; unfold rfind.
    assert (G : forall i best,
              rfind_from point (repeat "a"%char n) i best = best).
    { clear Hn; induction n as [|n IH]; intros i best;
        repeat (destruct H as [<-|H]; [cbn [rfind_from repeat];
                                       try rewrite IH; reflexivity|]);
        destruct H. }
    apply G. }
  unfold break_points in *.
  cbn [find_break].
  rewrite !R by (simpl; tauto).
  unfold len; rewrite repeat_length.
  destruct (Z.gtb_spec (-1) (Z.of_nat n - 200)); [lia|reflexivity].
Qed.

(** C6 (as stated, refuted).  An agent whose overlap is the whole window
    (300 and 300) and a text of 400 letters: every iteration cuts the
    first 300 characters and starts again at 0, so the loop of
    [_split_large_section] does not end, whatever the number of
    iterations allowed, and [chunk_document] has no list of chunks to
    return.  (In the program the list of pieces grows until memory runs
    out, and the handler of [chunk_document] then returns the empty list:
    for a text of 400 characters.) *)
Lemma whole_window_overlap_never_advances :
  let self := mkChunkerAgent 300 300 in
  let T := repeat "a"%char 400 in
  (T <> [] /\ (10 <= len (strip T))%Z)
  /\ (forall fuel, split_loop self fuel T 0 = None)
  /\ (forall dt, chunk_document self T dt = None).
Proof.
  cbv zeta.
  assert (Hs : strip (repeat "a"%char 400) = repeat "a"%char 400)
    by (vm_compute; reflexivity).
  assert (N : forall fuel,
            split_loop (mkChunkerAgent 300 300) fuel (repeat "a"%char 400) 0
            = None).
  { induction fuel as [|fuel IH]; [reflexivity|].
    cbn [split_loop chunk_size overlap].
    change (len (repeat "a"%char 400)) with 400%Z.
    change (slice (repeat "a"%char 400) 0 (0 + 300))
      with (repeat "a"%char 300).
    rewrite find_break_without_terminator by lia.
    change (0 + 300 - 300)%Z with 0%Z.
    cbn [Z.ltb Z.geb Z.compare Pos.compare Pos.compare_cont negb Z.add].
    now rewrite IH. }
  split; [split; [discriminate|rewrite Hs; vm_compute; discriminate]|].
  split; [exact N|].
  intros dt; rewrite chunk_document_long
    by (rewrite Hs; vm_compute; discriminate).
  rewrite Hs.
  change (intelligent_chunk (mkChunkerAgent 300 300) (repeat "a"%char 400))
    with (enforce_size (mkChunkerAgent 300 300) [repeat "a"%char 400]).
  cbn [enforce_size]; unfold section_pieces; cbn [chunk_size].
  change (len (repeat "a"%char 400) <=? 300)%Z with false.
  unfold _split_large_section; now rewrite N.
Qed.

(** C6 (amended).  With a well-configured agent [chunk_document] returns
    a list for every text, and the list is empty exactly when the text is
    empty or its stripped length is under 10; five whitespace characters
    give the empty list. *)
Theorem chunk_document_empty_only_when_short
    (self : ChunkerAgent) (T dt : str) :
  well_configured self ->
  (exists chunks,
     chunk_document self T dt = Some chunks
     /\ (chunks = [] <-> T = [] \/ (len (strip T) < 10)%Z))
  /\ chunk_document self (L "     ") dt = Some [].
Proof.
  intros C; split; [|reflexivity].
  destruct (Z.lt_ge_cases (len (strip T)) 10) as [H|H].
  - exists []; rewrite chunk_document_short by auto; split; tauto.
  - destruct (section_groups_spec C (split_sections (strip T)))
      as (groups & _ & G2 & G3 & _).
    exists (build_result dt (concat groups)); split.
    + rewrite chunk_document_long by exact H.
      unfold intelligent_chunk; now rewrite G2.
    + split; [|intros [->|H']; [change (len (strip [])) with 0%Z in H|]; lia].
      intros E; exfalso; revert E.
      apply build_result_nonempty.
      assert (V : visible (concat (split_sections (strip T))) <> []).
      { rewrite visible_split_sections, visible_strip.
        apply strip_truthy_iff.
        destruct (strip T); [change (len []) with 0%Z in H; lia|reflexivity]. }
      rewrite <- G3 in V.
      apply visible_concat_nonempty, Exists_exists in V as (s & Hs & V).
      apply in_map_iff in Hs as (g & <- & Hg).
      apply visible_unoverlap_nonempty in V.
      apply Exists_exists in V as (p & Hp & Ht).
      apply Exists_exists; exists p; split; [|exact Ht].
      apply in_concat; eauto.
Qed.

(** C6 with the default agent. *)
Lemma chunk_document_empty_only_when_short_witness :
  let T := L "aaaaaaaaaa" ++ [nl; nl] ++ L "Section bbbbbbbbbb" in
  (exists chunks,
     chunk_document default_agent T (L "policy") = Some chunks
     /\ (chunks = [] <-> T = [] \/ (len (strip T) < 10)%Z))
  /\ chunk_document default_agent (L "     ") (L "policy") = Some [].
Proof.
  apply (@chunk_document_empty_only_when_short default_agent).
  unfold well_configured; simpl; lia.
Defined.

(** What [chunk_document] gives every chunk: a content that is not blank,
    and a [char_count] that is the length of the piece before it is
    stripped, so at least the length of the content. *)
Lemma chunk_fields (self : ChunkerAgent) (T dt : str) (chunks : list Chunk)
    (c : Chunk) :
  chunk_document self T dt = Some chunks -> In c chunks ->
  truthy (strip (content c)) = true
  /\ exists piece,
       content c = strip piece /\ char_count c = len piece
       /\ (len (content c) <= char_count c)%Z.
Proof.
  intros E Hc.
  destruct (Z.lt_ge_cases (len (strip T)) 10) as [H|H].
  - rewrite chunk_document_short in E by auto.
    injection E as <-; destruct Hc.
  - rewrite chunk_document_long in E by exact H.
    destruct (intelligent_chunk self (strip T)) as [pieces|]; [|discriminate].
    injection E as <-.
    apply build_result_origin in Hc as (p & _ & Ht & Hcontent & Hcount).
    split.
    + apply strip_truthy_iff; rewrite Hcontent, visible_strip.
      now apply strip_truthy_iff.
    + exists p; rewrite Hcontent, Hcount; repeat split.
      apply len_strip.
Qed.

(** C7 (the code at the failing input).  The first piece ends with the
    newline left in front of the marker: its content is stripped to 10
    characters, its [char_count] is the 11 of the unstripped piece. *)
Theorem char_count_counts_the_unstripped_piece :
  let T := L "aaaaaaaaaa" ++ [nl; nl] ++ L "Section bbbbbbbbbb" in
  chunk_document default_agent T (L "policy")
  = Some [ {| chunk_id := 1; content := L "aaaaaaaaaa";
              doc_type := L "policy"; char_count := 11;
              estimated_tokens := 2 |};
           {| chunk_id := 2; content := L "Section bbbbbbbbbb";
              doc_type := L "policy"; char_count := 18;
              estimated_tokens := 4 |} ].
Proof. vm_compute; reflexivity. Qed.

End ChunkerProofs.

(** ** The extractor *)

Section ExtractorProofs.

Import Extractor.

Lemma slice_prefix (s : str) (n : Z) :
  (0 <= n)%Z -> slice s 0 n = firstn (Z.to_nat n) s.
Proof.
  intros H; unfold slice, clamp_index.
  pose proof (len_nonneg s).
  replace (0 <? 0)%Z with false by reflexivity.
  replace (n <? 0)%Z with false by (symmetry; apply Z.ltb_ge; exact H).
  rewrite (Z.min_l 0) by lia; cbn [Z.to_nat skipn].
  rewrite Z.sub_0_r.
  destruct (Z.le_gt_cases n (len s)) as [G|G].
  - now rewrite (Z.min_l n) by lia.
  - rewrite (Z.min_r n) by lia.
    unfold len in *; rewrite !firstn_all2 by lia; reflexivity.
Qed.

(** *** The assessment *)

Lemma special_without_underscore (c : ascii) :
  c <> "_"%char -> Re.is_special c = special_as_specified c.
Proof.
  intros H; unfold Re.is_special, Re.is_word, special_as_specified.
  replace (Ascii.eqb c "_") with false
    by (symmetry; apply Ascii.eqb_neq; exact H).
  now rewrite orb_false_r.
Qed.

(** C8 (as stated, refuted).  The underscore is outside the alphanumerics,
    whitespace and [.,!?;:-], but [\w] matches it: on the text ["_"] the
    code counts no special character, scores 30 and flags nothing, where
    the formula as specified gives a ratio of 1, a score of -70 and the
    corrupted flag. *)
Lemma underscore_is_not_counted :
  special_as_specified "_"%char = true
  /\ Re.is_special "_"%char = false
  /\ assessed (L "_") = (30%float, false, false)
  /\ specified_assessment special_as_specified (L "_")
     = ((-70)%float, false, true)
  /\ assessed (L "_") <> specified_assessment special_as_specified (L "_").
Proof.
  assert (A : assessed (L "_") = (30%float, false, false))
    by (vm_compute; reflexivity).
  assert (B : specified_assessment special_as_specified (L "_")
              = ((-70)%float, false, true))
    by (vm_compute; reflexivity).
  repeat split; try reflexivity; try assumption.
  rewrite A, B; intros H.
  apply (f_equal snd) in H; discriminate.
Qed.

(** C8 (amended).  For every text the score and the two flags of
    [_assess_content_quality] are those of the formula, with the special
    characters those outside the word characters (the alphanumerics and
    the underscore), whitespace and [.,!?;:-]; on a text with no
    underscore this is the formula as specified. *)
Theorem assessment_follows_the_formula (content : str) :
  assessed content = specified_assessment Re.is_special content
  /\ (forall c,
        Re.is_special c
        = negb (isalnum c || Ascii.eqb c "_"%char || isspace c
                || existsb (Ascii.eqb c) (L ".,!?;:-")))
  /\ (~ In "_"%char content ->
      assessed content = specified_assessment special_as_specified content).
Proof.
  assert (E : assessed content = specified_assessment Re.is_special content).
  { unfold assessed, specified_assessment, _assess_content_quality.
    cbn [quality_score needs_splitting likely_corrupted].
    unfold special_char_ratio, Re.findall_special.
    rewrite (Z.mul_comm 10), (Z.mul_comm 5); reflexivity. }
  split; [exact E|split; [reflexivity|]].
  intros H; rewrite E; unfold specified_assessment.
  replace (filter special_as_specified content)
    with (filter Re.is_special content); [reflexivity|].
  apply filter_ext_in; intros c Hc.
  apply special_without_underscore; intros ->; exact (H Hc).
Qed.

(** The amended C8 at a sentence with no underscore. *)
Lemma assessment_follows_the_formula_witness :
  let content := L "Dividends were paid in March." in
  assessed content = specified_assessment Re.is_special content
  /\ (forall c,
        Re.is_special c
        = negb (isalnum c || Ascii.eqb c "_"%char || isspace c
                || existsb (Ascii.eqb c) (L ".,!?;:-")))
  /\ assessed content = specified_assessment special_as_specified content.
Proof.
  destruct (assessment_follows_the_formula (L "Dividends were paid in March."))
    as (A & B & C).
  split; [exact A|split; [exact B|]].
  apply C; intros H.
  repeat (destruct H as [H|H]; [discriminate H|]); exact H.
Defined.

Context {ext : Externals}.

(** *** The pattern fallback *)



Lemma fallback_body_aggressive (retry : list Requirement) (text : str)
    (chunk_id : chunk_ref) :
  fallback_body true retry text chunk_id <> [].
Proof.
  unfold fallback_body.
  destruct (fallback_scan aggressive_patterns text chunk_id); discriminate.
Qed.

Lemma fallback_nonempty (text : str) (chunk_id : chunk_ref)
    (aggressive : bool) :
  _extract_fallback_requirements text chunk_id aggressive <> [].
Proof.
  unfold _extract_fallback_requirements.
  destruct aggressive; [apply fallback_body_aggressive|].
  unfold fallback_body at 1.
  destruct (fallback_scan standard_patterns text chunk_id);
    [apply fallback_body_aggressive|discriminate].
Qed.


(** *** The parsing cascade *)

Lemma alternative_empty (response_text : str) (chunk_id : chunk_ref) :
  _alternative_json_parsing response_text chunk_id = [] ->
  structured_but_rejected response_text chunk_id.
Proof.
  unfold _alternative_json_parsing; intros H.
  destruct (alternative_candidates chunk_id _) as [|candidate candidates] eqn:E.
  - now apply fallback_nonempty in H.
  - destruct
      (_validate_enhanced_requirements (candidate :: candidates) chunk_id)
      as [validated|e] eqn:V.
    + subst validated; right; exists candidate, candidates; split; assumption.
    + now apply fallback_nonempty in H.
Qed.

(** The cascade returns no record only from structured JSON whose
    candidates are all rejected. *)
Lemma parse_empty (response_text : str) (chunk_id : chunk_ref) :
  _parse_enhanced_json_response response_text chunk_id = Ok [] ->
  structured_but_rejected response_text chunk_id.
Proof.
  unfold _parse_enhanced_json_response; intros H.
  destruct (json_loads (_clean_json_response response_text))
    as [parsed|e] eqn:J.
  - destruct parsed as [| | | | | |d];
      try (injection H as H; now apply alternative_empty).
    destruct (dict_get d (L "requirements")) as [v|] eqn:D;
      [|injection H as H; now apply alternative_empty].
    destruct v as [| | | | |requirements|];
      try (injection H as H; now apply alternative_empty).
    left; exists d, requirements; repeat split; assumption.
  - destruct e; try discriminate.
    injection H as H; now apply alternative_empty.
Qed.

(** *** [extract_requirements] *)

Lemma extract_requirements_unfold (depth : nat) (chunk : ChunkDict)
    (calls : nat) :
  extract_requirements depth chunk calls
  = let content := get_content chunk in
    let chunk_id := get_chunk_id chunk in
    if negb (truthy (strip content)) then Some ([], calls)
    else
      let processed_content := _preprocess_content content in
      let quality_assessment := _assess_content_quality processed_content in
      if likely_corrupted quality_assessment then
        Some (_extract_fallback_requirements processed_content chunk_id true,
              calls)
      else if needs_splitting quality_assessment then
        match depth with
        | O => None
        | S depth' =>
            process_large_chunk_with (extract_requirements depth')
              processed_content chunk_id calls
        end
      else
        match
          attempt_loop [0%Z; 1%Z]
            (_create_enhanced_extraction_prompt processed_content chunk_id
               quality_assessment) chunk_id calls
        with
        | (Ok requirements, calls') => Some (requirements, calls')
        | (Raise e, calls') =>
            Some (_create_error_fallback chunk (str_of_exn e), calls')
        end.
Proof. destruct depth; reflexivity. Qed.

(** A chunk sent to the model: the result is what the two attempts give. *)
Lemma extract_requirements_sent (depth : nat) (chunk : ChunkDict)
    (calls : nat) :
  sent_to_model chunk ->
  extract_requirements depth chunk calls
  = match attempt_loop [0%Z; 1%Z] (prompt_of chunk) (get_chunk_id chunk) calls
    with
    | (Ok requirements, calls') => Some (requirements, calls')
    | (Raise e, calls') =>
        Some (_create_error_fallback chunk (str_of_exn e), calls')
    end.
Proof.
  intros (H1 & H2 & H3).
  rewrite extract_requirements_unfold; cbv zeta.
  rewrite H1, H2, H3; reflexivity.
Qed.

(** C3.  For a chunk sent to the model, when the call of the model fails on
    both attempts, [extract_requirements] returns -- it has nothing to
    raise -- exactly one record, tagged [error_fallback], of category
    [error], that carries the chunk id, the message of the second failure
    and the first 200 characters of the content; the model was called
    twice. *)
Theorem two_failures_give_one_error_record (depth : nat) (chunk : ChunkDict)
    (calls : nat) (e0 e1 : exn) :
  sent_to_model chunk ->
  llm_invoke calls _get_enhanced_system_prompt (prompt_of chunk) = Raise e0 ->
  llm_invoke (S calls) _get_enhanced_system_prompt (prompt_of chunk)
  = Raise e1 ->
  exists record,
    extract_requirements depth chunk calls = Some ([record], S (S calls))
    /\ extraction_method record = L "error_fallback"
    /\ category record = VStr (L "error")
    /\ chunk_id record = get_chunk_id chunk
    /\ error record = Some (str_of_exn e1)
    /\ requirement record
       = L "EXTRACTION ERROR - Manual review required: " ++ str_of_exn e1
         ++ L ". Content preview: " ++ firstn 200 (get_content chunk)
         ++ L "...".
Proof.
  intros Sent H0 H1.
  rewrite (extract_requirements_sent depth calls Sent).
  cbn [attempt_loop]; rewrite H0.
  change (0 =? 1)%Z with false; cbv iota.
  rewrite H1.
  change (1 =? 1)%Z with true; cbv iota.
  unfold _create_error_fallback.
  eexists; split; [reflexivity|].
  cbn [extraction_method category chunk_id error requirement].
  rewrite slice_prefix by lia.
  repeat split.
Qed.

(** C2 (amended).  [extract_requirements] returns the empty list on a
    blank content.  On any other content: a chunk flagged corrupted gives
    at least one record; a chunk sent to the model gives a result, and an
    empty one only when the reply of the second attempt is structured JSON
    whose candidates validation all rejects; a chunk to split gives what
    [_process_large_chunk] makes of its sub-chunks. *)
Theorem extract_requirements_empty_cases (depth : nat) (chunk : ChunkDict)
    (calls : nat) :
  let content := get_content chunk in
  let processed := _preprocess_content content in
  let quality := _assess_content_quality processed in
  (truthy (strip content) = false ->
   extract_requirements depth chunk calls = Some ([], calls))
  /\ (truthy (strip content) = true -> likely_corrupted quality = true ->
      exists record records,
        extract_requirements depth chunk calls
        = Some (record :: records, calls))
  /\ (sent_to_model chunk ->
      exists records calls',
        extract_requirements depth chunk calls = Some (records, calls')
        /\ (records = [] ->
            exists response,
              llm_invoke (S calls) _get_enhanced_system_prompt
                (prompt_of chunk) = Ok response
              /\ structured_but_rejected (strip response)
                   (get_chunk_id chunk)))
  /\ (truthy (strip content) = true -> likely_corrupted quality = false ->
      needs_splitting quality = true ->
      extract_requirements (S depth) chunk calls
      = _process_large_chunk depth processed (get_chunk_id chunk) calls).
Proof.
  intros content processed quality; subst content processed quality.
  repeat split.
  - intros H; rewrite extract_requirements_unfold; cbv zeta.
    now rewrite H.
  - intros H1 H2; rewrite extract_requirements_unfold; cbv zeta.
    rewrite H1, H2; cbn [negb].
    pose proof (@fallback_nonempty
                  (_preprocess_content (get_content chunk))
                  (get_chunk_id chunk) true) as N.
    destruct (_extract_fallback_requirements _ _ true) as [|record records];
      [congruence|eauto].
  - intros Sent; rewrite (extract_requirements_sent depth calls Sent).
    cbn [attempt_loop].
    assert (Second :
      exists records calls',
        match
          match
            llm_invoke (S calls) _get_enhanced_system_prompt (prompt_of chunk)
          with
          | Ok response_content =>
              match
                _parse_enhanced_json_response (strip response_content)
                  (get_chunk_id chunk)
              with
              | Ok requirements =>
                  match requirements with
                  | [] =>
                      if (1 =? 1)%Z then (Ok requirements, S (S calls))
                      else (Ok [], S (S calls))
                  | _ :: _ => (Ok requirements, S (S calls))
                  end
              | Raise e =>
                  if (1 =? 1)%Z then (Raise e, S (S calls))
                  else (Ok [], S (S calls))
              end
          | Raise e =>
              if (1 =? 1)%Z then (Raise e, S (S calls))
              else (Ok [], S (S calls))
          end
        with
        | (Ok requirements, calls') => Some (requirements, calls')
        | (Raise e, calls') =>
            Some (_create_error_fallback chunk (str_of_exn e), calls')
        end = Some (records, calls')
        /\ (records = [] ->
            exists response,
              llm_invoke (S calls) _get_enhanced_system_prompt
                (prompt_of chunk) = Ok response
              /\ structured_but_rejected (strip response)
                   (get_chunk_id chunk))).
    { change (1 =? 1)%Z with true; cbv iota.
      destruct (llm_invoke (S calls) _ _) as [response|e] eqn:L1.
      - destruct (_parse_enhanced_json_response (strip response) _)
          as [requirements|e] eqn:P1.
        + destruct requirements as [|r rs].
          * do 2 eexists; split; [reflexivity|].
            intros _; exists response; split; [reflexivity|].
            now apply parse_empty.
          * do 2 eexists; split; [reflexivity|discriminate].
        + do 2 eexists; split; [reflexivity|discriminate].
      - do 2 eexists; split; [reflexivity|discriminate]. }
    change (0 =? 1)%Z with false; cbv iota.
    destruct (llm_invoke calls _ _) as [response|e] eqn:L0; [|exact Second].
    destruct (_parse_enhanced_json_response (strip response) _)
      as [requirements|e] eqn:P0; [|exact Second].
    destruct requirements as [|r rs]; [exact Second|].
    do 2 eexists; split; [reflexivity|discriminate].
  - intros H1 H2 H3; rewrite extract_requirements_unfold; cbv zeta.
    rewrite H1, H2, H3; reflexivity.
Qed.

(** *** Termination *)

Lemma sub_chunk_loop_returns
    (extract : ChunkDict -> nat -> option (list Requirement * nat))
    (parent : chunk_ref) (sub_chunks : list (Z * str)) (calls : nat) :
  (forall i sub_chunk chunk_id calls,
     In (i, sub_chunk) sub_chunks ->
     exists result,
       extract {| chunk_content := Some sub_chunk;
                  chunk_chunk_id := Some chunk_id |} calls = Some result) ->
  exists result, sub_chunk_loop extract parent sub_chunks calls = Some result.
Proof.
  revert calls; induction sub_chunks as [|[i sub_chunk] rest IH];
    intros calls H; [simpl; eauto|].
  cbn [sub_chunk_loop].
  destruct (H i sub_chunk
              (IdStr (format_id parent ++ L "_SUB" ++ str_of_int (i + 1)))
              calls (or_introl eq_refl)) as ([rs calls'] & ->).
  destruct (IH calls') as ([all calls''] & ->); [|eauto].
  intros j s c k Hin; apply (H j s c k); right; exact Hin.
Qed.

Lemma in_enumerate_from (A : Type) (l : list A) (i j : Z) (x : A) :
  In (j, x) (enumerate_from i l) -> In x l.
Proof.
  revert i; induction l as [|a l IH]; intros i H; [destruct H|].
  destruct H as [H|H]; [injection H as _ ->; now left|right; eauto].
Qed.

End ExtractorProofs.

(** ** The properties of the extractor at concrete inputs *)

Section ExtractorExamples.

Import Extractor Doubles.

Lemma sent_paid_dividends (ext : Externals) :
  @re_sub ext = (fun _ _ _ s => s) ->
  @sent_to_model ext paid_dividends.
Proof.
  intros E; unfold sent_to_model, _preprocess_content.
  rewrite E; vm_compute; repeat split.
Qed.

(** C2 (as stated, refuted).  A chunk of one plain sentence, a model that
    answers both attempts with an object whose [requirements] array is
    empty: the content is not blank and [extract_requirements] returns the
    empty list, after two calls of the model. *)
Lemma empty_requirements_array_gives_no_record :
  truthy (strip (get_content paid_dividends)) = true
  /\ @extract_requirements finds_nothing 0 paid_dividends 0 = Some ([], 2%nat).
Proof. split; vm_compute; reflexivity. Qed.

(** The amended C2 at the chunk of the counterexample: the empty result
    comes from structured JSON. *)
Lemma extract_requirements_empty_cases_witness :
  exists records calls',
    @extract_requirements finds_nothing 0 paid_dividends 0
    = Some (records, calls')
    /\ (records = [] ->
        exists response,
          @llm_invoke finds_nothing 1 (@_get_enhanced_system_prompt)
            (@prompt_of finds_nothing paid_dividends) = Ok response
          /\ @structured_but_rejected finds_nothing (strip response)
               (get_chunk_id paid_dividends)).
Proof.
  apply (proj1 (proj2 (proj2
    (@extract_requirements_empty_cases finds_nothing 0 paid_dividends 0)))).
  apply sent_paid_dividends; reflexivity.
Defined.

(** C3 at a chunk of one sentence, with a model that is down. *)
Lemma two_failures_give_one_error_record_witness :
  exists record,
    @extract_requirements always_failing 0 paid_dividends 0
    = Some ([record], 2%nat)
    /\ extraction_method record = L "error_fallback"
    /\ category record = VStr (L "error")
    /\ chunk_id record = get_chunk_id paid_dividends
    /\ error record = Some (L "503 Service Unavailable")
    /\ requirement record
       = L "EXTRACTION ERROR - Manual review required: "
         ++ L "503 Service Unavailable"
         ++ L ". Content preview: " ++ firstn 200 (get_content paid_dividends)
         ++ L "...".
Proof.
  apply (@two_failures_give_one_error_record always_failing 0 paid_dividends 0
           (OtherException (L "503 Service Unavailable"))
           (OtherException (L "503 Service Unavailable"))).
  - apply sent_paid_dividends; reflexivity.
  - reflexivity.
  - reflexivity.
Defined.


Lemma many_words_not_blank : truthy (strip many_words) = true.
Proof. vm_compute; reflexivity. Qed.

Lemma many_words_not_corrupted :
  likely_corrupted (_assess_content_quality many_words) = false.
Proof. vm_compute; reflexivity. Qed.

Lemma many_words_to_split :
  needs_splitting (_assess_content_quality many_words) = true.
Proof. vm_compute; reflexivity. Qed.

End ExtractorExamples.

(** ** Further properties: the chunker, the extractor, the workflow *)

Import Shapes.

Section StripFacts.

Lemma lstrip_head (s : str) :
  lstrip s = [] \/ exists c t, lstrip s = c :: t /\ isspace c = false.
Proof.
  unfold lstrip; induction s as [|c s IH]; [now left|].
  cbn [dropWhile]; destruct (isspace c) eqn:E; [exact IH|].
  right; eauto.
Qed.

Lemma rstrip_head (c : ascii) (t : str) :
  isspace c = false -> exists kept, rstrip (c :: t) = c :: kept.
Proof.
  intros E; cbn [rstrip]; rewrite E.
  destruct (rstrip t); eauto.
Qed.

Lemma rstrip_idem (s : str) : rstrip (rstrip s) = rstrip s.
Proof.
  induction s as [|c s IH]; [reflexivity|].
  cbn [rstrip].
  destruct (rstrip s) as [|k ks] eqn:R.
  - destruct (isspace c) eqn:E; [reflexivity|].
    cbn [rstrip]; now rewrite E.
  - change (rstrip (c :: k :: ks))
      with (match rstrip (k :: ks) with
            | [] => if isspace c then [] else [c]
            | kept => c :: kept
            end).
    now rewrite IH.
Qed.

Lemma lstrip_keeps (c : ascii) (t : str) :
  isspace c = false -> lstrip (c :: t) = c :: t.
Proof. intros E; unfold lstrip; cbn [dropWhile]; now rewrite E. Qed.

Lemma strip_idem (s : str) : strip (strip s) = strip s.
Proof.
  unfold strip.
  destruct (lstrip_head s) as [->|(c & t & -> & E)]; [reflexivity|].
  destruct (@rstrip_head c t E) as (kept & R).
  rewrite R, (@lstrip_keeps c kept E), <- R.
  apply rstrip_idem.
Qed.

End StripFacts.

Section OccurrenceFacts.

Lemma startswith_prefix (p b : str) : startswith (p ++ b) p = true.
Proof.
  induction p as [|c p IH]; [now destruct b|].
  simpl; now rewrite Ascii.eqb_refl.
Qed.

Lemma contains_true_iff (s sub : str) :
  contains s sub = true <-> exists a b, s = a ++ sub ++ b.
Proof.
  split.
  - induction s as [|c s IH]; cbn [contains]; intros H.
    + rewrite orb_false_r in H.
      exists [], (skipn (length sub) []); now apply startswith_app.
    + apply orb_true_iff in H; destruct H as [H|H].
      * exists [], (skipn (length sub) (c :: s)); now apply startswith_app.
      * destruct (IH H) as (a & b & ->); now exists (c :: a), b.
  - intros (a & b & ->); induction a as [|c a IH].
    + cbn [app].
      pose proof (startswith_prefix sub b) as P.
      destruct (sub ++ b); cbn [contains]; now rewrite P.
    + cbn [app contains]; rewrite IH; apply orb_true_r.
Qed.

Lemma contains_substring (a p b sub : str) :
  contains p sub = true -> contains (a ++ p ++ b) sub = true.
Proof.
  rewrite !contains_true_iff; intros (x & y & ->).
  exists (a ++ x), (y ++ b); now rewrite <- !app_assoc.
Qed.

Lemma prefix_before (c : ascii) (x p a y : str) :
  ~ In c x -> x ++ p = a ++ c :: y -> exists a', a = x ++ a'.
Proof.
  revert a; induction x as [|d x IH]; intros a N E; [now exists a|].
  destruct a as [|e a].
  - injection E as -> _; exfalso; apply N; now left.
  - injection E as -> E.
    destruct (IH a) as (a' & ->); [intros H; apply N; now right|exact E|].
    now exists a'.
Qed.

Lemma contains_after_prefix (x p rest : str) :
  ~ In nl x ->
  contains (x ++ p) (nl :: rest) = true -> contains p (nl :: rest) = true.
Proof.
  rewrite !contains_true_iff; intros N (a & b & E).
  destruct (@prefix_before _ _ _ _ _ N E) as (a' & ->).
  rewrite <- app_assoc in E; apply app_inv_head in E.
  now exists a', b.
Qed.

(** No part of [s.split(sep)] contains [sep]. *)
Lemma split_go_parts_free (n : nat) (sep s cur : str) :
  (length s <= n)%nat -> sep <> [] ->
  (forall a b, rev cur = a ++ b -> b <> [] ->
               startswith (b ++ s) sep = false) ->
  Forall (fun p => contains p sep = false) (split_go sep s 0 cur).
Proof.
  intros Hn Hsep; revert s cur Hn.
  assert (Head : forall s cur,
            (forall a b, rev cur = a ++ b -> b <> [] ->
                         startswith (b ++ s) sep = false) ->
            contains (rev cur) sep = false).
  { intros s cur H.
    destruct (contains (rev cur) sep) eqn:C; [|reflexivity].
    apply contains_true_iff in C; destruct C as (a & b & E).
    specialize (H a (sep ++ b) E).
    rewrite <- app_assoc, startswith_prefix in H.
    apply H; destruct sep; [congruence|discriminate]. }
  induction n as [|n IH]; intros s cur Hn H.
  - destruct s; [|simpl in Hn; lia].
    cbn [split_go]; repeat constructor; now apply (Head []).
  - destruct s as [|c s].
    + cbn [split_go]; repeat constructor; now apply (Head []).
    + cbn [split_go].
      destruct (startswith (c :: s) sep) eqn:E.
      * constructor; [now apply (Head (c :: s))|].
        pose proof (startswith_length _ _ E) as Hl; simpl in Hl.
        rewrite split_go_skip by lia.
        apply IH.
        -- rewrite length_skipn; simpl in Hn; lia.
        -- intros a b R; simpl in R.
           symmetry in R; apply app_eq_nil in R; destruct R; congruence.
      * apply IH; [simpl in Hn; lia|].
        intros a b R Hb.
        destruct (exists_last Hb) as (b0 & x & ->).
        simpl in R; rewrite app_assoc in R.
        apply app_inj_tail in R; destruct R as [R <-].
        rewrite <- app_assoc; cbn [app].
        destruct b0 as [|y b0]; [exact E|].
        apply H with (a := a); [exact R|discriminate].
Qed.

Lemma split_parts_free (s sep : str) :
  sep <> [] -> Forall (fun p => contains p sep = false) (split s sep).
Proof.
  intros H; apply (@split_go_parts_free (length s)); [lia|exact H|].
  intros a b R; simpl in R.
  symmetry in R; apply app_eq_nil in R; destruct R; congruence.
Qed.

Lemma in_join_substring (sep : str) (parts : list str) (p : str) :
  In p parts -> exists a b, join sep parts = a ++ p ++ b.
Proof.
  induction parts as [|x rest IH]; [easy|].
  destruct rest as [|y rest].
  - intros [->|[]]; exists [], []; simpl; now rewrite app_nil_r.
  - rewrite join_cons by discriminate.
    intros [->|H].
    + now exists [], (sep ++ join sep (y :: rest)).
    + destruct (IH H) as (a & b & ->).
      exists (x ++ sep ++ a), b; now rewrite <- !app_assoc.
Qed.

Lemma split_part_substring (s sep p : str) :
  sep <> [] -> In p (split s sep) -> exists a b, s = a ++ p ++ b.
Proof.
  intros Hs H.
  destruct (@in_join_substring sep _ _ H) as (a & b & E).
  rewrite join_split in E by exact Hs; eauto.
Qed.

End OccurrenceFacts.

Section ChunkerInvariants.

Import Chunker.

(** *** The structural split *)

Lemma reattach_marker_not_blank (marker : str) (ip : Z * str) :
  Forall (fun s => truthy (strip s) = true) (reattach_marker marker ip).
Proof.
  destruct ip as [i part]; unfold reattach_marker.
  destruct (truthy (strip _)) eqn:E; repeat constructor; exact E.
Qed.

Lemma split_on_marker_not_blank (marker section : str) :
  truthy (strip section) = true ->
  Forall (fun s => truthy (strip s) = true) (split_on_marker marker section).
Proof.
  intros H; unfold split_on_marker.
  destruct (contains section marker); [|now repeat constructor].
  apply Forall_flat_map, Forall_forall; intros ip _.
  apply reattach_marker_not_blank.
Qed.

Lemma fold_markers_not_blank (markers sections : list str) :
  Forall (fun s => truthy (strip s) = true) sections ->
  Forall (fun s => truthy (strip s) = true)
    (fold_left
       (fun sections marker => flat_map (split_on_marker marker) sections)
       markers sections).
Proof.
  revert sections; induction markers as [|m markers IH]; intros sections H;
    [exact H|].
  cbn [fold_left]; apply IH.
  apply Forall_flat_map; revert H; apply Forall_impl.
  intros s; apply split_on_marker_not_blank.
Qed.

Lemma markers_newline_led : Forall newline_led section_markers.
Proof.
  unfold section_markers.
  repeat constructor; try (eexists; reflexivity);
    vm_compute; intuition discriminate.
Qed.

Lemma reattach_marker_free (marker section : str) (known : list str) :
  newline_led marker -> (forall M, In M known -> newline_led M) ->
  (forall M, In M known -> contains section M = false) ->
  forall s M,
    In s (split_on_marker marker section) -> In M (marker :: known) ->
    contains s M = false.
Proof.
  intros [(m0 & Hm) Nm] Hk Hs s M Is IM.
  assert (Hne : marker <> []) by (rewrite Hm; discriminate).
  unfold split_on_marker in Is.
  destruct (contains section marker) eqn:C.
  - apply in_flat_map in Is; destruct Is as ([i part] & Ii & Is).
    assert (Ip : In part (split section marker)).
    { clear - Ii; unfold enumerate in Ii.
      generalize dependent 0%Z; induction (split section marker) as [|x l IH];
        intros z H; [easy|].
      destruct H as [H|H]; [injection H as _ ->; now left|right; eauto]. }
    assert (Free : contains part M = false).
    { destruct IM as [<-|IM].
      - pose proof (@split_parts_free section _ Hne) as F.
        rewrite Forall_forall in F; now apply F.
      - destruct (contains part M) eqn:P; [|reflexivity].
        destruct (@split_part_substring _ _ _ Hne Ip) as (a & b & E).
        rewrite <- (Hs M IM), E.
        symmetry; now apply contains_substring. }
    assert (LM : exists rest, M = nl :: rest).
    { destruct IM as [<-|IM]; [eauto|]. now destruct (Hk M IM). }
    destruct LM as (rest & ->).
    unfold reattach_marker in Is.
    destruct (truthy (strip _)); [|easy].
    destruct Is as [<-|[]].
    destruct (i >? 0)%Z; [|exact Free].
    destruct (contains (lstrip_chars [nl] marker ++ part) (nl :: rest)) eqn:P;
      [|reflexivity].
    apply contains_after_prefix in P; [congruence|exact Nm].
  - destruct Is as [<-|[]].
    destruct IM as [<-|IM]; [exact C|now apply Hs].
Qed.

Lemma fold_markers_free (todo known sections : list str) :
  Forall newline_led todo -> (forall M, In M known -> newline_led M) ->
  (forall s M, In s sections -> In M known -> contains s M = false) ->
  forall s M,
    In s (fold_left
            (fun sections marker => flat_map (split_on_marker marker) sections)
            todo sections) ->
    In M known \/ In M todo -> contains s M = false.
Proof.
  revert known sections; induction todo as [|m todo IH];
    intros known sections Ht Hk Hs s M Is IM.
  - destruct IM as [IM|[]]; now apply Hs.
  - inversion Ht as [|? ? Hm Ht']; subst.
    cbn [fold_left] in Is.
    refine (IH (m :: known) (flat_map (split_on_marker m) sections)
              Ht' _ _ s M Is _).
    + intros M' [<-|I']; [exact Hm|now apply Hk].
    + intros s' M' Is' IM'.
      apply in_flat_map in Is'; destruct Is' as (section & Isec & Is').
      apply (@reattach_marker_free m section known); auto.
    + destruct IM as [IM|[<-|IM]]; [left; now right|left; now left|now right].
Qed.

(** X1.  After the structural split of [intelligent_chunk] no section
    contains any of the seven markers: every occurrence of a marker has
    been used as a cut, and what is put back in front of a part (the
    marker without its leading newlines) cannot complete another one. *)
Theorem sections_contain_no_marker (content section marker : str) :
  In section (split_sections content) -> In marker section_markers ->
  contains section marker = false.
Proof.
  intros Is Im.
  apply (@fold_markers_free section_markers [] [content]) with (s := section);
    [exact markers_newline_led|easy|easy|exact Is|now right].
Qed.

Lemma sections_contain_no_marker_witness :
  let content :=
    L "Scope" ++ nl :: L "Section 1 Capital" ++ nl :: L "# Notes" in
  split_sections content = [L "Scope"; L "Section 1 Capital"; L "# Notes"]
  /\ contains (L "Section 1 Capital") (nl :: L "Section ") = false.
Proof.
  split; [reflexivity|].
  apply (@sections_contain_no_marker
           (L "Scope" ++ nl :: L "Section 1 Capital" ++ nl :: L "# Notes"));
    [right; left; reflexivity|right; left; reflexivity].
Defined.

(** X2.  The structural split of a text that is not blank gives at least
    one section, and no section that is empty or whitespace only. *)
Theorem sections_are_not_blank (content : str) :
  truthy (strip content) = true ->
  split_sections content <> []
  /\ Forall (fun s => truthy (strip s) = true) (split_sections content).
Proof.
  intros H; split.
  - intros E.
    apply strip_truthy_iff in H; apply H.
    now rewrite <- visible_split_sections, E.
  - apply fold_markers_not_blank; now repeat constructor.
Qed.

Lemma sections_are_not_blank_witness :
  let content :=
    L "Scope" ++ [nl; nl; nl] ++ L "   " ++ [nl; nl; nl] ++ L "End" in
  split_sections content = [L "Scope"; L "End"]
  /\ split_sections content <> []
  /\ Forall (fun s => truthy (strip s) = true) (split_sections content).
Proof.
  split; [reflexivity|].
  apply sections_are_not_blank; reflexivity.
Defined.

(** *** The size-bounded splitter *)

Lemma rfind_from_occurs (sub s : str) (i best : Z) :
  rfind_from sub s i best <> best ->
  startswith (skipn (Z.to_nat (rfind_from sub s i best - i)) s) sub = true.
Proof.
  revert i best; induction s as [|c s IH]; intros i best N.
  - cbn [rfind_from] in *.
    destruct (startswith [] sub) eqn:E; [|congruence].
    now rewrite Z.sub_diag.
  - cbn [rfind_from] in *.
    set (best' := if startswith (c :: s) sub then i else best) in *.
    destruct (Z.eq_dec (rfind_from sub s (i + 1) best') best') as [Q|Q].
    + rewrite Q in *; unfold best' in *.
      destruct (startswith (c :: s) sub) eqn:E; [|congruence].
      now rewrite Z.sub_diag.
    + pose proof (IH (i + 1)%Z best' Q) as H.
      destruct (rfind_from_range sub s (i + 1) best') as [R|R]; [congruence|].
      replace (Z.to_nat (rfind_from sub s (i + 1) best' - i))
        with (S (Z.to_nat (rfind_from sub s (i + 1) best' - (i + 1))))
        by lia.
      exact H.
Qed.

Lemma rfind_occurs (s sub : str) :
  (0 <= rfind s sub)%Z ->
  startswith (skipn (Z.to_nat (rfind s sub)) s) sub = true.
Proof.
  intros H; unfold rfind in *.
  rewrite <- (Z.sub_0_r (rfind_from sub s 0 (-1))) at 1.
  apply rfind_from_occurs; lia.
Qed.

Lemma find_break_cases (points : list str) (chunk : str) (start end_ : Z) :
  find_break points chunk start end_ = end_
  \/ exists point,
       In point points
       /\ (len chunk - 200 < rfind chunk point)%Z
       /\ find_break points chunk start end_
          = (start + rfind chunk point + len point)%Z.
Proof.
  induction points as [|point points IH]; [now left|].
  cbn [find_break].
  destruct (Z.gtb_spec (rfind chunk point) (len chunk - 200)) as [G|G].
  - right; exists point; repeat split; [now left|lia].
  - destruct IH as [IH|(p & I & G' & E)]; [now left|].
    right; exists p; repeat split; [now right|exact G'|exact E].
Qed.

Section Cuts.

Variable self : ChunkerAgent.
Hypothesis overlap_nonneg : (0 <= overlap self)%Z.
Hypothesis overlap_fits : (overlap self + 200 <= chunk_size self)%Z.

Variable section : str.

(** The piece of an iteration that is not the last fills the window, or
    ends with the terminator that decided the cut. *)
Lemma split_loop_step_ending (fuel : nat) (start : Z) :
  (0 <= start)%Z -> (start + chunk_size self < len section)%Z ->
  exists b : Z,
    (start + chunk_size self - 200 < b <= start + chunk_size self)%Z
    /\ (b = (start + chunk_size self)%Z
        \/ exists point,
             In point break_points
             /\ ends_with (firstn (Z.to_nat (b - start))
                             (skipn (Z.to_nat start) section)) point)
    /\ split_loop self (S fuel) section start
       = option_map
           (cons (firstn (Z.to_nat (b - start))
                    (skipn (Z.to_nat start) section)))
           (split_loop self fuel section (b - overlap self)).
Proof.
  intros H0 H1.
  set (chunk := slice section start (start + chunk_size self)).
  assert (Ec : chunk = firstn (Z.to_nat (chunk_size self))
                         (skipn (Z.to_nat start) section)).
  { unfold chunk; rewrite slice_in_range by lia; f_equal; lia. }
  assert (Hc : len chunk = chunk_size self).
  { rewrite Ec; unfold len in *; rewrite len_firstn_skipn; lia. }
  exists (find_break break_points chunk start (start + chunk_size self)).
  pose proof (@find_break_range break_points chunk start) as R.
  rewrite Hc in R; specialize (R ltac:(lia)).
  split; [exact R|split].
  - destruct (find_break_cases break_points chunk start
                (start + chunk_size self)) as [E|(point & I & G & E)];
      [now left|right].
    exists point; split; [exact I|].
    rewrite E in *.
    destruct (rfind_range chunk point) as [F|F]; [lia|].
    pose proof (rfind_occurs chunk point ltac:(lia)) as O.
    apply startswith_app in O.
    clearbody chunk.
    set (lo := rfind chunk point) in *; clearbody lo.
    exists (firstn (Z.to_nat lo) chunk).
    replace (Z.to_nat (start + lo + len point - start))
      with (Z.to_nat lo + length point)%nat by (unfold len; lia).
    transitivity (firstn (Z.to_nat lo + length point) chunk).
    { rewrite Ec, firstn_firstn; f_equal; unfold len in *; lia. }
    rewrite <- (firstn_skipn (Z.to_nat lo) chunk) at 1.
    rewrite firstn_app, length_firstn.
    replace (Nat.min (Z.to_nat lo) (length chunk))
      with (Z.to_nat lo) by (unfold len in *; lia).
    rewrite firstn_all2 by (rewrite length_firstn; lia).
    f_equal.
    replace (Z.to_nat lo + length point - Z.to_nat lo)%nat
      with (length point) by lia.
    rewrite O at 1.
    rewrite firstn_app, Nat.sub_diag, firstn_all; cbn [firstn].
    apply app_nil_r.
  - cbn [split_loop].
    replace (start <? len section)%Z with true
      by (symmetry; apply Z.ltb_lt; lia).
    replace (start + chunk_size self >=? len section)%Z with false
      by (symmetry; rewrite Z.geb_leb; apply Z.leb_gt; lia).
    cbn [negb]; fold chunk.
    now rewrite slice_in_range by lia.
Qed.

Lemma split_loop_nonempty (fuel : nat) (start : Z) (pieces : list str) :
  (0 <= start < len section)%Z ->
  split_loop self fuel section start = Some pieces -> pieces <> [].
Proof.
  intros H0 E; destruct fuel as [|fuel].
  - cbn [split_loop] in E.
    destruct (Z.ltb_spec start (len section)); [discriminate|lia].
  - destruct (@split_loop_cases self overlap_nonneg overlap_fits section
                fuel start ltac:(lia)) as [G|G|b G Hb].
    + lia.
    + injection E as <-; discriminate.
    + destruct (split_loop self fuel section (b - overlap self));
        [|discriminate].
      injection E as <-; discriminate.
Qed.

Lemma split_loop_pieces (fuel : nat) (start : Z) (pieces : list str) :
  (0 <= start)%Z ->
  split_loop self fuel section start = Some pieces ->
  Forall (fun p =>
            (chunk_size self - 200 < len p <= chunk_size self)%Z
            /\ (len p = chunk_size self
                \/ exists point, In point break_points /\ ends_with p point))
         (removelast pieces)
  /\ Forall (fun p => p <> []) pieces.
Proof.
  revert start pieces; induction fuel as [|fuel IH]; intros start pieces H0 E.
  - cbn [split_loop] in E.
    destruct (negb (start <? len section)%Z); [|discriminate].
    injection E as <-; split; constructor.
  - destruct (Z.le_gt_cases (len section) start) as [H|H].
    { rewrite split_loop_done in E by lia.
      injection E as <-; split; constructor. }
    destruct (Z.le_gt_cases (len section) (start + chunk_size self)) as [G|G].
    { rewrite (@split_loop_last self section fuel start) in E by lia.
      injection E as <-; split; repeat constructor.
      intros N; apply (f_equal (@length ascii)) in N.
      rewrite length_skipn in N; unfold len in *; simpl in N; lia. }
    destruct (@split_loop_step_ending fuel start H0 ltac:(lia))
      as (b & Hb & End & Eq).
    rewrite Eq in E.
    destruct (split_loop self fuel section (b - overlap self))
      as [rest|] eqn:R; [|discriminate].
    injection E as <-.
    destruct (IH (b - overlap self)%Z rest ltac:(lia) R) as [IH1 IH2].
    assert (Hr : rest <> []).
    { apply (@split_loop_nonempty fuel (b - overlap self)%Z); [lia|exact R]. }
    assert (Hl : len (firstn (Z.to_nat (b - start))
                        (skipn (Z.to_nat start) section))
                 = (b - start)%Z).
    { unfold len in *; rewrite len_firstn_skipn; lia. }
    split.
    + destruct rest as [|q rest]; [congruence|].
      change (removelast (?p :: q :: rest)) with (p :: removelast (q :: rest)).
      constructor; [|exact IH1].
      rewrite Hl; split; [lia|].
      destruct End as [->|End]; [left; lia|now right].
    + constructor; [|exact IH2].
      intros N; rewrite N in Hl; unfold len in Hl; simpl in Hl; lia.
Qed.

End Cuts.

(** X3.  Of the pieces [_split_large_section] returns (with
    [0 <= overlap <= chunk_size - 200]), every one but the last is longer
    than [chunk_size - 200], at most [chunk_size] long, and either fills
    the window or ends with one of the five terminators; no piece is
    empty. *)
Theorem cut_pieces_end_at_a_break (self : ChunkerAgent) (section : str)
    (pieces : list str) :
  well_configured self ->
  _split_large_section self section = Some pieces ->
  Forall (fun p =>
            (chunk_size self - 200 < len p <= chunk_size self)%Z
            /\ (len p = chunk_size self
                \/ exists point, In point break_points /\ ends_with p point))
         (removelast pieces)
  /\ Forall (fun p => p <> []) pieces.
Proof.
  intros [Hov Hcs] E.
  apply (@split_loop_pieces self Hov Hcs section (S (length section)) 0%Z);
    [lia|exact E].
Qed.

Lemma cut_pieces_end_at_a_break_witness :
  let self := mkChunkerAgent 300 50 in
  let section := repeat "a"%char 250 ++ L ". " ++ repeat "b"%char 350 in
  let pieces :=
    [ repeat "a"%char 250 ++ L ". ";
      repeat "a"%char 48 ++ L ". " ++ repeat "b"%char 250;
      repeat "b"%char 150 ] in
  Forall (fun p =>
            (chunk_size self - 200 < len p <= chunk_size self)%Z
            /\ (len p = chunk_size self
                \/ exists point, In point break_points /\ ends_with p point))
         (removelast pieces)
  /\ Forall (fun p => p <> []) pieces.
Proof.
  apply (@cut_pieces_end_at_a_break (mkChunkerAgent 300 50)
           (repeat "a"%char 250 ++ L ". " ++ repeat "b"%char 350)).
  - split; simpl; lia.
  - vm_compute; reflexivity.
Defined.

Lemma chain_overlap_length (self : ChunkerAgent) (p : str) (rest : list str) :
  (0 <= overlap self)%Z ->
  chain (shares_overlap self) (p :: rest) ->
  len (unoverlap (overlap self) (p :: rest))
  = (total_length (p :: rest) - overlap self * Z.of_nat (length rest))%Z.
Proof.
  intros Hov; revert p; induction rest as [|q rest IH]; intros p C.
  - cbn [unoverlap total_length fold_right map concat length].
    rewrite app_nil_r; lia.
  - destruct C as [[_ Hq] C].
    specialize (IH q C).
    cbn [unoverlap total_length fold_right map concat] in *.
    unfold len in *; rewrite !length_app in *; rewrite length_skipn.
    unfold leading in Hq; rewrite length_firstn in Hq.
    cbn [length]; lia.
Qed.

(** X4.  The pieces of a section that is not empty hold every character of
    it once and [overlap] characters more for every cut: their lengths
    add up to [len section + overlap * (pieces - 1)]. *)
Theorem overlap_is_counted_once_per_cut (self : ChunkerAgent) (section : str)
    (pieces : list str) :
  well_configured self -> section <> [] ->
  _split_large_section self section = Some pieces ->
  total_length pieces
  = (len section + overlap self * (Z.of_nat (length pieces) - 1))%Z.
Proof.
  intros [Hov Hcs] Hs E.
  assert (Hl : (0 < len section)%Z).
  { unfold len; destruct section; [congruence|simpl; lia]. }
  pose proof (@split_loop_nonempty self Hov Hcs section
                (S (length section)) 0%Z pieces ltac:(lia) E) as N.
  pose proof (@split_loop_unoverlap self Hov Hcs section
                (S (length section)) 0%Z pieces ltac:(lia) E) as U.
  pose proof (@split_loop_chain self Hov Hcs section
                (S (length section)) 0%Z pieces ltac:(lia) E) as C.
  destruct pieces as [|p rest]; [congruence|].
  pose proof (chain_overlap_length self p rest Hov C) as T.
  rewrite U in T; cbn [skipn Z.to_nat] in T.
  cbn [length]; lia.
Qed.

Lemma overlap_is_counted_once_per_cut_witness :
  let self := mkChunkerAgent 300 50 in
  let section := repeat "a"%char 250 ++ L ". " ++ repeat "b"%char 350 in
  exists pieces,
    _split_large_section self section = Some pieces
    /\ length pieces = 3%nat
    /\ total_length pieces = (602 + 50 * (3 - 1))%Z.
Proof.
  eexists; split; [vm_compute; reflexivity|split; [reflexivity|]].
  apply (@overlap_is_counted_once_per_cut (mkChunkerAgent 300 50)
           (repeat "a"%char 250 ++ L ". " ++ repeat "b"%char 350)).
  - split; simpl; lia.
  - discriminate.
  - vm_compute; reflexivity.
Defined.

(** *** [chunk_document] *)

Lemma strongly_sorted_nodup (l : list Z) : StronglySorted Z.lt l -> NoDup l.
Proof.
  induction 1 as [|a l S IH F]; constructor; [|exact IH].
  intros I; rewrite Forall_forall in F; specialize (F a I); lia.
Qed.

Lemma result_entries_numbered (dt : str) (i : Z) (chunks : list str) :
  StronglySorted Z.lt
    (map chunk_id (flat_map (result_entry dt) (enumerate_from i chunks)))
  /\ Forall (fun c =>
               (i < chunk_id c <= i + Z.of_nat (length chunks))%Z
               /\ doc_type c = dt
               /\ estimated_tokens c = (char_count c / 4)%Z)
            (flat_map (result_entry dt) (enumerate_from i chunks)).
Proof.
  revert i; induction chunks as [|p chunks IH]; intros i.
  - split; constructor.
  - destruct (IH (i + 1)%Z) as [S F].
    assert (F' : Forall (fun c =>
                   (i < chunk_id c <= i + Z.of_nat (length (p :: chunks)))%Z
                   /\ doc_type c = dt
                   /\ estimated_tokens c = (char_count c / 4)%Z)
                 (flat_map (result_entry dt) (enumerate_from (i + 1) chunks))).
    { revert F; apply Forall_impl; intros c (H1 & H2 & H3).
      repeat split; try assumption; cbn [length]; lia. }
    cbn [enumerate_from flat_map result_entry].
    destruct (truthy (strip p)); cbn [app map]; [|now split].
    split.
    + constructor; [exact S|].
      apply Forall_map; revert F; apply Forall_impl.
      intros c (H1 & _); cbn [chunk_id]; lia.
    + constructor; [|exact F'].
      cbn [chunk_id doc_type estimated_tokens char_count length].
      repeat split; lia.
Qed.

(** X5.  The chunk ids [chunk_document] gives increase strictly along the
    list, so no two chunks share an id; they start at 1 or above and do
    not exceed the number of pieces of [intelligent_chunk] (a blank piece
    takes a number and is dropped, so ids may skip).  Every chunk carries
    the caller's document type and a token estimate of a quarter of its
    character count. *)
Theorem chunk_ids_increase (self : ChunkerAgent) (T dt : str)
    (chunks : list Chunk) :
  chunk_document self T dt = Some chunks ->
  StronglySorted Z.lt (map chunk_id chunks)
  /\ NoDup (map chunk_id chunks)
  /\ Forall (fun c =>
               (1 <= chunk_id c)%Z /\ doc_type c = dt
               /\ estimated_tokens c = (char_count c / 4)%Z) chunks
  /\ (forall pieces,
        intelligent_chunk self (strip T) = Some pieces ->
        Forall (fun c => (chunk_id c <= Z.of_nat (length pieces))%Z) chunks).
Proof.
  intros E.
  destruct (Z.lt_ge_cases (len (strip T)) 10) as [H|H].
  - rewrite chunk_document_short in E by now right.
    injection E as <-; repeat split; constructor.
  - rewrite chunk_document_long in E by lia.
    destruct (intelligent_chunk self (strip T)) as [pieces|]; [|discriminate].
    injection E as <-.
    destruct (result_entries_numbered dt 0 pieces) as [S F].
    fold (enumerate pieces) in S, F; fold (build_result dt pieces) in S, F.
    repeat split.
    + exact S.
    + now apply strongly_sorted_nodup.
    + revert F; apply Forall_impl; intros c (H1 & H2 & H3).
      repeat split; try assumption; lia.
    + intros ? [= <-]; revert F; apply Forall_impl; intros c (H1 & _); lia.
Qed.

(** A window of whitespace gives a blank piece, which takes a number and
    is then dropped: the ids are 1 and 3. *)
Lemma chunk_ids_increase_witness :
  let self := mkChunkerAgent 300 50 in
  let T := repeat "a"%char 250 ++ repeat " "%char 400 ++ repeat "b"%char 10 in
  exists chunks,
    chunk_document self T (L "regulatory") = Some chunks
    /\ map chunk_id chunks = [1; 3]%Z
    /\ StronglySorted Z.lt (map chunk_id chunks)
    /\ NoDup (map chunk_id chunks).
Proof.
  eexists; split; [vm_compute; reflexivity|split; [reflexivity|]].
  pose proof
    (@chunk_ids_increase (mkChunkerAgent 300 50)
       (repeat "a"%char 250 ++ repeat " "%char 400 ++ repeat "b"%char 10)
       (L "regulatory") _ ltac:(vm_compute; reflexivity)) as (S & N & _).
  split; [exact S|exact N].
Defined.

(** X6.  [chunk_document] ignores the whitespace around the text: the
    stripped text gives the same chunks. *)
Theorem chunk_document_ignores_outer_whitespace (self : ChunkerAgent)
    (T dt : str) :
  chunk_document self (strip T) dt = chunk_document self T dt.
Proof.
  destruct (Z.lt_ge_cases (len (strip T)) 10) as [H|H].
  - rewrite !chunk_document_short; [reflexivity|now right|].
    right; now rewrite strip_idem.
  - rewrite !chunk_document_long; rewrite ?strip_idem; [reflexivity|lia|lia].
Qed.

Lemma split_sections_plain (content : str) :
  (forall marker,
     In marker section_markers -> contains content marker = false) ->
  split_sections content = [content].
Proof.
  intros H; unfold split_sections, section_markers in *.
  cbn [fold_left flat_map app]; unfold split_on_marker.
  repeat (rewrite H by (simpl; tauto); cbn [flat_map app]).
  reflexivity.
Qed.

(** X7.  A text without a marker whose stripped form has between 10 and
    [chunk_size] characters is one chunk, numbered 1, that holds the
    stripped text. *)
Theorem plain_short_text_is_one_chunk (self : ChunkerAgent) (T dt : str) :
  (10 <= len (strip T) <= chunk_size self)%Z ->
  (forall marker,
     In marker section_markers -> contains (strip T) marker = false) ->
  chunk_document self T dt
  = Some [ {| chunk_id := 1; content := strip T; doc_type := dt;
              char_count := len (strip T);
              estimated_tokens := (len (strip T) / 4)%Z |} ].
Proof.
  intros H M.
  rewrite chunk_document_long by lia.
  unfold intelligent_chunk; rewrite split_sections_plain by exact M.
  cbn [enforce_size]; unfold section_pieces.
  replace (len (strip T) <=? chunk_size self)%Z with true
    by (symmetry; apply Z.leb_le; lia).
  cbn [option_map app]; unfold build_result, enumerate.
  cbn [enumerate_from flat_map result_entry].
  rewrite strip_idem.
  destruct (strip T) eqn:E; [unfold len in H; simpl in H; lia|].
  reflexivity.
Qed.

Lemma plain_short_text_is_one_chunk_witness :
  chunk_document default_agent (L "  Banks must hold capital.  ")
    (L "regulatory")
  = Some [ {| chunk_id := 1; content := L "Banks must hold capital.";
              doc_type := L "regulatory"; char_count := 24;
              estimated_tokens := 6 |} ].
Proof.
  apply (@plain_short_text_is_one_chunk default_agent
           (L "  Banks must hold capital.  ") (L "regulatory")).
  - vm_compute; split; discriminate.
  - intros marker H; simpl in H.
    repeat (destruct H as [<-|H]; [reflexivity|]); destruct H.
Defined.

End ChunkerInvariants.

Section ExtractorInvariants.

Import Extractor.

Context {ext : Externals}.

(** *** Records *)

Lemma len_visible_strip (s : str) : (len (visible s) <= len (strip s))%Z.
Proof.
  rewrite <- (visible_strip s); unfold visible, len.
  pose proof (filter_length_le (fun c => negb (isspace c)) (strip s)); lia.
Qed.

Lemma startswith_refl (s : str) : startswith s s = true.
Proof. rewrite <- (app_nil_r s) at 1; apply startswith_prefix. Qed.

Lemma startswith_app_l (s a b : str) :
  startswith s (a ++ b) = true -> startswith s a = true.
Proof.
  intros H; apply startswith_app in H; rewrite H, <- app_assoc.
  apply startswith_prefix.
Qed.

Lemma validate_one_plain (id : chunk_ref) (i : Z) (req : value)
    (one : list Requirement) :
  validate_one id i req = Ok one -> Forall (plain id) one.
Proof.
  unfold validate_one.
  destruct req as [| | | | | |d]; try (intros [= <-]; constructor).
  destruct (get_default d (L "requirement") (VStr [])) as [| | | |text| |];
    try discriminate.
  destruct (truthy (strip text)) eqn:T; cbn [negb orb];
    [|intros [= <-]; constructor].
  destruct (Z.ltb_spec (len (strip text)) 10) as [H|H];
    intros [= <-]; constructor; [|constructor].
  unfold plain, ordinary, found;
    cbn [chunk_id parent_chunk_id sub_chunk_index extraction_method
        content_hash error requires_manual_review requirement].
  repeat split; left; repeat split; [now left|apply strip_idem|exact H].
Qed.

Lemma validate_loop_plain (id : chunk_ref) (reqs : list (Z * value))
    (rs : list Requirement) :
  validate_loop id reqs = Ok rs -> Forall (plain id) rs.
Proof.
  revert rs; induction reqs as [|[i req] reqs IH]; intros rs;
    cbn [validate_loop]; [intros [= <-]; constructor|].
  destruct (validate_one id i req) as [one|e] eqn:V; [|discriminate].
  destruct (validate_loop id reqs) as [validated|e]; [|discriminate].
  intros [= <-]; apply Forall_app; split;
    [now apply validate_one_plain in V|now apply IH].
Qed.

Lemma fallback_match_plain (id : chunk_ref) (acc : list Requirement * Z)
    (group1 : str) :
  Forall (plain id) (fst acc) ->
  Forall (plain id) (fst (fallback_match id acc group1)).
Proof.
  destruct acc as [requirements next_id]; unfold fallback_match; intros H.
  destruct (Z.gtb_spec (len (strip group1)) 20) as [G|G]; cbn [andb];
    [|exact H].
  destruct (len (strip group1) <? 500)%Z; [|exact H].
  cbn [fst]; apply Forall_app; split; [exact H|].
  constructor; [|constructor].
  unfold plain, ordinary, found;
    cbn [chunk_id parent_chunk_id sub_chunk_index extraction_method
        content_hash error requires_manual_review requirement].
  repeat split; left; repeat split; [now right|apply strip_idem|lia].
Qed.

Lemma fallback_scan_plain (patterns : list str) (text : str)
    (id : chunk_ref) :
  Forall (plain id) (fallback_scan patterns text id).
Proof.
  unfold fallback_scan.
  assert (G : forall acc : list Requirement * Z,
            Forall (plain id) (fst acc) ->
            Forall (plain id)
              (fst (fold_left
                      (fun acc pattern =>
                         fold_left (fallback_match id)
                           (re_finditer pattern
                              [IGNORECASE; MULTILINE; DOTALL] text) acc)
                      patterns acc))).
  { induction patterns as [|pattern patterns IH]; intros acc H; [exact H|].
    cbn [fold_left]; apply IH.
    generalize (re_finditer pattern [IGNORECASE; MULTILINE; DOTALL] text).
    intros groups; revert acc H.
    induction groups as [|g groups IHg]; intros acc H; [exact H|].
    cbn [fold_left]; apply IHg; now apply fallback_match_plain. }
  apply G; constructor.
Qed.

Lemma summary_record_plain (text : str) (id : chunk_ref) :
  plain id (summary_record text id).
Proof.
  unfold plain, ordinary, summary_sentinel, summary_record;
    cbn [chunk_id parent_chunk_id sub_chunk_index extraction_method
        content_hash error requires_manual_review requirement].
  repeat split; right; repeat split.
  apply startswith_prefix.
Qed.

Lemma fallback_body_plain (aggressive : bool) (retry : list Requirement)
    (text : str) (id : chunk_ref) :
  Forall (plain id) retry ->
  Forall (plain id) (fallback_body aggressive retry text id).
Proof.
  intros H; unfold fallback_body.
  pose proof (fallback_scan_plain
                (if aggressive then aggressive_patterns else standard_patterns)
                text id) as F.
  destruct (fallback_scan _ text id) as [|r rs]; [|exact F].
  destruct aggressive; cbn [negb]; [|exact H].
  constructor; [apply summary_record_plain|constructor].
Qed.

Lemma fallback_plain (text : str) (id : chunk_ref) (aggressive : bool) :
  Forall (plain id) (_extract_fallback_requirements text id aggressive).
Proof.
  unfold _extract_fallback_requirements.
  apply fallback_body_plain, fallback_body_plain; constructor.
Qed.

Lemma alternative_plain (text : str) (id : chunk_ref) :
  Forall (plain id) (_alternative_json_parsing text id).
Proof.
  unfold _alternative_json_parsing.
  destruct (alternative_candidates id _) as [|c cs];
    [apply fallback_plain|].
  destruct (_validate_enhanced_requirements (c :: cs) id)
    as [validated|e] eqn:V;
    [|apply fallback_plain].
  now apply validate_loop_plain in V.
Qed.

Lemma parse_plain (text : str) (id : chunk_ref) (rs : list Requirement) :
  _parse_enhanced_json_response text id = Ok rs -> Forall (plain id) rs.
Proof.
  unfold _parse_enhanced_json_response.
  destruct (json_loads (_clean_json_response text)) as [parsed|e].
  - destruct parsed as [| | | | | |d];
      try (intros [= <-]; apply alternative_plain).
    destruct (dict_get d (L "requirements")) as [v|];
      [|intros [= <-]; apply alternative_plain].
    destruct v as [| | | | |requirements|];
      try (intros [= <-]; apply alternative_plain).
    apply validate_loop_plain.
  - destruct e; try discriminate.
    intros [= <-]; apply alternative_plain.
Qed.

Lemma attempt_loop_plain (attempts : list Z) (prompt : str)
    (id : chunk_ref) (calls calls' : nat) (rs : list Requirement) :
  attempt_loop attempts prompt id calls = (Ok rs, calls') ->
  Forall (plain id) rs.
Proof.
  revert calls; induction attempts as [|attempt attempts IH]; intros calls;
    cbn [attempt_loop]; [intros [= <- _]; constructor|].
  destruct (llm_invoke calls _ prompt) as [response|e].
  - destruct (_parse_enhanced_json_response (strip response) id)
      as [requirements|e] eqn:P.
    + apply parse_plain in P.
      destruct requirements as [|r requirements].
      * destruct (attempt =? 1)%Z; [intros [= <- _]; constructor|apply IH].
      * now intros [= <- _].
    + destruct (attempt =? 1)%Z; [discriminate|apply IH].
  - destruct (attempt =? 1)%Z; [discriminate|apply IH].
Qed.

Lemma plain_first_hand (id : chunk_ref) (r : Requirement) :
  plain id r -> first_hand id r.
Proof.
  intros (H1 & H2 & H3 & [H|H]); repeat split; try assumption;
    [now left|right; now left].
Qed.

Lemma error_fallback_first_hand (chunk : ChunkDict) (msg : str) :
  Forall (first_hand (get_chunk_id chunk)) (_create_error_fallback chunk msg).
Proof.
  unfold _create_error_fallback; constructor; [|constructor].
  unfold first_hand, shaped, error_sentinel;
    cbn [chunk_id parent_chunk_id sub_chunk_index extraction_method
        content_hash error requires_manual_review requirement].
  repeat split; right; right; repeat split; [eauto|].
  apply startswith_prefix.
Qed.

Lemma in_enumerate_from_range (A : Type) (l : list A) (i j : Z) (x : A) :
  In (j, x) (enumerate_from i l) -> (i <= j < i + Z.of_nat (length l))%Z.
Proof.
  revert i; induction l as [|a l IH]; intros i H; [destruct H|].
  destruct H as [H|H]; [injection H as <- _; cbn [length]; lia|].
  apply IH in H; cbn [length]; lia.
Qed.

(** The records of [_process_large_chunk] are those of the sub-chunks,
    tagged. *)
Lemma sub_chunk_loop_records
    (extract : ChunkDict -> nat -> option (list Requirement * nat))
    (Q : chunk_ref -> Requirement -> Prop)
    (parent : chunk_ref) (sub_chunks : list (Z * str)) (calls calls' : nat)
    (rs : list Requirement) :
  (forall chunk calls rs calls',
     extract chunk calls = Some (rs, calls') ->
     Forall (Q (get_chunk_id chunk)) rs) ->
  sub_chunk_loop extract parent sub_chunks calls = Some (rs, calls') ->
  Forall (fun r =>
            exists i sub_chunk r0,
              In (i, sub_chunk) sub_chunks
              /\ r = tag_parent parent (i + 1) r0
              /\ Q (IdStr (format_id parent ++ L "_SUB" ++ str_of_int (i + 1)))
                   r0)
         rs.
Proof.
  intros H; revert calls calls' rs.
  induction sub_chunks as [|[i sub_chunk] rest IH]; intros calls calls' rs;
    cbn [sub_chunk_loop]; [intros [= <- _]; constructor|].
  destruct (extract _ calls) as [[sub_requirements calls1]|] eqn:E;
    [|discriminate].
  destruct (sub_chunk_loop extract parent rest calls1)
    as [[all_requirements calls2]|] eqn:R; [|discriminate].
  intros [= <- _]; apply Forall_app; split.
  - apply H in E; cbn [get_chunk_id chunk_chunk_id] in E.
    apply Forall_map; revert E; apply Forall_impl; intros r0 Hr.
    exists i, sub_chunk, r0; repeat split; [now left|exact Hr].
  - apply IH in R; revert R; apply Forall_impl.
    intros r (j & s & r0 & I & E1 & E2).
    exists j, s, r0; repeat split; [now right|exact E1|exact E2].
Qed.

(** What holds of every first-hand record and is kept by the tagging of
    [_process_large_chunk] holds of every record returned. *)
Lemma extract_requirements_records (P : chunk_ref -> Requirement -> Prop) :
  (forall id r, first_hand id r -> P id r) ->
  (forall parent i r,
     P (IdStr (format_id parent ++ L "_SUB" ++ str_of_int i)) r ->
     P parent (tag_parent parent i r)) ->
  forall depth chunk calls rs calls',
    extract_requirements depth chunk calls = Some (rs, calls') ->
    Forall (P (get_chunk_id chunk)) rs.
Proof.
  intros Base Tag.
  assert (Lift : forall id rs, Forall (plain id) rs -> Forall (P id) rs).
  { intros id rs; apply Forall_impl; intros r H.
    now apply Base, plain_first_hand. }
  induction depth as [|depth IH]; intros chunk calls rs calls' E;
    rewrite extract_requirements_unfold in E; cbv zeta in E;
    (destruct (truthy (strip (get_content chunk))); cbn [negb] in E;
       [|injection E as <- _; constructor]);
    (destruct (likely_corrupted _);
       [injection E as <- _; apply Lift, fallback_plain|]);
    (destruct (needs_splitting _);
       [|destruct (attempt_loop _ _ _ _) as [[rs0|e] calls0] eqn:A;
         injection E as <- _;
         [apply Lift; now apply attempt_loop_plain in A
         |generalize (error_fallback_first_hand chunk (str_of_exn e));
          apply Forall_impl, Base]]).
  - discriminate.
  - unfold process_large_chunk_with in E.
    apply (sub_chunk_loop_records _ P) in E; [|exact IH].
    revert E; apply Forall_impl.
    intros r (i & s & r0 & _ & -> & Hr); now apply Tag.
Qed.

Lemma prefixed_length (p s : str) (n : Z) :
  startswith s p = true -> (n <= len (visible p))%Z -> (n <= len (strip s))%Z.
Proof.
  intros H Hn; apply startswith_app in H.
  set (t := skipn (length p) s) in H; clearbody t; subst s.
  pose proof (len_visible_strip (p ++ t)) as V.
  rewrite visible_app in V; unfold len in *; rewrite length_app in V; lia.
Qed.

Lemma shaped_length (r : Requirement) :
  shaped r -> (10 <= len (strip (requirement r)))%Z.
Proof.
  intros [(_ & _ & _ & _ & E & H)|[(_ & _ & _ & _ & H)|(_ & _ & _ & _ & H)]].
  - now rewrite E.
  - apply (@prefixed_length _ _ 10%Z H); now vm_compute.
  - apply (@prefixed_length _ _ 10%Z H); now vm_compute.
Qed.

(** X8.  Every record [extract_requirements] returns -- found by the
    model, by a pattern, the summary or the error record, at any depth
    of splitting -- has a requirement text of at least 10 characters
    once stripped. *)
Theorem records_have_ten_characters (depth : nat) (chunk : ChunkDict)
    (calls calls' : nat) (rs : list Requirement) :
  extract_requirements depth chunk calls = Some (rs, calls') ->
  Forall (fun r => (10 <= len (strip (requirement r)))%Z) rs.
Proof.
  apply (@extract_requirements_records
           (fun _ r => (10 <= len (strip (requirement r)))%Z)).
  - intros id r (_ & _ & _ & S); now apply shaped_length.
  - intros parent i r H; exact H.
Qed.

(** X9.  Every record [extract_requirements] returns is of one of three
    shapes: a requirement found by the model or a pattern, with a
    stripped text and the first 8 characters of its MD5 digest as hash
    and no error; the summary record, with no hash and no error; or the
    error record, with no hash, an error message and the
    manual-review flag. *)
Theorem records_are_shaped (depth : nat) (chunk : ChunkDict)
    (calls calls' : nat) (rs : list Requirement) :
  extract_requirements depth chunk calls = Some (rs, calls') ->
  Forall shaped rs.
Proof.
  apply (@extract_requirements_records (fun _ r => shaped r)).
  - intros id r (_ & _ & _ & S); exact S.
  - intros parent i r H; exact H.
Qed.

Lemma records_lineage (depth : nat) (chunk : ChunkDict)
    (calls calls' : nat) (rs : list Requirement) :
  extract_requirements depth chunk calls = Some (rs, calls') ->
  Forall (fun r =>
            origin r = get_chunk_id chunk
            /\ shaped r
            /\ startswith (format_id (chunk_id r))
                 (format_id (get_chunk_id chunk)) = true) rs.
Proof.
  apply (@extract_requirements_records
           (fun id r =>
              origin r = id /\ shaped r
              /\ startswith (format_id (chunk_id r)) (format_id id) = true)).
  - intros id r (E & N & _ & S); unfold origin; rewrite N, E.
    repeat split; [exact S|apply startswith_refl].
  - intros parent i r (_ & S & H); repeat split; [exact S|].
    cbn [tag_parent chunk_id format_id] in *.
    now apply startswith_app_l in H.
Qed.

(** X10.  Every record goes back to the chunk it was extracted from: its
    parent id if it has one, and else its chunk id, is the id of the
    chunk, and its chunk id begins with the chunk's id. *)
Theorem records_go_back_to_the_chunk (depth : nat) (chunk : ChunkDict)
    (calls calls' : nat) (rs : list Requirement) :
  extract_requirements depth chunk calls = Some (rs, calls') ->
  Forall (fun r =>
            origin r = get_chunk_id chunk
            /\ startswith (format_id (chunk_id r))
                 (format_id (get_chunk_id chunk)) = true) rs.
Proof.
  intros E; apply records_lineage in E.
  revert E; apply Forall_impl; now intros r (H1 & _ & H2).
Qed.

End ExtractorInvariants.

Section ExtractorCalls.

Import Extractor.

Context {ext : Externals}.

(** *** Sub-chunks *)

(** X11.  Every record [_process_large_chunk] returns is tagged with the
    parent id and the one-based index of its sub-chunk, which is at most
    the number of sub-chunks, and its chunk id begins with the id made
    for that sub-chunk, [<parent>_SUB<index>]. *)
Theorem sub_chunk_records_are_tagged (depth : nat) (content : str)
    (id : chunk_ref) (calls calls' : nat) (rs : list Requirement) :
  _process_large_chunk depth content id calls = Some (rs, calls') ->
  Forall (fun r =>
            parent_chunk_id r = Some id
            /\ exists i,
                 sub_chunk_index r = Some i
                 /\ (1 <= i <= Z.of_nat (length (split_text content)))%Z
                 /\ startswith (format_id (chunk_id r))
                      (format_id id ++ L "_SUB" ++ str_of_int i) = true)
         rs.
Proof.
  unfold _process_large_chunk, process_large_chunk_with; intros E.
  apply (sub_chunk_loop_records _
           (fun id r =>
              startswith (format_id (chunk_id r)) (format_id id) = true))
    in E.
  - revert E; apply Forall_impl.
    intros r (i & s & r0 & I & -> & H).
    split; [reflexivity|].
    exists (i + 1)%Z; split; [reflexivity|].
    apply in_enumerate_from_range in I.
    split; [lia|exact H].
  - intros chunk c rs0 c' E0.
    apply records_lineage in E0.
    revert E0; apply Forall_impl; now intros r (_ & _ & H).
Qed.

(** *** Calls of the model *)

Lemma attempt_loop_two (prompt : str) (id : chunk_ref) (calls calls' : nat)
    (res : result (list Requirement)) :
  attempt_loop [0%Z; 1%Z] prompt id calls = (res, calls') ->
  (calls' = S calls /\ exists r rs, res = Ok (r :: rs))
  \/ calls' = S (S calls).
Proof.
  cbn [attempt_loop].
  change (0 =? 1)%Z with false; change (1 =? 1)%Z with true; cbv iota.
  assert (Second :
    forall x : result (list Requirement) * nat,
      snd x = S (S calls) ->
      x = (res, calls') ->
      (calls' = S calls /\ exists r rs, res = Ok (r :: rs))
      \/ calls' = S (S calls)).
  { intros x Hx ->; now right. }
  destruct (llm_invoke calls _ prompt) as [response|e].
  - destruct (_parse_enhanced_json_response (strip response) id)
      as [[|r rs]|e].
    + apply Second.
      destruct (llm_invoke (S calls) _ prompt) as [response1|e1];
        [|reflexivity].
      destruct (_parse_enhanced_json_response (strip response1) id)
        as [[|r1 rs1]|e1]; reflexivity.
    + intros [= <- <-]; left; eauto.
    + apply Second.
      destruct (llm_invoke (S calls) _ prompt) as [response1|e1];
        [|reflexivity].
      destruct (_parse_enhanced_json_response (strip response1) id)
        as [[|r1 rs1]|e1]; reflexivity.
  - apply Second.
    destruct (llm_invoke (S calls) _ prompt) as [response1|e1];
      [|reflexivity].
    destruct (_parse_enhanced_json_response (strip response1) id)
      as [[|r1 rs1]|e1]; reflexivity.
Qed.

Lemma sub_chunk_loop_calls
    (extract : ChunkDict -> nat -> option (list Requirement * nat))
    (parent : chunk_ref) (sub_chunks : list (Z * str)) (calls calls' : nat)
    (rs : list Requirement) :
  (forall chunk calls rs calls',
     extract chunk calls = Some (rs, calls') -> (calls <= calls')%nat) ->
  sub_chunk_loop extract parent sub_chunks calls = Some (rs, calls') ->
  (calls <= calls')%nat.
Proof.
  intros H; revert calls calls' rs.
  induction sub_chunks as [|[i sub_chunk] rest IH]; intros calls calls' rs;
    cbn [sub_chunk_loop]; [intros [= _ <-]; lia|].
  destruct (extract _ calls) as [[sub_requirements calls1]|] eqn:E;
    [|discriminate].
  destruct (sub_chunk_loop extract parent rest calls1)
    as [[all_requirements calls2]|] eqn:R; [|discriminate].
  intros [= _ <-]; apply H in E; apply IH in R; lia.
Qed.

Lemma extract_requirements_calls (depth : nat) :
  forall chunk calls rs calls',
    extract_requirements depth chunk calls = Some (rs, calls') ->
    (calls <= calls')%nat.
Proof.
  induction depth as [|depth IH]; intros chunk calls rs calls' E;
    rewrite extract_requirements_unfold in E; cbv zeta in E;
    (destruct (truthy (strip (get_content chunk))); cbn [negb] in E;
       [|injection E as _ <-; lia]);
    (destruct (likely_corrupted _); [injection E as _ <-; lia|]);
    (destruct (needs_splitting _);
       [|destruct (attempt_loop _ _ _ _) as [res calls0] eqn:A;
         apply attempt_loop_two in A;
         destruct res; injection E as _ <-; lia]).
  - discriminate.
  - unfold process_large_chunk_with in E.
    now apply (sub_chunk_loop_calls _ _ _ _ IH) in E.
Qed.

(** X12.  The calls of the model: the count never decreases; a chunk that
    is blank or flagged corrupted costs no call; a chunk sent to the
    model costs one call, and the result is then not empty, or two
    calls, never more. *)
Theorem model_calls_are_bounded (depth : nat) (chunk : ChunkDict)
    (calls calls' : nat) (rs : list Requirement) :
  extract_requirements depth chunk calls = Some (rs, calls') ->
  (calls <= calls')%nat
  /\ (truthy (strip (get_content chunk)) = false
      \/ likely_corrupted
           (_assess_content_quality (_preprocess_content (get_content chunk)))
         = true ->
      calls' = calls)
  /\ (sent_to_model chunk ->
      (calls' = S calls /\ rs <> []) \/ calls' = S (S calls)).
Proof.
  intros E; split; [now apply extract_requirements_calls in E|split].
  - intros H; rewrite extract_requirements_unfold in E; cbv zeta in E.
    destruct (truthy (strip (get_content chunk))); cbn [negb] in E;
      [|now injection E as _ <-].
    destruct (likely_corrupted _); [now injection E as _ <-|].
    destruct H; discriminate.
  - intros Sent; rewrite (extract_requirements_sent depth calls Sent) in E.
    destruct (attempt_loop _ _ _ _) as [res calls0] eqn:A.
    apply attempt_loop_two in A.
    destruct A as [(-> & r & rs0 & ->) | ->].
    + injection E as <- <-; left; split; [reflexivity|discriminate].
    + destruct res; injection E as _ <-; now right.
Qed.

End ExtractorCalls.

Section ExtractorParts.

Import Extractor.

(** *** The quality assessment *)

Lemma split_whitespace_go_count (s cur : str) :
  (2 * length (split_whitespace_go s cur)
   <= length s + (if truthy cur then 2 else 1))%nat.
Proof.
  revert cur; induction s as [|c s IH]; intros cur.
  - cbn [split_whitespace_go]; destruct (truthy cur); simpl; lia.
  - cbn [split_whitespace_go].
    destruct (isspace c).
    + specialize (IH []); cbn [truthy] in IH.
      destruct (truthy cur); cbn [length]; lia.
    + specialize (IH (c :: cur)); cbn [truthy] in IH.
      destruct (truthy cur); cbn [length]; lia.
Qed.

(** X13.  A text of [n] characters has at most [(n + 1) / 2] words, so
    [needs_splitting] is set only from 5001 characters on. *)
Theorem splitting_needs_5001_characters (content : str) :
  (2 * word_count (_assess_content_quality content) <= len content + 1)%Z
  /\ (needs_splitting (_assess_content_quality content) = true ->
      (5001 <= len content)%Z).
Proof.
  assert (H : (2 * word_count (_assess_content_quality content)
               <= len content + 1)%Z).
  { unfold _assess_content_quality; cbn [word_count].
    unfold split_whitespace, len.
    pose proof (split_whitespace_go_count content []) as C.
    cbn [truthy] in C; lia. }
  split; [exact H|].
  unfold _assess_content_quality in *; cbn [word_count needs_splitting] in *.
  intros N; apply Z.ltb_lt in N; lia.
Qed.

Context {ext : Externals}.

(** *** Preprocessing *)

(** X14.  [_preprocess_content] returns a blank text as it is, and any
    other text with no whitespace at its ends, whatever the regular
    expressions do. *)
Theorem preprocess_blank_or_stripped (content : str) :
  (truthy (strip content) = false -> _preprocess_content content = content)
  /\ (truthy (strip content) = true ->
      strip (_preprocess_content content) = _preprocess_content content).
Proof.
  unfold _preprocess_content; split; intros H; rewrite H; cbn [negb];
    [reflexivity|apply strip_idem].
Qed.

(** *** Validation *)

Lemma validate_one_cases (id : chunk_ref) (i : Z) (req : value) :
  if malformed req
  then exists msg, validate_one id i req = Raise (AttributeError msg)
  else exists one,
         validate_one id i req = Ok one /\ (length one <= 1)%nat.
Proof.
  unfold malformed, validate_one, get_default.
  destruct req as [| | | | | |d];
    try (exists []; split; [reflexivity|simpl; lia]).
  destruct (dict_get d (L "requirement")) as [[| | | |text| |]|]; eauto.
  - destruct (negb (truthy (strip text)) || (len (strip text) <? 10)%Z);
      eexists; (split; [reflexivity|simpl; lia]).
  - cbn [strip lstrip rstrip dropWhile truthy negb orb].
    exists []; split; [reflexivity|simpl; lia].
Qed.

Lemma validate_loop_cases (id : chunk_ref) (i : Z) (reqs : list value) :
  if existsb malformed reqs
  then exists msg,
         validate_loop id (enumerate_from i reqs) = Raise (AttributeError msg)
  else exists rs,
         validate_loop id (enumerate_from i reqs) = Ok rs
         /\ (length rs <= length reqs)%nat.
Proof.
  revert i; induction reqs as [|req reqs IH]; intros i.
  - exists []; split; [reflexivity|simpl; lia].
  - cbn [existsb enumerate_from validate_loop].
    pose proof (validate_one_cases id i req) as V.
    specialize (IH (i + 1)%Z).
    destruct (malformed req); cbn [orb].
    + destruct V as (msg & ->); eauto.
    + destruct V as (one & -> & L1).
      destruct (existsb malformed reqs).
      * destruct IH as (msg & ->); eauto.
      * destruct IH as (rs & -> & L2).
        exists (one ++ rs); split; [reflexivity|].
        rewrite length_app; cbn [length]; lia.
Qed.

(** X15.  [_validate_enhanced_requirements] is all or nothing: it raises
    [AttributeError] when some candidate is a dictionary whose
    ['requirement'] is not a string, losing the other candidates, and
    otherwise returns at most one record per candidate. *)
Theorem validation_is_all_or_nothing (requirements : list value)
    (id : chunk_ref) :
  (existsb malformed requirements = true ->
   exists msg,
     _validate_enhanced_requirements requirements id
     = Raise (AttributeError msg))
  /\ (existsb malformed requirements = false ->
      exists rs,
        _validate_enhanced_requirements requirements id = Ok rs
        /\ (length rs <= length requirements)%nat).
Proof.
  unfold _validate_enhanced_requirements, enumerate.
  pose proof (validate_loop_cases id 0 requirements) as H.
  split; intros E; rewrite E in H; exact H.
Qed.

(** *** The fragments of the second tier *)

Lemma str_eqb_eq (s t : str) : str_eqb s t = true <-> s = t.
Proof.
  revert t; induction s as [|a s IH]; intros [|b t]; cbn [str_eqb];
    try (split; [discriminate|congruence]); [now split|].
  rewrite andb_true_iff, Ascii.eqb_eq, IH.
  split; [intros [-> ->]; reflexivity|intros [= -> ->]; now split].
Qed.

Lemma dict_get_set_same (d : list (str * value)) (key : str) (v : value) :
  dict_get (dict_set d key v) key = Some v.
Proof.
  induction d as [|[k w] d IH]; cbn [dict_set dict_get].
  - now rewrite (proj2 (str_eqb_eq key key) eq_refl).
  - destruct (str_eqb k key) eqn:E; cbn [dict_get]; now rewrite E.
Qed.

Lemma dict_get_set_other (d : list (str * value)) (key other : str)
    (v : value) :
  key <> other -> dict_get (dict_set d key v) other = dict_get d other.
Proof.
  intros N; induction d as [|[k w] d IH]; cbn [dict_set dict_get].
  - destruct (str_eqb key other) eqn:E; [|reflexivity].
    apply str_eqb_eq in E; congruence.
  - destruct (str_eqb k key) eqn:E; cbn [dict_get].
    + apply str_eqb_eq in E; subst k.
      destruct (str_eqb key other) eqn:E'; [|reflexivity].
      apply str_eqb_eq in E'; congruence.
    + now rewrite IH.
Qed.

(** X16.  Every candidate of [_alternative_json_parsing] is a fragment
    that parsed to a dictionary with a ['requirement'], kept as parsed
    but for its ['id']: the fragment's own, or else the id made of the
    chunk id and the fragment's one-based position.  There are at most
    as many candidates as fragments. *)
Theorem alternative_candidates_keep_fragments (id : chunk_ref)
    (json_matches : list str) :
  Forall (fun candidate =>
            exists i fragment parsed d,
              In (i, fragment) (enumerate json_matches)
              /\ json_loads fragment = Ok (VDict parsed)
              /\ candidate = VDict d
              /\ dict_get parsed (L "requirement") <> None
              /\ dict_get d (L "id")
                 = Some (get_default parsed (L "id")
                           (VStr (format_id id ++ L "_ALT"
                                  ++ format_03d (i + 1))))
              /\ (forall key,
                    key <> L "id" -> dict_get d key = dict_get parsed key))
         (alternative_candidates id json_matches)
  /\ (length (alternative_candidates id json_matches)
      <= length json_matches)%nat.
Proof.
  unfold alternative_candidates, enumerate.
  generalize 0%Z; induction json_matches as [|m ms IH]; intros z;
    [split; [constructor|simpl; lia]|].
  destruct (IH (z + 1)%Z) as [F Len].
  assert (F' : Forall (fun candidate =>
            exists i fragment parsed d,
              In (i, fragment) (enumerate_from z (m :: ms))
              /\ json_loads fragment = Ok (VDict parsed)
              /\ candidate = VDict d
              /\ dict_get parsed (L "requirement") <> None
              /\ dict_get d (L "id")
                 = Some (get_default parsed (L "id")
                           (VStr (format_id id ++ L "_ALT"
                                  ++ format_03d (i + 1))))
              /\ (forall key,
                    key <> L "id" -> dict_get d key = dict_get parsed key))
           (flat_map
              (fun im : Z * str =>
                 let (i, match_) := im in
                 match json_loads match_ with
                 | Ok (VDict req_data) =>
                     match dict_get req_data (L "requirement") with
                     | Some _ =>
                         [ VDict
                             (dict_set req_data (L "id")
                                (get_default req_data (L "id")
                                   (VStr (format_id id ++ L "_ALT"
                                          ++ format_03d (i + 1))))) ]
                     | None => []
                     end
                 | _ => []
                 end)
              (enumerate_from (z + 1) ms))).
  { revert F; apply Forall_impl.
    intros c (i & f & p & d & I & H); exists i, f, p, d.
    split; [now right|exact H]. }
  cbn [enumerate_from flat_map length].
  destruct (json_loads m) as [[| | | | | |parsed]|e] eqn:J;
    cbn [app]; try (split; [exact F'|lia]).
  destruct (dict_get parsed (L "requirement")) as [v|] eqn:R;
    cbn [app]; [|split; [exact F'|lia]].
  split; [|cbn [length]; lia].
  constructor; [|exact F'].
  exists z, m, parsed, (dict_set parsed (L "id")
                         (get_default parsed (L "id")
                            (VStr (format_id id ++ L "_ALT"
                                   ++ format_03d (z + 1))))).
  repeat split.
  - now left.
  - exact J.
  - congruence.
  - apply dict_get_set_same.
  - intros key N; apply dict_get_set_other; congruence.
Qed.

(** *** Classification *)

Lemma lower_char_idem (c : ascii) : lower_char (lower_char c) = lower_char c.
Proof. destruct c as [[] [] [] [] [] [] [] []]; reflexivity. Qed.

Lemma lower_idem (s : str) : lower (lower s) = lower s.
Proof.
  unfold lower; rewrite map_map; apply map_ext; intros c.
  apply lower_char_idem.
Qed.

(** X17.  The category [_classify_requirement_category] gives does not
    depend on the case of the letters, is one of ten names, and is
    [capital_adequacy], the first of the table, whenever the text names
    capital, whatever else it names. *)
Theorem classification_ignores_case (text : str) :
  _classify_requirement_category (lower text)
  = _classify_requirement_category text
  /\ In (_classify_requirement_category text)
       [L "capital_adequacy"; L "risk_management"; L "reporting";
        L "liquidity"; L "governance"; L "operational"; L "credit_risk";
        L "market_risk"; L "compliance"; L "general"]
  /\ (contains (lower text) (L "capital") = true ->
      _classify_requirement_category text = L "capital_adequacy").
Proof.
  split; [unfold _classify_requirement_category; now rewrite lower_idem|].
  split.
  - unfold _classify_requirement_category.
    match goal with
    | |- In (match List.find ?f ?l with _ => _ end) _ =>
        destruct (List.find f l) as [entry|] eqn:F
    end.
    + apply find_some in F; destruct F as [F _].
      cbn [In] in F.
      repeat (destruct F as [<-|F]; [cbn [fst In]; tauto|]).
      destruct F.
    + cbn [In]; tauto.
  - intros H; unfold _classify_requirement_category.
    cbn [List.find snd fst existsb]; now rewrite H.
Qed.

End ExtractorParts.

Section ExtractorScenarios.

Import Extractor Doubles Scenarios.

(** The model finds one requirement in a chunk of one sentence. *)
Lemma records_have_ten_characters_witness :
  exists record,
    @extract_requirements finds_one 0 paid_dividends 0
    = Some ([record], 1%nat)
    /\ requirement record = L "Banks must hold capital."
    /\ Forall (fun r => (10 <= len (strip (requirement r)))%Z) [record].
Proof.
  eexists; split; [vm_compute; reflexivity|split; [reflexivity|]].
  apply (@records_have_ten_characters finds_one 0 paid_dividends 0 1).
  vm_compute; reflexivity.
Defined.

(** The model is down: the one record is the error sentinel. *)
Lemma records_are_shaped_witness :
  exists record,
    @extract_requirements always_failing 0 paid_dividends 0
    = Some ([record], 2%nat)
    /\ extraction_method record = L "error_fallback"
    /\ Forall (@shaped always_failing) [record].
Proof.
  eexists; split; [vm_compute; reflexivity|split; [reflexivity|]].
  apply (@records_are_shaped always_failing 0 paid_dividends 0 2).
  vm_compute; reflexivity.
Defined.

Lemma records_go_back_to_the_chunk_witness :
  exists record,
    @extract_requirements finds_one 0 paid_dividends 0
    = Some ([record], 1%nat)
    /\ Forall (fun r =>
                 origin r = IdInt 1
                 /\ startswith (format_id (chunk_id r)) (L "1") = true)
              [record].
Proof.
  eexists; split; [vm_compute; reflexivity|].
  apply (@records_go_back_to_the_chunk finds_one 0 paid_dividends 0 1).
  vm_compute; reflexivity.
Defined.

(** A text cut in two halves while the model is down: one error record
    for each half, tagged with the parent 7 and the indices 1 and 2. *)
Lemma sub_chunk_records_are_tagged_witness :
  let content := L "Dividends were paid in March." in
  exists first second,
    @_process_large_chunk down_and_halving 0 content (IdInt 7) 0
    = Some ([first; second], 4%nat)
    /\ chunk_id first = IdStr (L "7_SUB1")
    /\ chunk_id second = IdStr (L "7_SUB2")
    /\ Forall (fun r =>
                 parent_chunk_id r = Some (IdInt 7)
                 /\ exists i,
                      sub_chunk_index r = Some i
                      /\ (1 <= i <= 2)%Z
                      /\ startswith (format_id (chunk_id r))
                           (L "7" ++ L "_SUB" ++ str_of_int i) = true)
              [first; second].
Proof.
  do 2 eexists; split; [vm_compute; reflexivity|].
  split; [reflexivity|split; [reflexivity|]].
  apply (@sub_chunk_records_are_tagged down_and_halving 0
           (L "Dividends were paid in March.") (IdInt 7) 0 4).
  vm_compute; reflexivity.
Defined.

Lemma sent_finds_one : @sent_to_model finds_one paid_dividends.
Proof. apply sent_paid_dividends; reflexivity. Qed.

(** One call when the first reply holds a record, none for a blank
    chunk. *)
Lemma model_calls_are_bounded_witness :
  (exists rs,
     @extract_requirements finds_one 0 paid_dividends 0 = Some (rs, 1%nat)
     /\ ((1%nat = 1%nat /\ rs <> []) \/ 1%nat = 2%nat))
  /\ (exists rs calls',
        @extract_requirements finds_one 0 blank_chunk 5 = Some (rs, calls')
        /\ calls' = 5%nat).
Proof.
  split.
  - eexists; split; [vm_compute; reflexivity|].
    refine (proj2 (proj2
      (@model_calls_are_bounded finds_one 0 paid_dividends 0 1 _ _)) _);
      [vm_compute; reflexivity|exact sent_finds_one].
  - do 2 eexists; split; [vm_compute; reflexivity|].
    refine (proj1 (proj2
      (@model_calls_are_bounded finds_one 0 blank_chunk 5 5 _ _)) _);
      [vm_compute; reflexivity|left; reflexivity].
Defined.

Lemma splitting_needs_5001_characters_witness :
  needs_splitting (_assess_content_quality many_words) = true
  /\ (5001 <= len many_words)%Z.
Proof.
  split; [exact many_words_to_split|].
  apply (proj2 (splitting_needs_5001_characters many_words)).
  exact many_words_to_split.
Defined.

Lemma preprocess_blank_or_stripped_witness :
  @_preprocess_content finds_nothing (L "   ") = L "   "
  /\ strip (@_preprocess_content finds_nothing (L "  Banks must report.  "))
     = @_preprocess_content finds_nothing (L "  Banks must report.  ").
Proof.
  split.
  - apply (proj1 (@preprocess_blank_or_stripped finds_nothing (L "   ")));
      reflexivity.
  - apply (proj2 (@preprocess_blank_or_stripped finds_nothing
                    (L "  Banks must report.  ")));
      reflexivity.
Defined.

(** A candidate whose requirement is a number makes the whole list fail;
    without it the list is validated. *)
Lemma validation_is_all_or_nothing_witness :
  let good := VDict [(L "requirement", VStr (L "Banks must hold capital."))] in
  let bad := VDict [(L "requirement", VInt 5)] in
  (exists msg,
     @_validate_enhanced_requirements finds_nothing [good; bad] (IdInt 1)
     = Raise (AttributeError msg))
  /\ (exists rs,
        @_validate_enhanced_requirements finds_nothing [good; VNone] (IdInt 1)
        = Ok rs
        /\ (length rs <= 2)%nat).
Proof.
  split.
  - apply (proj1 (@validation_is_all_or_nothing finds_nothing
                    [VDict [(L "requirement",
                             VStr (L "Banks must hold capital."))];
                     VDict [(L "requirement", VInt 5)]] (IdInt 1)));
      reflexivity.
  - apply (proj2 (@validation_is_all_or_nothing finds_nothing
                    [VDict [(L "requirement",
                             VStr (L "Banks must hold capital."))];
                     VNone] (IdInt 1)));
      reflexivity.
Defined.

(** A text that names capital and risk is of the first category. *)
Lemma classification_ignores_case_witness :
  _classify_requirement_category (L "Risk weights and CAPITAL buffers")
  = L "capital_adequacy".
Proof.
  apply (proj2 (proj2 (classification_ignores_case
                         (L "Risk weights and CAPITAL buffers"))));
    reflexivity.
Defined.

End ExtractorScenarios.

Section WorkflowProofs.

Lemma default_agent_configured : well_configured Chunker.default_agent.
Proof. split; simpl; lia. Qed.

Lemma chunk_document_pieces (self : Chunker.ChunkerAgent) (T dt : str) :
  well_configured self ->
  exists pieces,
    Chunker.chunk_document self T dt = Some (Chunker.build_result dt pieces)
    /\ Forall (within_limit self) pieces.
Proof.
  intros C.
  destruct (Z.lt_ge_cases (len (strip T)) 10) as [H|H].
  - exists []; rewrite chunk_document_short by auto.
    split; [reflexivity|constructor].
  - destruct (section_groups_spec C (Chunker.split_sections (strip T)))
      as (groups & _ & G2 & _ & G4).
    exists (concat groups); split.
    + rewrite chunk_document_long by exact H.
      unfold Chunker.intelligent_chunk; now rewrite G2.
    + apply Forall_concat; exact G4.
Qed.

Lemma map_snd_enumerate_from (A : Type) (i : Z) (l : list A) :
  map snd (enumerate_from i l) = l.
Proof.
  revert i; induction l as [|x l IH]; intros i; [reflexivity|].
  cbn [enumerate_from map snd]; now rewrite IH.
Qed.

(** X18.  The workflow's [_chunk_document] returns for every document:
    chunks with strictly increasing ids from 1 on, a content that is not
    empty, has no whitespace at its ends and is at most 30000 characters
    long, a start position 0 and the length of the content as end
    position. *)
Theorem workflow_chunks_are_well_formed (regulatory_document : str) :
  exists chunks,
    Workflow._chunk_document regulatory_document = Some chunks
    /\ StronglySorted Z.lt (map Workflow.chunk_id chunks)
    /\ Forall (fun c =>
                 (1 <= Workflow.chunk_id c)%Z
                 /\ truthy (Workflow.content c) = true
                 /\ strip (Workflow.content c) = Workflow.content c
                 /\ (len (Workflow.content c) <= 30000)%Z
                 /\ Workflow.start_position c = 0%Z
                 /\ Workflow.end_position c = len (Workflow.content c))
              chunks.
Proof.
  destruct (@chunk_document_pieces Chunker.default_agent regulatory_document
              (L "regulatory") default_agent_configured) as (pieces & E & W).
  unfold Workflow._chunk_document; rewrite E.
  eexists; split; [reflexivity|].
  destruct (result_entries_numbered (L "regulatory") 0 pieces) as [S F].
  fold (enumerate pieces) in S, F.
  fold (Chunker.build_result (L "regulatory") pieces) in S, F.
  split.
  - rewrite map_map; cbn [Workflow.chunk_id]; exact S.
  - apply Forall_map, Forall_forall; intros c Hc.
    cbn [Workflow.chunk_id Workflow.content Workflow.start_position
         Workflow.end_position].
    rewrite Forall_forall in F; destruct (F c Hc) as (Hid & _).
    apply build_result_origin in Hc as (p & Hp & Ht & -> & _).
    rewrite Forall_forall in W; specialize (W p Hp); unfold within_limit in W.
    pose proof (len_strip p).
    cbn [Chunker.chunk_size Chunker.default_agent] in W.
    repeat split; [lia|exact Ht|apply strip_idem|lia].
Qed.

Section Extraction.

Context {ext : Extractor.Externals} {files : Workflow.Files}.

Variable output_dir : str.

Lemma extract_loop_results (depth : nat)
    (chunks : list (Z * Workflow.StateChunk)) :
  forall (requirements : list (list Extractor.Requirement))
         (calls calls' : nat)
         (results : list (list Extractor.Requirement)),
    Workflow.extract_loop output_dir depth chunks requirements calls
    = Some (Extractor.Ok results, calls') ->
    (calls <= calls')%nat
    /\ exists new,
         results = requirements ++ new
         /\ Forall2
              (fun chunk rs =>
                 Forall (fun r =>
                           origin r = Extractor.IdInt (Workflow.chunk_id chunk)
                           /\ shaped r) rs)
              (map snd chunks) new.
Proof.
  induction chunks as [|[i chunk] rest IH];
    intros requirements calls calls' results; cbn [Workflow.extract_loop].
  - intros [= <- <-]; split; [lia|].
    exists []; split; [now rewrite app_nil_r|constructor].
  - destruct (Extractor.extract_requirements depth _ calls)
      as [[rs calls1]|] eqn:E; [|discriminate].
    destruct (Workflow.save_json rs _); [discriminate|].
    intros R; apply IH in R; destruct R as (Hc & new & -> & F).
    pose proof (extract_requirements_calls _ _ _ E) as Hc1.
    split; [lia|].
    exists (rs :: new); split; [now rewrite <- app_assoc|].
    cbn [map snd]; constructor; [|exact F].
    apply records_lineage in E.
    cbn [Extractor.get_chunk_id Extractor.chunk_chunk_id] in E.
    revert E; apply Forall_impl; now intros r (H1 & H2 & _).
Qed.

Lemma total_reqs_from (requirements : list (list Extractor.Requirement))
    (total : Z) :
  fold_left (fun total req_result => (total + Z.of_nat (length req_result))%Z)
    requirements total
  = (total + Z.of_nat (length (concat requirements)))%Z.
Proof.
  revert total; induction requirements as [|rs requirements IH]; intros total;
    cbn [fold_left concat]; [simpl; lia|].
  rewrite IH, length_app; lia.
Qed.

(** X19.  When the workflow's [_extract_requirements] returns, the state
    holds one result per chunk, in the order of the chunks; every record
    of a result goes back to the chunk of the same position and is of
    one of the three shapes; the count of the calls of the model has not
    decreased, and [total_reqs] is the number of all records. *)
Theorem workflow_results_line_up (depth : nat)
    (chunks : list Workflow.StateChunk) (calls calls' : nat)
    (results : list (list Extractor.Requirement)) :
  Workflow._extract_requirements output_dir depth chunks [] calls
  = Some (Extractor.Ok results, calls') ->
  length results = length chunks
  /\ (calls <= calls')%nat
  /\ Forall2
       (fun chunk rs =>
          Forall (fun r =>
                    origin r = Extractor.IdInt (Workflow.chunk_id chunk)
                    /\ shaped r) rs)
       chunks results
  /\ Workflow.total_reqs results = Z.of_nat (length (concat results)).
Proof.
  unfold Workflow._extract_requirements, enumerate; intros E.
  apply extract_loop_results in E; destruct E as (Hc & new & -> & F).
  rewrite map_snd_enumerate_from in F; cbn [app].
  repeat split; [|exact Hc|exact F|].
  - symmetry; exact (Forall2_length F).
  - unfold Workflow.total_reqs; rewrite total_reqs_from; lia.
Qed.

(** A chunk that is not split is dealt with at any depth: what the model
    or the parsing raises ends in a record. *)
Lemma not_split_returns (depth : nat) (chunk : Extractor.ChunkDict)
    (calls : nat) :
  not_split chunk ->
  exists result, Extractor.extract_requirements depth chunk calls = Some result.
Proof.
  unfold not_split; cbv zeta; intros H.
  rewrite extract_requirements_unfold; cbv zeta.
  destruct (truthy (strip (Extractor.get_content chunk))); cbn [negb];
    [|eauto].
  destruct (Extractor.likely_corrupted _); [eauto|].
  destruct (Extractor.needs_splitting _);
    [destruct H as [H|[H|H]]; discriminate|].
  destruct (Extractor.attempt_loop _ _ _ _) as [[rs|e] calls']; eauto.
Qed.



(** X21.  A blank document: the chunking path gives no chunk and so no
    result, the single-chunk path gives one chunk and one empty result;
    neither calls the model. *)
Theorem blank_document_makes_no_call (depth : nat)
    (regulatory_document : str) (calls : nat) :
  truthy (strip regulatory_document) = false ->
  (forall path, Workflow.save_json [] path = None) ->
  Workflow.chunks_of true regulatory_document = Some []
  /\ Workflow._extract_requirements output_dir depth [] [] calls
     = Some (Extractor.Ok [], calls)
  /\ Workflow._extract_requirements output_dir depth
       (Workflow._create_single_chunk regulatory_document) [] calls
     = Some (Extractor.Ok [[]], calls).
Proof.
  intros B W; repeat split.
  - unfold Workflow.chunks_of, Workflow._chunk_document.
    rewrite chunk_document_short; [reflexivity|].
    right; revert B; destruct (strip regulatory_document);
      [intros _; unfold len; simpl; lia|discriminate].
  - unfold Workflow._extract_requirements, Workflow._create_single_chunk,
      enumerate.
    cbn [enumerate_from Workflow.extract_loop Workflow.content
         Workflow.chunk_id].
    rewrite extract_requirements_unfold; cbv zeta.
    cbn [Extractor.get_content Extractor.chunk_content].
    rewrite B; cbn [negb].
    now rewrite W.
Qed.

End Extraction.

Import Extractor Doubles Scenarios.

(** Two chunks, numbered 1 and 3 as after a dropped piece, and a model
    that finds one requirement in each. *)
Lemma workflow_results_line_up_witness :
  let chunks :=
    [ Workflow.mkStateChunk 1 (L "Dividends were paid in March.") 0 29
        (L "Chunk 1 of 2");
      Workflow.mkStateChunk 3 (L "Dividends were paid in April.") 0 29
        (L "Chunk 3 of 2") ] in
  exists first second,
    @Workflow._extract_requirements finds_one writable (L "output") 0
      chunks [] 0
    = Some (Ok [[first]; [second]], 2%nat)
    /\ chunk_id first = IdInt 1 /\ chunk_id second = IdInt 3
    /\ length [[first]; [second]] = length chunks
    /\ Workflow.total_reqs [[first]; [second]] = 2%Z.
Proof.
  do 2 eexists; split; [vm_compute; reflexivity|].
  split; [reflexivity|split; [reflexivity|]].
  pose proof
    (@workflow_results_line_up finds_one writable (L "output") 0
       [ Workflow.mkStateChunk 1 (L "Dividends were paid in March.") 0 29
           (L "Chunk 1 of 2");
         Workflow.mkStateChunk 3 (L "Dividends were paid in April.") 0 29
           (L "Chunk 3 of 2") ] 0 2 _ ltac:(vm_compute; reflexivity))
    as (H1 & _ & _ & H4).
  split; [exact H1|exact H4].
Defined.


Lemma blank_document_makes_no_call_witness :
  Workflow.chunks_of true (L "     ") = Some []
  /\ @Workflow._extract_requirements finds_one writable (L "output") 0
       [] [] 0
     = Some (Ok [], 0%nat)
  /\ @Workflow._extract_requirements finds_one writable (L "output") 0
       (Workflow._create_single_chunk (L "     ")) [] 0
     = Some (Ok [[]], 0%nat).
Proof.
  apply (@blank_document_makes_no_call finds_one writable (L "output") 0
           (L "     ") 0); reflexivity.
Defined.

End WorkflowProofs.

Section FindFacts.

Lemma startswith_firstn (sub s : str) (m : nat) :
  startswith (firstn m s) sub = true -> startswith s sub = true.
Proof.
  revert s m; induction sub as [|a sub IH]; intros s m H;
    [now destruct s|].
  destruct s as [|b s]; [now destruct m|].
  destruct m as [|m]; [discriminate|].
  cbn [firstn startswith] in *.
  apply andb_true_iff in H; destruct H as [-> H]; cbn [andb]; eauto.
Qed.

Lemma contains_nil (sub : str) : sub <> [] -> contains [] sub = false.
Proof. destruct sub; [congruence|reflexivity]. Qed.

(** [s.find(sub)] is the first occurrence. *)
Lemma find_from_spec (sub s : str) (i : Z) :
  sub <> [] ->
  (find_from sub s i = (-1)%Z /\ contains s sub = false)
  \/ exists n : nat,
       find_from sub s i = (i + Z.of_nat n)%Z
       /\ (n <= length s)%nat
       /\ startswith (skipn n s) sub = true
       /\ contains (firstn n s) sub = false.
Proof.
  intros Hs; revert i; induction s as [|c s IH]; intros i.
  - left; cbn [find_from contains].
    destruct sub; [congruence|now split].
  - cbn [find_from].
    destruct (startswith (c :: s) sub) eqn:E.
    + right; exists 0%nat; repeat split;
        [lia|simpl; lia|exact E|now apply contains_nil].
    + destruct (IH (i + 1)%Z) as [[F C]|(n & F & Le & Occ & C)].
      * left; split; [exact F|].
        cbn [contains]; now rewrite E, C.
      * right; exists (S n); repeat split;
          [lia|simpl; lia|exact Occ|].
        cbn [firstn contains]; rewrite C, orb_false_r.
        destruct (startswith (c :: firstn n s) sub) eqn:E'; [|reflexivity].
        apply (startswith_firstn sub (c :: s) (S n)) in E'; congruence.
Qed.

(** [s.rfind(sub)] is the last occurrence. *)
Lemma rfind_from_spec (sub s : str) (i best : Z) :
  sub <> [] ->
  (rfind_from sub s i best = best /\ contains s sub = false)
  \/ exists n : nat,
       rfind_from sub s i best = (i + Z.of_nat n)%Z
       /\ (n < length s)%nat
       /\ startswith (skipn n s) sub = true
       /\ contains (skipn (S n) s) sub = false.
Proof.
  intros Hs; revert i best; induction s as [|c s IH]; intros i best.
  - left; cbn [rfind_from].
    destruct sub; [congruence|now split].
  - cbn [rfind_from].
    destruct (IH (i + 1)%Z (if startswith (c :: s) sub then i else best))
      as [[F C]|(n & F & Le & Occ & C)].
    + destruct (startswith (c :: s) sub) eqn:E.
      * right; exists 0%nat; repeat split;
          [lia|simpl; lia|exact E|exact C].
      * left; split; [exact F|].
        cbn [contains]; now rewrite E, C.
    + right; exists (S n); repeat split; [lia|simpl; lia|exact Occ|exact C].
Qed.

Lemma startswith_firstn_one (s : str) (c : ascii) (m : nat) :
  startswith s [c] = true -> (1 <= m)%nat ->
  startswith (firstn m s) [c] = true.
Proof.
  destruct s as [|b s]; [discriminate|].
  destruct m as [|m]; [lia|].
  intros H _; cbn [firstn startswith] in *.
  apply andb_true_iff in H; destruct H as [-> _]; now destruct (firstn m s).
Qed.

End FindFacts.

Section JsonWindow.

Import Extractor.

Context {ext : Externals}.

(** X22.  Between the removal of the code fences and the two repairs,
    [_clean_json_response] cuts the reply to a window: from the first
    opening brace (nothing is cut in front when the reply begins with it
    or has none) to the last closing brace (nothing is cut behind when
    there is none, or none but at the first character). *)
Theorem clean_json_response_cuts_a_window (response_text : str) :
  let fenced :=
    re_sub (L "```(?:json)?\s*|\s*```") [] [] (strip response_text) in
  exists before window after,
    fenced = before ++ window ++ after
    /\ _clean_json_response response_text
       = re_sub (L "([" ++ q ++ L "\'])\s*\n\s*([" ++ q ++ L "\'])")
           (L "\1 \2") []
           (re_sub (L ",(\s*[}\]])") (L "\1") [] window)
    /\ (before = []
        \/ (startswith window (L "{") = true
            /\ contains before (L "{") = false))
    /\ (after = []
        \/ (ends_with window (L "}") /\ contains after (L "}") = false)).
Proof.
  intros fenced; unfold _clean_json_response; fold fenced.
  generalize fenced; clear fenced; intros fenced.
  (* the cut at the first opening brace *)
  assert (First :
    exists before cleaned,
      fenced = before ++ cleaned
      /\ (if (find fenced (L "{") >? 0)%Z
          then slice_from fenced (find fenced (L "{")) else fenced) = cleaned
      /\ (before = []
          \/ (startswith cleaned (L "{") = true
              /\ contains before (L "{") = false))).
  { unfold find.
    destruct (@find_from_spec (L "{") fenced 0 ltac:(discriminate))
      as [[F _]|(n & F & Ln & Occ & C)]; rewrite F.
    - exists [], fenced; repeat split; now left.
    - destruct n as [|n].
      + exists [], fenced; repeat split; now left.
      + exists (firstn (S n) fenced), (skipn (S n) fenced).
        replace (0 + Z.of_nat (S n) >? 0)%Z with true
          by (symmetry; apply Z.gtb_lt; lia).
        rewrite slice_from_in_range by (unfold len; lia).
        replace (Z.to_nat (0 + Z.of_nat (S n))) with (S n) by lia.
        repeat split; [now rewrite firstn_skipn|now right]. }
  destruct First as (before & cleaned & E1 & -> & B).
  (* the cut at the last closing brace *)
  unfold rfind.
  destruct (@rfind_from_spec (L "}") cleaned 0 (-1) ltac:(discriminate))
    as [[F _]|(n & F & Ln & Occ & C)]; rewrite F.
  - exists before, cleaned, []; rewrite app_nil_r.
    repeat split; [exact E1|exact B|now left].
  - destruct n as [|n].
    + exists before, cleaned, []; rewrite app_nil_r.
      repeat split; [exact E1|exact B|now left].
    + exists before, (firstn (S (S n)) cleaned), (skipn (S (S n)) cleaned).
      replace (0 + Z.of_nat (S n) >? 0)%Z with true
        by (symmetry; apply Z.gtb_lt; lia).
      rewrite slice_prefix by lia.
      replace (Z.to_nat (0 + Z.of_nat (S n) + 1)) with (S (S n)) by lia.
      repeat split.
      * now rewrite firstn_skipn.
      * destruct B as [B|[B1 B2]]; [now left|right; split; [|exact B2]].
        apply startswith_firstn_one; [exact B1|lia].
      * right; split; [|exact C].
        exists (firstn (S n) cleaned).
        apply startswith_app in Occ.
        rewrite <- (firstn_skipn (S n) cleaned) at 1.
        rewrite firstn_app, length_firstn.
        replace (Nat.min (S n) (length cleaned)) with (S n) by lia.
        rewrite firstn_all2 by (rewrite length_firstn; lia).
        f_equal.
        replace (S (S n) - S n)%nat with 1%nat by lia.
        rewrite Occ at 1; reflexivity.
Qed.

End JsonWindow.

Section JsonWindowExample.

Import Extractor Doubles.

(** Prose around an object is cut away. *)
Lemma clean_json_response_example :
  @_clean_json_response finds_nothing
    (L "Here you are: {" ++ q ++ L "requirements" ++ q ++ L ": []} Regards")
  = empty_reply.
Proof. vm_compute; reflexivity. Qed.

End JsonWindowExample.

Section PatternRecords.

Import Extractor.

Context {ext : Externals}.

Lemma fallback_match_numbered (id : chunk_ref) (acc : list Requirement * Z)
    (group1 : str) :
  snd acc = (1 + Z.of_nat (length (fst acc)))%Z
  /\ map req_id (fst acc) = fallback_ids id (length (fst acc))
  /\ Forall pattern_record (fst acc) ->
  snd (fallback_match id acc group1)
  = (1 + Z.of_nat (length (fst (fallback_match id acc group1))))%Z
  /\ map req_id (fst (fallback_match id acc group1))
     = fallback_ids id (length (fst (fallback_match id acc group1)))
  /\ Forall pattern_record (fst (fallback_match id acc group1)).
Proof.
  destruct acc as [requirements next_id]; cbn [fst snd].
  intros (N & I & F); unfold fallback_match.
  destruct (Z.gtb_spec (len (strip group1)) 20) as [G|G]; cbn [andb];
    [|now repeat split].
  destruct (Z.ltb_spec (len (strip group1)) 500) as [G'|G'];
    [|now repeat split].
  cbn [fst snd]; rewrite length_app, map_app, I, N; cbn [length map].
  split; [lia|split].
  - unfold fallback_ids.
    rewrite Nat.add_1_r, seq_S, map_app; cbn [map req_id].
    replace (Z.of_nat (1 + length requirements))
      with (1 + Z.of_nat (length requirements))%Z by lia.
    reflexivity.
  - apply Forall_app; split; [exact F|].
    constructor; [|constructor].
    unfold pattern_record.
    cbn [requirement category priority keywords requirement_type deadline
         applies_to].
    repeat split; try lia.
    exists (_extract_enhanced_keywords (strip group1)); split; [reflexivity|].
    unfold _extract_enhanced_keywords; rewrite length_firstn; lia.
Qed.

(** X23.  The records of the pattern fallback are numbered from 001 in the
    order they are found, across the patterns; each holds a text of more
    than 20 and fewer than 500 characters, the category of the
    classifier, priority [high] exactly when it names an obligation, at
    most 10 keywords, and no requirement type, deadline or addressee. *)
Theorem pattern_records_are_numbered (patterns : list str) (text : str)
    (id : chunk_ref) :
  map req_id (fallback_scan patterns text id)
  = fallback_ids id (length (fallback_scan patterns text id))
  /\ Forall pattern_record (fallback_scan patterns text id).
Proof.
  unfold fallback_scan.
  assert (G : forall acc : list Requirement * Z,
            snd acc = (1 + Z.of_nat (length (fst acc)))%Z
            /\ map req_id (fst acc) = fallback_ids id (length (fst acc))
            /\ Forall pattern_record (fst acc) ->
            let out :=
              fold_left
                (fun acc pattern =>
                   fold_left (fallback_match id)
                     (re_finditer pattern [IGNORECASE; MULTILINE; DOTALL]
                        text) acc)
                patterns acc in
            snd out = (1 + Z.of_nat (length (fst out)))%Z
            /\ map req_id (fst out) = fallback_ids id (length (fst out))
            /\ Forall pattern_record (fst out)).
  { induction patterns as [|pattern patterns IH]; intros acc H; [exact H|].
    cbn [fold_left]; apply IH.
    generalize (re_finditer pattern [IGNORECASE; MULTILINE; DOTALL] text).
    intros groups; revert acc H.
    induction groups as [|g groups IHg]; intros acc H; [exact H|].
    cbn [fold_left]; apply IHg.
    now apply (@fallback_match_numbered id acc g). }
  destruct (G ([], 1%Z)) as (_ & I & F);
    [repeat split; constructor|].
  split; [exact I|exact F].
Qed.

(** *** Fingerprints *)

(** X24.  Two records that carry a fingerprint and hold the same text carry
    the same fingerprint, the first 8 characters of the MD5 digest of
    the text, whatever chunks and tiers they come from. *)
Theorem fingerprints_agree_on_equal_texts (depth1 depth2 : nat)
    (chunk1 chunk2 : ChunkDict) (calls1 calls2 calls1' calls2' : nat)
    (rs1 rs2 : list Requirement) (r1 r2 : Requirement) :
  extract_requirements depth1 chunk1 calls1 = Some (rs1, calls1') ->
  extract_requirements depth2 chunk2 calls2 = Some (rs2, calls2') ->
  In r1 rs1 -> In r2 rs2 ->
  content_hash r1 <> None -> content_hash r2 <> None ->
  requirement r1 = requirement r2 ->
  content_hash r1 = content_hash r2
  /\ content_hash r1 = Some (slice (md5_hexdigest (requirement r1)) 0 8).
Proof.
  intros E1 E2 I1 I2 N1 N2 Q.
  apply records_lineage in E1; apply records_lineage in E2.
  rewrite Forall_forall in E1, E2.
  destruct (E1 r1 I1) as (_ & S1 & _); destruct (E2 r2 I2) as (_ & S2 & _).
  assert (H : forall r,
            shaped r -> content_hash r <> None ->
            content_hash r = Some (slice (md5_hexdigest (requirement r)) 0 8)).
  { intros r [(_ & H & _)|[(_ & H & _)|(_ & H & _)]] N;
      [exact H|congruence|congruence]. }
  rewrite (H r1 S1 N1), (H r2 S2 N2), Q; now split.
Qed.

(** *** Error records *)

(** X25.  A chunk that is not split gives ordinary records only, or else
    the error record alone; the latter only for a chunk sent to the
    model, after two calls. *)
Theorem error_record_stands_alone (depth : nat) (chunk : ChunkDict)
    (calls calls' : nat) (rs : list Requirement) :
  let quality :=
    _assess_content_quality (_preprocess_content (get_content chunk)) in
  extract_requirements depth chunk calls = Some (rs, calls') ->
  truthy (strip (get_content chunk)) = false
  \/ likely_corrupted quality = true \/ needs_splitting quality = false ->
  Forall ordinary rs
  \/ (exists r,
        rs = [r] /\ error_sentinel r /\ sent_to_model chunk
        /\ calls' = S (S calls)).
Proof.
  intros quality E H; subst quality.
  assert (Lift : forall id rs, Forall (plain id) rs -> Forall ordinary rs).
  { intros id rs0; apply Forall_impl; now intros r (_ & _ & _ & O). }
  rewrite extract_requirements_unfold in E; cbv zeta in E.
  destruct (truthy (strip (get_content chunk))) eqn:H1; cbn [negb] in E;
    [|injection E as <- _; left; constructor].
  destruct (likely_corrupted _) eqn:H2;
    [injection E as <- _; left; apply (Lift _ _ (fallback_plain _ _ _))|].
  destruct (needs_splitting _) eqn:H3;
    [destruct H as [H|[H|H]]; discriminate|].
  destruct (attempt_loop _ _ _ _) as [[rs0|e] calls0] eqn:A.
  - injection E as <- _; left.
    apply attempt_loop_plain in A; now apply Lift in A.
  - injection E as <- <-; right.
    apply attempt_loop_two in A.
    destruct A as [(_ & r & rs0 & A) | ->]; [discriminate|].
    unfold _create_error_fallback.
    eexists; split; [reflexivity|].
    split; [|split; [|reflexivity]].
    + unfold error_sentinel;
        cbn [extraction_method content_hash error requires_manual_review
             requirement].
      repeat split; [eauto|apply startswith_prefix].
    + repeat split; assumption.
Qed.

End PatternRecords.

Section PatternRecordsExample.

Import Extractor Doubles Scenarios.

Lemma error_record_stands_alone_witness :
  exists r,
    @extract_requirements always_failing 0 paid_dividends 0
    = Some ([r], 2%nat)
    /\ (Forall (@ordinary always_failing) [r]
        \/ (exists r',
              [r] = [r'] /\ error_sentinel r'
              /\ @sent_to_model always_failing paid_dividends
              /\ 2%nat = 2%nat)).
Proof.
  eexists; split; [vm_compute; reflexivity|].
  apply (@error_record_stands_alone always_failing 0 paid_dividends 0 2).
  - vm_compute; reflexivity.
  - right; right; vm_compute; reflexivity.
Defined.

(** The same sentence found by the model in two chunks. *)
Lemma fingerprints_agree_on_equal_texts_witness :
  exists r1 r2,
    @extract_requirements finds_one 0 paid_dividends 0 = Some ([r1], 1%nat)
    /\ @extract_requirements finds_one 0
         {| chunk_content := Some (L "Dividends were paid in April.");
            chunk_chunk_id := Some (IdInt 2) |} 1
       = Some ([r2], 2%nat)
    /\ chunk_id r1 <> chunk_id r2
    /\ content_hash r1 = content_hash r2
    /\ content_hash r1
       = Some (slice (@md5_hexdigest finds_one (requirement r1)) 0 8).
Proof.
  do 2 eexists.
  split; [vm_compute; reflexivity|].
  split; [vm_compute; reflexivity|].
  split; [discriminate|].
  apply (@fingerprints_agree_on_equal_texts finds_one 0 0 paid_dividends
           {| chunk_content := Some (L "Dividends were paid in April.");
              chunk_chunk_id := Some (IdInt 2) |} 0 1 1 2 _ _ _ _
           ltac:(vm_compute; reflexivity) ltac:(vm_compute; reflexivity)
           (or_introl eq_refl) (or_introl eq_refl));
    [discriminate|discriminate|reflexivity].
Defined.

End PatternRecordsExample.

(** ** The text and the contents of its chunks *)

Section BlankFacts.

Lemma blank_app (w v : str) : blank (w ++ v) <-> blank w /\ blank v.
Proof. unfold blank; rewrite forallb_app; apply andb_true_iff. Qed.

Lemma blank_firstn (n : nat) (w : str) : blank w -> blank (firstn n w).
Proof.
  intros B; rewrite <- (firstn_skipn n w) in B.
  now apply blank_app in B.
Qed.

Lemma blank_skipn (n : nat) (w : str) : blank w -> blank (skipn n w).
Proof.
  intros B; rewrite <- (firstn_skipn n w) in B.
  now apply blank_app in B.
Qed.

Lemma blank_strip (s : str) : truthy (strip s) = false -> blank s.
Proof. intros H; apply visible_nil_iff, strip_blank_iff, H. Qed.

Lemma dropWhile_parts (f : ascii -> bool) (s : str) :
  exists dropped, s = dropped ++ dropWhile f s /\ forallb f dropped = true.
Proof.
  induction s as [|c s (dropped & E & F)]; [exists []; now split|].
  cbn [dropWhile]; destruct (f c) eqn:Fc.
  - exists (c :: dropped); split; [simpl; now f_equal|].
    simpl; now rewrite Fc.
  - exists []; now split.
Qed.

Lemma rstrip_parts (s : str) :
  exists dropped, s = rstrip s ++ dropped /\ blank dropped.
Proof.
  induction s as [|c s (dropped & E & B)]; [exists []; now split|].
  cbn [rstrip]; destruct (rstrip s) as [|k kept].
  - destruct (isspace c) eqn:Sc.
    + exists (c :: dropped); split; [simpl in *; now f_equal|].
      unfold blank in *; simpl; now rewrite Sc.
    + exists dropped; split; [simpl in *; now f_equal|exact B].
  - exists dropped; split; [simpl in *; now f_equal|exact B].
Qed.

(** What [strip] takes off is whitespace, at the two ends. *)
Lemma strip_parts (s : str) :
  exists before after,
    s = before ++ strip s ++ after /\ blank before /\ blank after.
Proof.
  destruct (dropWhile_parts isspace s) as (before & E1 & B1).
  destruct (rstrip_parts (lstrip s)) as (after & E2 & B2).
  exists before, after; repeat split; [|exact B1|exact B2].
  unfold strip; rewrite <- E2; exact E1.
Qed.

(** What [marker.lstrip('\n')] takes off is whitespace. *)
Lemma lstrip_nl_parts (marker : str) :
  exists newlines,
    marker = newlines ++ lstrip_chars [nl] marker /\ blank newlines.
Proof.
  unfold lstrip_chars.
  destruct (dropWhile_parts (fun c => existsb (Ascii.eqb c) [nl]) marker)
    as (newlines & E & F).
  exists newlines; split; [exact E|].
  unfold blank; rewrite forallb_forall in *; intros c Hc.
  specialize (F c Hc); simpl in F; rewrite orb_false_r in F.
  apply Ascii.eqb_eq in F; now subst c.
Qed.

Lemma trimmed_head (c : str) :
  trimmed c -> exists a rest, c = a :: rest /\ isspace a = false.
Proof.
  intros [N E]; unfold strip in E.
  destruct (lstrip_head c) as [H|(a & t & H & Sa)].
  - rewrite H in E; simpl in E; congruence.
  - rewrite H in E.
    destruct (@rstrip_head a t Sa) as (kept & R).
    rewrite R in E; eauto.
Qed.

Lemma strip_trimmed (p : str) : truthy (strip p) = true -> trimmed (strip p).
Proof.
  intros H; split; [|apply strip_idem].
  intros E; rewrite E in H; discriminate.
Qed.

(** Two ways of reading a text as whitespace and then a visible character
    agree. *)
Lemma blank_prefix_unique (b w x y : str) (a a' : ascii) :
  blank b -> blank w -> isspace a = false -> isspace a' = false ->
  b ++ a :: x = w ++ a' :: y -> b = w /\ a :: x = a' :: y.
Proof.
  unfold blank; revert w; induction b as [|c b IH];
    intros [|c' w] Bb Bw Sa Sa' E; simpl in *.
  - now split.
  - injection E as -> _; apply andb_true_iff in Bw as [Bw _]; congruence.
  - injection E as -> _; apply andb_true_iff in Bb as [Bb _]; congruence.
  - injection E as -> E.
    apply andb_true_iff in Bb as [_ Bb]; apply andb_true_iff in Bw as [_ Bw].
    destruct (IH w Bb Bw Sa Sa' E) as [-> H]; now split.
Qed.

End BlankFacts.

Section CoverFacts.

Variable ov : Z.

Lemma covers_blank_front (w : str) (R : list str) (t : str) :
  blank w -> covers ov R t -> covers ov R (w ++ t).
Proof.
  intros B [w0 B0|w0 c t0 j rest B0 Hj Hov H].
  - constructor; apply blank_app; now split.
  - rewrite app_assoc; apply covers_next with (j := j); auto.
    apply blank_app; now split.
Qed.

Lemma covers_blank_back (w : str) (R : list str) (t : str) :
  blank w -> covers ov R t -> covers ov R (t ++ w).
Proof.
  intros B H; induction H as [w0 B0|w0 c t0 j rest B0 Hj Hov H IH].
  - constructor; apply blank_app; now split.
  - rewrite <- !app_assoc; apply covers_next with (j := j); auto.
    now rewrite app_assoc.
Qed.

(** One content and nothing shared with the next. *)
Lemma covers_whole (c : str) (R : list str) (t : str) :
  covers ov R t -> (0 <= ov)%Z -> covers ov (c :: R) (c ++ t).
Proof.
  intros H Hov.
  change (c ++ t) with ([] ++ c ++ t).
  apply covers_next with (j := 0%nat); [reflexivity|lia|lia|].
  now rewrite Nat.sub_0_r, skipn_all.
Qed.

(** Whitespace in front of a text that begins with a visible character
    belongs to no content that is trimmed. *)
Lemma covers_drop_blank (b x : str) (R : list str) :
  blank b -> (exists a rest, x = a :: rest /\ isspace a = false) ->
  Forall trimmed R -> covers ov R (b ++ x) -> covers ov R x.
Proof.
  intros B (a & x' & -> & Sa) T H.
  remember (b ++ a :: x') as text eqn:E.
  destruct H as [w0 B0|w0 c t0 j rest B0 Hj Hov H].
  - subst w0; apply blank_app in B0 as [_ B0]; now constructor.
  - apply Forall_inv in T; apply trimmed_head in T as (a' & c' & -> & Sa').
    simpl in E.
    destruct (@blank_prefix_unique b w0 x' (c' ++ t0) a a' B B0 Sa Sa'
                (eq_sym E))
      as [_ ->].
    change (a' :: c' ++ t0) with ([] ++ (a' :: c') ++ t0).
    apply covers_next with (j := j); auto; reflexivity.
Qed.

(** One piece of the splitter in front of what the later pieces cover: the
    piece is stripped, or dropped when it is blank, and the next piece
    starts [n] characters before its end. *)
Lemma covers_piece (p t : str) (n : nat) (R : list str) :
  Forall trimmed R -> (n <= length p)%nat -> (Z.of_nat n <= ov)%Z ->
  covers ov R (skipn (length p - n) p ++ t) ->
  covers ov ((if truthy (strip p) then [strip p] else []) ++ R) (p ++ t).
Proof.
  intros T Hn Hov H.
  destruct (truthy (strip p)) eqn:Tp; cbn [app].
  - destruct (strip_parts p) as (lw & rw & E & Bl & Br).
    pose proof (strip_trimmed p Tp) as Tc.
    set (c := strip p) in *; clearbody c.
    subst p; rewrite <- !app_assoc.
    rewrite !length_app in H, Hn.
    destruct (Nat.le_gt_cases n (length rw)) as [C1|C1].
    + (* the next piece starts in the whitespace behind the content *)
      apply covers_next with (j := 0%nat); [exact Bl|lia|lia|].
      rewrite Nat.sub_0_r, skipn_all; cbn [app].
      rewrite !skipn_app in H.
      rewrite (skipn_all2 lw), (skipn_all2 c) in H by lia.
      cbn [app] in H.
      rewrite <- (firstn_skipn (length rw - n) rw), <- app_assoc.
      apply covers_blank_front; [now apply blank_firstn|].
      replace (length lw + (length c + length rw) - n - length lw
               - length c)%nat
        with (length rw - n)%nat in H by lia.
      exact H.
    + destruct (Nat.le_gt_cases n (length rw + length c)) as [C2|C2].
      * (* it starts in the content *)
        apply covers_next with (j := (n - length rw)%nat);
          [exact Bl|lia|lia|].
        rewrite !skipn_app in H.
        rewrite (skipn_all2 lw) in H by lia.
        cbn [app] in H.
        replace (length lw + (length c + length rw) - n - length lw)%nat
          with (length c - (n - length rw))%nat in H by lia.
        replace (length c - (n - length rw) - length c)%nat with 0%nat in H
          by lia.
        rewrite skipn_O, <- app_assoc in H.
        exact H.
      * (* it starts in the whitespace in front of the content *)
        apply covers_next with (j := length c); [exact Bl|lia|lia|].
        rewrite Nat.sub_diag, skipn_O.
        rewrite !skipn_app in H.
        replace (length lw + (length c + length rw) - n - length lw)%nat
          with 0%nat in H by lia.
        cbn [Nat.sub] in H; rewrite !skipn_O, <- !app_assoc in H.
        apply covers_drop_blank in H; [exact H|now apply blank_skipn| |exact T].
        destruct (trimmed_head Tc) as (a & c' & -> & Sa).
        exists a, (c' ++ rw ++ t); split; [reflexivity|exact Sa].
  - rewrite <- (firstn_skipn (length p - n) p), <- app_assoc.
    apply covers_blank_front; [|exact H].
    apply blank_firstn, blank_strip, Tp.
Qed.

End CoverFacts.

Section ChunkerCovers.

Import Chunker.

Lemma contents_of_cons (p : str) (pieces : list str) :
  contents_of (p :: pieces)
  = (if truthy (strip p) then [strip p] else []) ++ contents_of pieces.
Proof. unfold contents_of; cbn [filter]; now destruct (truthy (strip p)). Qed.

Lemma contents_of_app (pieces others : list str) :
  contents_of (pieces ++ others) = contents_of pieces ++ contents_of others.
Proof. unfold contents_of; now rewrite filter_app, map_app. Qed.

Lemma contents_of_trimmed (pieces : list str) :
  Forall trimmed (contents_of pieces).
Proof.
  unfold contents_of; apply Forall_forall; intros c Hc.
  apply in_map_iff in Hc as (p & <- & Hp).
  apply filter_In in Hp as [_ Hp]; now apply strip_trimmed.
Qed.

Section Pieces.

Variable self : ChunkerAgent.
Hypothesis overlap_nonneg : (0 <= overlap self)%Z.
Hypothesis overlap_fits : (overlap self + 200 <= chunk_size self)%Z.

(** The pieces the loop cuts from [start] on cover the section from there
    on: each is followed by the next, which starts [overlap] characters
    before its end. *)
Lemma split_loop_covers (section : str) (fuel : nat) :
  forall (start : Z) (pieces : list str) (R : list str) (t : str),
    (0 <= start)%Z ->
    split_loop self fuel section start = Some pieces ->
    Forall trimmed R -> covers (overlap self) R t ->
    covers (overlap self) (contents_of pieces ++ R)
      (skipn (Z.to_nat start) section ++ t).
Proof.
  induction fuel as [|fuel IH]; intros start pieces R t H0 E T C.
  - cbn [split_loop] in E.
    destruct (Z.ltb_spec start (len section)); [discriminate|].
    injection E as <-; cbn [app].
    rewrite skipn_all2 by (unfold len in *; lia); exact C.
  - destruct (@split_loop_cases self overlap_nonneg overlap_fits section
                fuel start H0) as [H|H|b H Hb].
    + injection E as <-; cbn [app].
      rewrite skipn_all2 by (unfold len in *; lia); exact C.
    + injection E as <-.
      rewrite contents_of_cons; change (contents_of []) with (@nil str).
      rewrite <- app_assoc; cbn [app].
      apply covers_piece with (n := 0%nat); [exact T|lia|lia|].
      now rewrite Nat.sub_0_r, skipn_all.
    + destruct (split_loop self fuel section (b - overlap self))
        as [rest|] eqn:Rest; [|discriminate].
      injection E as <-.
      rewrite contents_of_cons, <- app_assoc.
      pose proof (IH (b - overlap self)%Z rest R t ltac:(lia) Rest T C) as C'.
      set (p := firstn (Z.to_nat (b - start))
                  (skipn (Z.to_nat start) section)).
      assert (Lp : length p = Z.to_nat (b - start)).
      { unfold p; rewrite length_firstn, length_skipn; unfold len in *; lia. }
      assert (Ep : skipn (Z.to_nat start) section
                   = p ++ skipn (Z.to_nat b) section).
      { unfold p.
        replace (Z.to_nat b)
          with (Z.to_nat (b - start) + Z.to_nat start)%nat by lia.
        now rewrite <- skipn_skipn, firstn_skipn. }
      rewrite Ep, <- app_assoc.
      apply covers_piece with (n := Z.to_nat (overlap self));
        [apply Forall_app; split; [apply contents_of_trimmed|exact T]|lia|lia|].
      replace (skipn (length p - Z.to_nat (overlap self)) p
               ++ skipn (Z.to_nat b) section ++ t)
        with (skipn (Z.to_nat (b - overlap self)) section ++ t); [exact C'|].
      rewrite app_assoc; f_equal.
      rewrite Lp; unfold p; rewrite skipn_firstn_comm, skipn_skipn.
      replace (Z.to_nat (b - start) - Z.to_nat (overlap self)
               + Z.to_nat start)%nat
        with (Z.to_nat (b - overlap self)) by lia.
      replace (Z.to_nat (b - start)
               - (Z.to_nat (b - start) - Z.to_nat (overlap self)))%nat
        with (Z.to_nat (overlap self)) by lia.
      replace (Z.to_nat b)
        with (Z.to_nat (overlap self) + Z.to_nat (b - overlap self))%nat
        by lia.
      now rewrite <- skipn_skipn, firstn_skipn.
Qed.

Lemma section_pieces_cover (section : str) (pieces : list str)
    (R : list str) (t : str) :
  section_pieces self section = Some pieces ->
  Forall trimmed R -> covers (overlap self) R t ->
  covers (overlap self) (contents_of pieces ++ R) (section ++ t).
Proof.
  unfold section_pieces, _split_large_section; intros E T C.
  destruct (len section <=? chunk_size self)%Z.
  - injection E as <-.
    rewrite contents_of_cons; change (contents_of []) with (@nil str).
    rewrite <- app_assoc; cbn [app].
    apply covers_piece with (n := 0%nat); [exact T|lia|lia|].
    now rewrite Nat.sub_0_r, skipn_all.
  - exact (@split_loop_covers section _ 0%Z pieces R t (Z.le_refl 0) E T C).
Qed.

(** The sections cover the text with nothing shared; so do the contents
    made of their pieces, with the overlap between the pieces of a
    section. *)
Lemma enforce_size_covers (sections : list str) (text : str) :
  covers 0 sections text ->
  forall final_chunks,
    enforce_size self sections = Some final_chunks ->
    covers (overlap self) (contents_of final_chunks) text.
Proof.
  induction 1 as [w B|w c t j rest B Hj Hov H IH]; intros final_chunks E.
  - injection E as <-; now constructor.
  - assert (j = 0%nat) by lia; subst j.
    rewrite Nat.sub_0_r, skipn_all in H, IH; cbn [app] in H, IH.
    cbn [enforce_size] in E.
    destruct (section_pieces self c) as [pieces|] eqn:P; [|discriminate].
    destruct (enforce_size self rest) as [others|]; [|discriminate].
    injection E as <-.
    rewrite contents_of_app.
    apply covers_blank_front; [exact B|].
    apply section_pieces_cover;
      [exact P|apply contents_of_trimmed|now apply IH].
Qed.

End Pieces.

(** *** The structural split *)

Section Markers.

Variable marker : str.

Lemma join_cons_concat (p : str) (parts : list str) :
  join marker (p :: parts)
  = p ++ concat (map (fun part => marker ++ part) parts).
Proof.
  revert p; induction parts as [|q parts IH]; intros p.
  - simpl; now rewrite app_nil_r.
  - rewrite join_cons by discriminate.
    rewrite IH; cbn [map concat]; now rewrite <- app_assoc.
Qed.

Lemma reattach_later_covers (parts : list str) (R : list str) (t : str) :
  forall i : Z,
    (0 < i)%Z -> covers 0 R t ->
    covers 0 (flat_map (reattach_marker marker) (enumerate_from i parts) ++ R)
      (concat (map (fun part => marker ++ part) parts) ++ t).
Proof.
  induction parts as [|p parts IH]; intros i Hi C; [exact C|].
  cbn [enumerate_from flat_map map concat].
  rewrite <- !app_assoc.
  specialize (IH (i + 1)%Z ltac:(lia) C).
  unfold reattach_marker at 1.
  replace (i >? 0)%Z with true by (symmetry; apply Z.gtb_lt; lia).
  destruct (lstrip_nl_parts marker) as (newlines & E & B).
  set (kept := lstrip_chars [nl] marker) in *.
  match goal with
  | |- covers _ _ (marker ++ p ++ ?x) =>
      replace (marker ++ p ++ x) with (newlines ++ (kept ++ p) ++ x)
        by (rewrite E at 1; now rewrite <- !app_assoc)
  end.
  apply covers_blank_front; [exact B|].
  destruct (truthy (strip (kept ++ p))) eqn:Tp; cbn [app].
  - now apply covers_whole.
  - apply covers_blank_front; [now apply blank_strip|exact IH].
Qed.

Lemma split_on_marker_covers (section : str) (R : list str) (t : str) :
  marker <> [] -> covers 0 R t ->
  covers 0 (split_on_marker marker section ++ R) (section ++ t).
Proof.
  intros Hm C; unfold split_on_marker.
  destruct (contains section marker); [|now apply covers_whole].
  pose proof (join_split section Hm) as J.
  destruct (split section marker) as [|p parts] eqn:S;
    [exfalso; revert S; unfold split; apply split_go_nonempty|].
  rewrite join_cons_concat in J; rewrite <- J.
  unfold enumerate; cbn [enumerate_from flat_map].
  rewrite <- !app_assoc.
  pose proof (@reattach_later_covers parts R t (0 + 1)%Z ltac:(lia) C) as C'.
  unfold reattach_marker at 1; cbn [Z.gtb Z.compare].
  destruct (truthy (strip p)) eqn:Tp; cbn [app].
  - now apply covers_whole.
  - apply covers_blank_front; [now apply blank_strip|exact C'].
Qed.

Lemma flat_map_split_covers (sections : list str) (text : str) :
  marker <> [] -> covers 0 sections text ->
  covers 0 (flat_map (split_on_marker marker) sections) text.
Proof.
  intros Hm; induction 1 as [w B|w c t j rest B Hj Hov H IH].
  - now constructor.
  - assert (j = 0%nat) by lia; subst j.
    rewrite Nat.sub_0_r, skipn_all in H, IH; cbn [app] in H, IH.
    cbn [flat_map].
    apply covers_blank_front; [exact B|].
    now apply split_on_marker_covers.
Qed.

End Markers.

(** The sections of the structural split cover the content, with nothing
    shared: what lies between them is whitespace. *)
Lemma split_sections_cover (content : str) :
  covers 0 (split_sections content) content.
Proof.
  unfold split_sections.
  assert (G : forall markers sections,
            Forall (fun m => m <> []) markers ->
            covers 0 sections content ->
            covers 0
              (fold_left
                 (fun sections marker =>
                    flat_map (split_on_marker marker) sections)
                 markers sections) content).
  { induction markers as [|m markers IH]; intros sections F C; [exact C|].
    cbn [fold_left]; apply IH; [now inversion F|].
    apply flat_map_split_covers; [now inversion F|exact C]. }
  apply G; [unfold section_markers; repeat constructor; discriminate|].
  rewrite <- (app_nil_r content) at 2.
  apply covers_whole; [now constructor|lia].
Qed.

(** C1 (as stated, refuted).  Two texts.  In the first, two sections are
    separated by a triple newline: the marker is removed by [split] and
    [marker.lstrip] reattaches nothing, so the contents, put end to end,
    are three characters short of the text.  In the second, a window of
    300 characters with an overlap of 50 ends in a run of spaces: the
    second piece starts with ten of them, which [strip] removes, so the
    two contents share 40 characters, not 50, and with 50 characters of
    the second content ignored ten letters of the text are lost. *)
Lemma contents_do_not_rebuild_the_text :
  (let T := L "aaaaaaaaaa" ++ [nl; nl; nl] ++ L "bbbbbbbbbb" in
   (10 <= len T)%Z
   /\ exists chunks,
        chunk_document default_agent T (L "policy") = Some chunks
        /\ map content chunks = [L "aaaaaaaaaa"; L "bbbbbbbbbb"]
        /\ concat (map content chunks) <> T)
  /\ (let self := mkChunkerAgent 300 50 in
      let T :=
        repeat "a"%char 240 ++ repeat " "%char 20 ++ repeat "b"%char 200 in
      exists chunks,
        chunk_document self T (L "policy") = Some chunks
        /\ map content chunks
           = [repeat "a"%char 240 ++ repeat " "%char 20 ++ repeat "b"%char 40;
              repeat "b"%char 200]
        /\ unoverlap (overlap self) (map content chunks) <> T
        /\ len (visible (unoverlap (overlap self) (map content chunks)))
           = 430%Z
        /\ len (visible T) = 440%Z).
Proof.
  split.
  - split; [vm_compute; discriminate|].
    eexists; split; [vm_compute; reflexivity|].
    split; [reflexivity|vm_compute; discriminate].
  - eexists; split; [vm_compute; reflexivity|].
    split; [vm_compute; reflexivity|].
    split; [|split; vm_compute; reflexivity].
    intros E; apply (f_equal (@length ascii)) in E; vm_compute in E;
      discriminate.
Qed.

(** C1 (amended).  For a text whose stripped length is at least 10 and a
    well-configured agent, [chunk_document] returns chunks whose contents
    are windows of the text, in order, that leave nothing but whitespace
    out: the text is whitespace, the first content, whitespace, the second
    content, and so on to its end, where a content may begin up to
    [overlap] characters before the end of the one before it.  So every
    character of the text that is not whitespace is kept, in its place,
    and so is the whitespace inside a content; no content is empty or has
    whitespace at its ends. *)
Theorem chunks_cover_the_text (self : ChunkerAgent) (T dt : str) :
  well_configured self -> (10 <= len (strip T))%Z ->
  exists chunks,
    chunk_document self T dt = Some chunks
    /\ covers (overlap self) (map content chunks) T
    /\ Forall trimmed (map content chunks).
Proof.
  intros C H.
  destruct (section_groups_spec C (split_sections (strip T)))
    as (groups & _ & G & _).
  exists (build_result dt (concat groups)).
  rewrite chunk_document_long by exact H.
  unfold intelligent_chunk; rewrite G; cbn [option_map].
  rewrite build_result_contents.
  split; [reflexivity|split; [|apply contents_of_trimmed]].
  destruct C as [Hov Hcs].
  destruct (strip_parts T) as (before & after & E & B1 & B2).
  rewrite E at 1.
  apply covers_blank_front; [exact B1|].
  apply covers_blank_back; [exact B2|].
  exact (@enforce_size_covers self Hov Hcs _ _
           (split_sections_cover (strip T)) _ G).
Qed.

(** The amended C1 at the second text of the counterexample, with spaces
    around it: the two contents share the last 40 characters of the
    first. *)
Lemma chunks_cover_the_text_witness :
  let self := mkChunkerAgent 300 50 in
  let T :=
    L "  " ++ repeat "a"%char 240 ++ repeat " "%char 20
    ++ repeat "b"%char 200 ++ [nl] in
  exists chunks,
    chunk_document self T (L "policy") = Some chunks
    /\ covers (overlap self) (map content chunks) T
    /\ Forall trimmed (map content chunks).
Proof.
  apply (@chunks_cover_the_text (mkChunkerAgent 300 50)).
  - unfold well_configured; simpl; lia.
  - vm_compute; discriminate.
Defined.

End ChunkerCovers.

(** ** The nesting of the extractor *)

Section Nesting.

Import Extractor.

Context {ext : Externals}.

Lemma few_characters_no_splitting (content : str) :
  (len content <= 5000)%Z ->
  needs_splitting (_assess_content_quality content) = false.
Proof.
  intros H.
  destruct (needs_splitting (_assess_content_quality content)) eqn:N;
    [|reflexivity].
  unfold _assess_content_quality in N; cbn [needs_splitting] in N.
  apply Z.ltb_lt in N.
  unfold split_whitespace, len in *.
  pose proof (split_whitespace_go_count content []) as C.
  cbn [truthy] in C; lia.
Qed.

(** A chunk that is not split gives the same result at every depth. *)
Lemma not_split_any_depth (depth depth' : nat) (chunk : ChunkDict)
    (calls : nat) :
  not_split chunk ->
  extract_requirements depth chunk calls
  = extract_requirements depth' chunk calls.
Proof.
  unfold not_split; cbv zeta; intros H.
  rewrite !extract_requirements_unfold; cbv zeta.
  destruct (truthy (strip (get_content chunk))); cbn [negb]; [|reflexivity].
  destruct (likely_corrupted _); [reflexivity|].
  destruct (needs_splitting _); [|reflexivity].
  destruct H as [H|[H|H]]; discriminate.
Qed.

Lemma sub_chunk_loop_agree
    (extract extract' : ChunkDict -> nat -> option (list Requirement * nat))
    (parent : chunk_ref) (sub_chunks : list (Z * str)) :
  (forall i sub_chunk chunk_id calls,
     In (i, sub_chunk) sub_chunks ->
     extract {| chunk_content := Some sub_chunk;
                chunk_chunk_id := Some chunk_id |} calls
     = extract' {| chunk_content := Some sub_chunk;
                   chunk_chunk_id := Some chunk_id |} calls) ->
  forall calls,
    sub_chunk_loop extract parent sub_chunks calls
    = sub_chunk_loop extract' parent sub_chunks calls.
Proof.
  induction sub_chunks as [|[i sub_chunk] rest IH]; intros H calls;
    [reflexivity|].
  cbn [sub_chunk_loop].
  rewrite (H i sub_chunk _ calls (or_introl eq_refl)).
  destruct (extract' _ calls) as [[rs calls']|]; [|reflexivity].
  rewrite IH; [reflexivity|].
  intros j s c k Hin; apply (H j s c k); now right.
Qed.

Section Configured.

Hypothesis sized : splitter_keeps_its_size.
Hypothesis settled : preprocessing_settles.

(** No sub-chunk is above the threshold: it has at most 3000 characters
    after preprocessing, so at most 1500 words. *)
Lemma sub_chunks_are_not_split (content sub_chunk : str)
    (chunk_id : chunk_ref) :
  In sub_chunk (split_text (_preprocess_content content)) ->
  not_split {| chunk_content := Some sub_chunk;
               chunk_chunk_id := Some chunk_id |}.
Proof.
  intros Hin; unfold not_split; cbv zeta.
  cbn [get_content chunk_content].
  right; right; apply few_characters_no_splitting.
  pose proof (sized _ _ Hin); pose proof (settled _ _ Hin); lia.
Qed.

Lemma extract_requirements_one_level (chunk : ChunkDict) (calls : nat) :
  exists result,
    forall depth, extract_requirements (S depth) chunk calls = Some result.
Proof.
  destruct (truthy (strip (get_content chunk))) eqn:H1.
  2:{ exists ([], calls); intros depth.
      rewrite extract_requirements_unfold; cbv zeta; now rewrite H1. }
  destruct (likely_corrupted
              (_assess_content_quality
                 (_preprocess_content (get_content chunk)))) eqn:H2.
  { eexists; intros depth.
    rewrite extract_requirements_unfold; cbv zeta; rewrite H1, H2.
    reflexivity. }
  destruct (needs_splitting
              (_assess_content_quality
                 (_preprocess_content (get_content chunk)))) eqn:H3.
  - destruct (@sub_chunk_loop_returns (extract_requirements 0)
                (get_chunk_id chunk)
                (enumerate
                   (split_text (_preprocess_content (get_content chunk))))
                calls) as (result & E).
    { intros i sub_chunk chunk_id calls' Hin.
      apply not_split_returns.
      apply sub_chunks_are_not_split with (content := get_content chunk).
      unfold enumerate in Hin; now apply in_enumerate_from in Hin. }
    exists result; intros depth.
    rewrite extract_requirements_unfold; cbv zeta; rewrite H1, H2, H3.
    cbn [negb]; unfold process_large_chunk_with.
    rewrite <- E; apply sub_chunk_loop_agree.
    intros i sub_chunk chunk_id calls' Hin.
    apply not_split_any_depth.
    apply sub_chunks_are_not_split with (content := get_content chunk).
    unfold enumerate in Hin; now apply in_enumerate_from in Hin.
  - destruct (@not_split_returns ext 0 chunk calls) as (result & E);
      [unfold not_split; cbv zeta; auto|].
    exists result; intros depth.
    rewrite <- E; apply not_split_any_depth.
    unfold not_split; cbv zeta; auto.
Qed.

End Configured.

(** A chunk to split is handed to [_process_large_chunk], whatever the
    depth and the outside world. *)
Lemma to_split_is_split (depth : nat) (chunk : ChunkDict) (calls : nat) :
  to_split chunk ->
  extract_requirements (S depth) chunk calls
  = _process_large_chunk depth (_preprocess_content (get_content chunk))
      (get_chunk_id chunk) calls.
Proof.
  unfold to_split; cbv zeta; intros (H1 & H2 & H3).
  rewrite extract_requirements_unfold; cbv zeta.
  now rewrite H1, H2, H3.
Qed.

(** C9 (amended).  Given what the extractor gets from its libraries -- a
    splitter that keeps the size it is configured with, 3000 characters,
    and a preprocessing that does not lengthen a sub-chunk --
    [extract_requirements] returns for every chunk, and the nesting of its
    calls through [_process_large_chunk] is at most one: the result is
    there as soon as one level is allowed and is the same with more,
    because no sub-chunk of a chunk that is split is split again. *)
Theorem extract_requirements_nests_at_most_once :
  splitter_keeps_its_size -> preprocessing_settles ->
  forall (chunk : ChunkDict) (calls : nat),
    (exists result,
       forall depth, extract_requirements (S depth) chunk calls = Some result)
    /\ (forall sub_chunk chunk_id,
          In sub_chunk
             (split_text (_preprocess_content (get_content chunk))) ->
          not_split {| chunk_content := Some sub_chunk;
                       chunk_chunk_id := Some chunk_id |}).
Proof.
  intros sized settled chunk calls; split.
  - now apply extract_requirements_one_level.
  - intros sub_chunk chunk_id Hin.
    now apply sub_chunks_are_not_split with (content := get_content chunk).
Qed.

End Nesting.

Section NestingExamples.

Import Extractor Doubles Scenarios.

Lemma windows_go_sized (fuel n : nat) (s p : str) :
  In p (windows_go fuel n s) -> (length p <= n)%nat.
Proof.
  revert s; induction fuel as [|fuel IH]; intros s H; [destruct H|].
  cbn [windows_go] in H; destruct s as [|c s]; [destruct H|].
  destruct H as [<-|H]; [|exact (IH _ H)].
  rewrite length_firstn; lia.
Qed.

Lemma windowed_keeps_its_size : @splitter_keeps_its_size windowed.
Proof.
  intros text sub_chunk H.
  change (In sub_chunk (windows_go (length text) 3000 text)) in H.
  apply windows_go_sized in H; unfold len; lia.
Qed.

Lemma windowed_settles : @preprocessing_settles windowed.
Proof.
  intros content sub_chunk _.
  unfold _preprocess_content.
  destruct (truthy (strip sub_chunk)); cbn [negb]; [|lia].
  change (len (strip sub_chunk) <= len sub_chunk)%Z.
  apply len_strip.
Qed.

(** C9 (as stated, refuted).  Nothing in [extract_requirements] counts the
    nesting.  The chunk of 2501 words is a chunk to split; and there is no
    outside world, no depth and no chunk to split for which
    [extract_requirements] does anything but hand the chunk to
    [_process_large_chunk]: no depth at which the chunk goes to the
    patterns instead. *)
Lemma no_depth_is_capped :
  @to_split windowed long_chunk
  /\ ~ (exists (ext : Externals) (depth : nat) (chunk : ChunkDict)
               (calls : nat),
          @to_split ext chunk
          /\ @extract_requirements ext (S depth) chunk calls
             <> @_process_large_chunk ext depth
                  (@_preprocess_content ext (get_content chunk))
                  (get_chunk_id chunk) calls).
Proof.
  split.
  - assert (P : @_preprocess_content windowed many_words = many_words)
      by (vm_compute; reflexivity).
    unfold to_split; cbv zeta.
    cbn [get_content long_chunk chunk_content]; rewrite P.
    split; [exact many_words_not_blank|].
    split; [exact many_words_not_corrupted|exact many_words_to_split].
  - intros (ext & depth & chunk & calls & T & N).
    apply N, to_split_is_split, T.
Qed.

(** The amended C9 at the chunk of 2501 words, with a splitter that cuts
    windows of 3000 characters: the two sub-chunks are not split again. *)
Lemma extract_requirements_nests_at_most_once_witness :
  (exists result,
     forall depth,
       @extract_requirements windowed (S depth) long_chunk 0 = Some result)
  /\ (forall sub_chunk chunk_id,
        In sub_chunk
           (@split_text windowed
              (@_preprocess_content windowed (get_content long_chunk))) ->
        @not_split windowed
          {| chunk_content := Some sub_chunk;
             chunk_chunk_id := Some chunk_id |}).
Proof.
  apply (@extract_requirements_nests_at_most_once windowed
           windowed_keeps_its_size windowed_settles long_chunk 0).
Defined.

End NestingExamples.
